(** * EMS response simulation: the fitness function of [Simulation.py]

    A shallow embedding of [src/Simulation.py] and the properties of its
    event loop, dispatcher, reposition policy and metric reduction.

    Conventions of the embedding.
    - Python [float]s are read as real numbers ([R]): arithmetic is exact,
      rounding, infinities and NaN operands are outside the model.  The one
      NaN the code can produce from real operands, [np.mean] of an empty
      list, is kept (type [pyfloat]).
    - Python [int]s are [Z]; list positions are [nat].
    - A Python exception is an outcome [Raises]; the [while events] loop is
      run on a fuel that is shown to suffice ([Diverges] is never produced
      by a replication).
    - The dictionaries of the fleet are shared and mutated in place: a
      reference to one of them is modelled by its position in the list
      [ambulances], a mutation by an update at that position.
    - The process-wide random generators ([random], [np.random]) are an
      abstract state threaded through every draw. *)

From Stdlib Require Import Reals Lra Psatz ZArith Permutation.
From stdpp Require Import base tactics option list sorting.

(** ** Outcomes of Python code *)

Inductive exn : Type := IndexError | ValueError | AssertionError.

Inductive outcome (A : Type) : Type :=
| Returns (a : A)
| Raises (e : exn)
| Diverges.
Arguments Returns {A} a.
Arguments Raises {A} e.
Arguments Diverges {A}.

#[export] Instance outcome_ret : MRet outcome := fun A a => Returns a.
#[export] Instance outcome_bind : MBind outcome := fun A B f m =>
  match m with
  | Returns a => f a
  | Raises e => Raises e
  | Diverges => Diverges
  end.

(** [mapM]: the comprehension [[f x for x in l]] when [f] can raise. *)
Fixpoint for_each {A B : Type} (f : A -> outcome B) (l : list A) : outcome (list B) :=
  match l with
  | [] => Returns []
  | x :: xs => y ← f x; ys ← for_each f xs; Returns (y :: ys)
  end.

(** ** Python and numpy primitives used by the simulation *)

(** [range(n)] *)
Definition py_range (n : Z) : list Z := map Z.of_nat (seq 0 (Z.to_nat n)).

(** Position designated by the subscript [l[i]]: negative subscripts count
    from the end, anything outside the list raises [IndexError]. *)
Definition py_index {A : Type} (l : list A) (i : Z) : outcome nat :=
  let n := Z.of_nat (length l) in
  let j := if (i <? 0)%Z then (i + n)%Z else i in
  if ((0 <=? j) && (j <? n))%Z then Returns (Z.to_nat j) else Raises IndexError.

(** [l[i]] *)
Definition py_getitem {A : Type} (l : list A) (i : Z) : outcome A :=
  p ← py_index l i;
  match l !! p with
  | Some x => Returns x
  | None => Raises IndexError
  end.

(** Scan of [np.argmin]: [best] is the smallest value seen so far, at
    position [besti]; a later value replaces it only when strictly smaller. *)
Fixpoint argmin_from (best : R) (besti i : nat) (l : list R) : nat :=
  match l with
  | [] => besti
  | x :: xs =>
      if Rlt_dec x best then argmin_from x i (S i) xs
      else argmin_from best besti (S i) xs
  end.

(** [int(np.argmin(l))]: [ValueError] on an empty sequence. *)
Definition np_argmin (l : list R) : outcome nat :=
  match l with
  | [] => Raises ValueError
  | x :: xs => Returns (argmin_from x 0 1 xs)
  end.

Fixpoint min_from (best : R) (l : list R) : R :=
  match l with
  | [] => best
  | x :: xs => if Rlt_dec x best then min_from x xs else min_from best xs
  end.

(** [min(l)]: [ValueError] on an empty sequence. *)
Definition py_min (l : list R) : outcome R :=
  match l with
  | [] => Raises ValueError
  | x :: xs => Returns (min_from x xs)
  end.

(** [k] is the first position of [l] that holds its least value [m]. *)
Definition is_first_min (l : list R) (k : nat) (m : R) : Prop :=
  l !! k = Some m /\
  (forall j x, l !! j = Some x -> (m <= x)%R) /\
  (forall j x, j < k -> l !! j = Some x -> (m < x)%R).

#[export] Instance Rle_decision : RelDecision Rle := Rle_dec.

(** A float that may be NaN. *)
Inductive pyfloat : Type := Finite (r : R) | NaN.

Definition Rsum (l : list R) : R := foldr Rplus 0%R l.

(** Arithmetic mean of a non-empty list. *)
Definition mean (l : list R) : R := (Rsum l / INR (length l))%R.

(** [float(np.mean(l))]: NaN on an empty list. *)
Definition np_mean (l : list R) : pyfloat :=
  match l with
  | [] => NaN
  | _ => Finite (mean l)
  end.

Fixpoint insert_sorted (x : R) (l : list R) : list R :=
  match l with
  | [] => [x]
  | y :: ys => if Rle_dec x y then x :: y :: ys else y :: insert_sorted x ys
  end.

Definition sort_floats (l : list R) : list R := foldr insert_sorted [] l.

(** [float(np.median(l))] on a non-empty list: the middle element of the
    sorted samples, or the mean of the two middle ones. *)
Definition np_median (l : list R) : R :=
  let s := sort_floats l in
  let n := length s in
  if Nat.even n
  then ((nth (n / 2 - 1) s 0 + nth (n / 2) s 0) / 2)%R
  else nth (n / 2) s 0%R.

(** ** GeoModel *)

Definition radians (x : R) : R := (x * (PI / 180))%R.

(** [math.atan2] *)
Definition atan2 (y x : R) : R :=
  if Rlt_dec 0 x then atan (y / x)
  else if Rlt_dec x 0 then
    (if Rle_dec 0 y then atan (y / x) + PI else atan (y / x) - PI)%R
  else if Rlt_dec 0 y then (PI / 2)%R
  else if Rlt_dec y 0 then (- PI / 2)%R
  else 0%R.

(** Haversine distance (km). *)
Definition distance_km (lat1 lon1 lat2 lon2 : R) : R :=
  let lat1 := radians lat1 in
  let lon1 := radians lon1 in
  let lat2 := radians lat2 in
  let lon2 := radians lon2 in
  let r := 6371.0%R in
  let dlon := (lon2 - lon1)%R in
  let dlat := (lat2 - lat1)%R in
  let a := (sin (dlat / 2) ^ 2 + cos lat1 * cos lat2 * sin (dlon / 2) ^ 2)%R in
  let c := (2 * atan2 (sqrt a) (sqrt (1 - a)))%R in
  (r * c)%R.

(** The two-regime value [md] of the travel time model. *)
Definition base_distance (d_km : R) : R :=
  if Rle_dec d_km 4.13 then (2.42 * sqrt d_km)%R
  else (2.46 + 0.596 * d_km)%R.

(** Travel time model (minutes), with the coefficients as arguments. *)
Definition get_travel_time_minutes_with (d_km b0 b1 b2 : R) : R :=
  if Rle_dec d_km 0.1 then 0.0%R
  else
    let md := base_distance d_km in
    let cd := (sqrt (b0 * (b2 + 1) + b1 * (b2 + 1) * md + b2 * md ^ 2) / md)%R in
    (md * exp cd)%R.

(** The function at its default coefficients, as every call site uses it. *)
Definition get_travel_time_minutes (d_km : R) : R :=
  get_travel_time_minutes_with d_km 0.336 0.000058 0.0388.

(** ** RepositionTable *)

(** [table[i] = primary_list[:i]] for [i] in [range(len(primary_list) + 1)]. *)
Definition build_table (primary_list : list Z) : list (list Z) :=
  map (fun i => take i primary_list) (seq 0 (length primary_list + 1)).

(** ** Data model *)

(** An ambulance dictionary: [{"id", "availability", "latitude", "longitude"}];
    availability 1 = available, 0 = busy. *)
Module Amb.
Record t : Type := Build {
  id : Z;
  availability : Z;
  latitude : R;
  longitude : R }.
End Amb.

(** A station or hospital dictionary: [{"id", "latitude", "longitude"}]. *)
Module Site.
Record t : Type := Build {
  id : Z;
  latitude : R;
  longitude : R }.
End Site.

(** A call tuple [(time, treat, lat, lon, hos_req)]. *)
Record Call : Type := {
  call_time : R;
  call_treat : R;
  call_lat : R;
  call_lon : R;
  call_hos : R }.

(** An event dictionary.  The two shapes the code ever builds, told apart by
    their ["type"] entry (["call"] or ["free"]). *)
Inductive Event : Type :=
| CallEvent (time treat lat lon hos : R)
| FreeEvent (time : R) (amb_id : Z).

Definition time (e : Event) : R :=
  match e with
  | CallEvent t _ _ _ _ => t
  | FreeEvent t _ => t
  end.

(** ** EventQueue *)

(** [bisect.insort(events, e, key=lambda x: x["time"])]: [e] goes before the
    first entry whose time is strictly greater, hence after the entries of
    equal time.  (On a list sorted by time this is where the bisection of
    [bisect_right] ends.) *)
Fixpoint insort (e : Event) (events : list Event) : list Event :=
  match events with
  | [] => [e]
  | x :: xs =>
      if Rlt_dec (time e) (time x) then e :: x :: xs
      else x :: insort e xs
  end.

(** ** Fixed stations, hospitals and home bases *)

Definition station_lat : list R :=
  [53.560819; 53.459373; 53.596919; 53.458361; 53.540513; 53.524711; 53.501455;
   53.616200; 53.576052; 53.496447; 53.599942; 53.548177; 53.491966; 53.493017;
   53.553621; 53.548412; 53.570662]%R.

Definition station_lon : list R :=
  [-113.493309; -113.591074; -113.420168; -113.393060; -113.593065; -113.456783;
   -113.628936; -113.539335; -113.459060; -113.517286; -113.465073; -113.565264;
   -113.494986; -113.417560; -113.525529; -113.500589; -113.407889]%R.

Definition home_station : list Z :=
  [2; 2; 3; 4; 4; 6; 7; 7; 8; 8; 9; 11; 12; 13; 13; 15]%Z.

Definition hospital_lat : list R :=
  [53.55696; 53.52071; 53.60444; 53.461583; 53.521115]%R.

Definition hospital_lon : list R :=
  [-113.496566; -113.523769; -113.417621; -113.429724; -113.613514]%R.

Definition make_station (i : Z) : outcome Site.t :=
  lat ← py_getitem station_lat i;
  lon ← py_getitem station_lon i;
  Returns (Site.Build (i + 1) lat lon).

Definition make_ambulance (i : Z) : outcome Amb.t :=
  hs ← py_getitem home_station i;
  lat ← py_getitem station_lat hs;
  lon ← py_getitem station_lon hs;
  Returns (Amb.Build i 1 lat lon).

Definition make_hospital (i : Z) : outcome Site.t :=
  lat ← py_getitem hospital_lat i;
  lon ← py_getitem hospital_lon i;
  Returns (Site.Build i lat lon).

Definition fixed_location_generator (ambulance_n stations_n hospitals_n : Z)
  : outcome (list Amb.t * list Site.t * list Site.t) :=
  stations ← for_each make_station (py_range stations_n);
  if (Z.of_nat (length home_station) >=? ambulance_n)%Z then
    ambulances ← for_each make_ambulance (py_range ambulance_n);
    hospitals ← for_each make_hospital (py_range hospitals_n);
    Returns (ambulances, stations, hospitals)
  else Raises AssertionError.

(** ** The simulation *)

Definition SEED : Z := 31.

(** Warm-up boundary, [7 * 24 * 60] simulated minutes. *)
Definition warmup : R := (7 * 24 * 60)%R.

(** [enumerate(l)]: every element with its position. *)
Definition enumerate {A : Type} (l : list A) : list (nat * A) :=
  imap (fun i a => (i, a)) l.

(** [[a for a in ambulances if a["availability"] == 1]]; each entry is a
    reference into the fleet: the position and the dictionary found there. *)
Definition available (fleet : list Amb.t) : list (nat * Amb.t) :=
  filter (fun pa => Amb.availability pa.2 = 1%Z) (enumerate fleet).

(** The dispatcher's candidate pool: the available units, or the whole
    fleet when none is flagged available. *)
Definition pool (fleet : list Amb.t) : list (nat * Amb.t) :=
  match available fleet with
  | [] => enumerate fleet
  | free => free
  end.

Definition scene_distances (free : list (nat * Amb.t)) (lat lon : R) : list R :=
  map (fun pa => distance_km (Amb.latitude pa.2) (Amb.longitude pa.2) lat lon) free.

Definition hospital_distances (hospitals : list Site.t) (lat lon : R) : list R :=
  map (fun h => distance_km lat lon (Site.latitude h) (Site.longitude h)) hospitals.

(** Candidate stations of the reposition policy at availability [counter]:
    the table entry (or [[1, 2, 3]] when it is empty), filtered to the valid
    station ids, with [[1, 2, 3]] again when nothing is left. *)
Definition reposition_candidates (reposition_table : list (list Z))
    (stations : list Site.t) (counter : Z) : outcome (list Z) :=
  let idx := Z.min (Z.of_nat (length reposition_table) - 1) counter in
  entry ← py_getitem reposition_table idx;
  let candidates := match entry with [] => [1; 2; 3]%Z | _ => entry end in
  let candidates :=
    filter (fun c => (1 <= c <= Z.of_nat (length stations))%Z) candidates in
  Returns (match candidates with [] => [1; 2; 3]%Z | _ => candidates end).

(** One turn of the loop that fills [ds]. *)
Definition station_distance (stations : list Site.t) (amb : Amb.t) (cid : Z)
  : outcome R :=
  st ← py_getitem stations (cid - 1);
  Returns (distance_km (Amb.latitude amb) (Amb.longitude amb)
                       (Site.latitude st) (Site.longitude st)).

(** Station chosen for the freed unit [amb]. *)
Definition reposition_target (reposition_table : list (list Z))
    (stations : list Site.t) (counter : Z) (amb : Amb.t) : outcome Z :=
  candidates ← reposition_candidates reposition_table stations counter;
  ds ← for_each (station_distance stations amb) candidates;
  k ← np_argmin ds;
  py_getitem candidates (Z.of_nat k).

(** The reposition branch: [amb] moved to the nearest candidate station. *)
Definition reposition (reposition_table : list (list Z))
    (stations : list Site.t) (counter : Z) (amb : Amb.t) : outcome Amb.t :=
  target_station ← reposition_target reposition_table stations counter amb;
  st ← py_getitem stations (target_station - 1);
  Returns (Amb.Build (Amb.id amb) (Amb.availability amb)
                     (Site.latitude st) (Site.longitude st)).

Section Simulation.

(** State of the process-wide generators, Python's [random] and numpy's
    [np.random], seeded once when the module is imported. *)
Variable RandomState : Type.

(** [np.random.exponential(scale)]: the sample and the generator after it. *)
Variable np_random_exponential : R -> RandomState -> R * RandomState.

(** [random.seed(s); np.random.seed(s)]: the state both generators are
    put in by the two seeding statements at the top of the module. *)
Variable seed : Z -> RandomState.

(** The synthetic call stream of one replication (the draws of
    [generate_interarrivals], [treat_times], [synthetic_call_locations] and
    [hospital_req], assembled into the list [calls]) and the generator
    after them. *)
Variable generate_calls : RandomState -> list Call * RandomState.

(** The variables of one replication that the event loop updates. *)
Record SimState : Type := {
  events : list Event;
  ambulances : list Amb.t;
  current_state : Z;
  travel_times : list R;
  lost : Z;
  rng : RandomState }.

Section EventLoop.

Variables (stations hospitals : list Site.t).
Variable reposition_table : list (list Z).
Variable th : Z.

(** A call event that finds the availability counter at 0; [rest] is the
    queue after the pop. *)
Definition lose_call (t : R) (rest : list Event) (st : SimState) : SimState :=
  {| events := rest;
     ambulances := ambulances st;
     current_state := current_state st;
     travel_times := travel_times st;
     lost := if Rge_dec t warmup then (lost st + 1)%Z else lost st;
     rng := rng st |}.

(** Dispatch of a call event (counter not 0). *)
Definition dispatch (t treat lat lon hos : R) (rest : list Event)
    (st : SimState) : outcome SimState :=
  let free := pool (ambulances st) in
  let dists := scene_distances free lat lon in
  k ← np_argmin dists;
  pa ← py_getitem free (Z.of_nat k);
  let amb := Amb.Build (Amb.id pa.2) 0 lat lon in
  let fleet := <[pa.1 := amb]> (ambulances st) in
  let counter := (current_state st - 1)%Z in
  d ← py_min dists;
  let t1 := get_travel_time_minutes d in
  let samples :=
    if Rge_dec t warmup then travel_times st ++ [t1] else travel_times st in
  if Req_dec_T hos 1 then
    hd ← py_min (hospital_distances hospitals lat lon);
    let t2 := get_travel_time_minutes hd in
    let samples := if Rge_dec t warmup then samples ++ [t2] else samples in
    let draw := np_random_exponential 35 (rng st) in
    let hosp_treat := draw.1 in
    let finish := (t + t1 + treat + t2 + hosp_treat)%R in
    Returns {| events := insort (FreeEvent finish (Amb.id amb)) rest;
               ambulances := fleet;
               current_state := counter;
               travel_times := samples;
               lost := lost st;
               rng := draw.2 |}
  else
    let finish := (t + t1 + treat)%R in
    Returns {| events := insort (FreeEvent finish (Amb.id amb)) rest;
               ambulances := fleet;
               current_state := counter;
               travel_times := samples;
               lost := lost st;
               rng := rng st |}.

(** A free event: the unit is flagged available, the counter goes up, and
    below the threshold the unit is repositioned. *)
Definition release (amb_id : Z) (rest : list Event) (st : SimState)
  : outcome SimState :=
  p ← py_index (ambulances st) amb_id;
  a ← py_getitem (ambulances st) amb_id;
  let amb := Amb.Build (Amb.id a) 1 (Amb.latitude a) (Amb.longitude a) in
  let counter := (current_state st + 1)%Z in
  amb ← (if (counter <? th)%Z
         then reposition reposition_table stations counter amb
         else Returns amb);
  Returns {| events := rest;
             ambulances := <[p := amb]> (ambulances st);
             current_state := counter;
             travel_times := travel_times st;
             lost := lost st;
             rng := rng st |}.

(** Body of [while events]: pop the earliest event and resolve it. *)
Definition loop_body (st : SimState) : outcome SimState :=
  match events st with
  | [] => Returns st
  | CallEvent t treat lat lon hos :: rest =>
      if (current_state st =? 0)%Z then Returns (lose_call t rest st)
      else dispatch t treat lat lon hos rest st
  | FreeEvent _ amb_id :: rest => release amb_id rest st
  end.

(** Every call event is popped once and adds at most one free event, which
    is popped once: this bounds the turns of the loop. *)
Definition event_weight (e : Event) : nat :=
  match e with
  | CallEvent _ _ _ _ _ => 2
  | FreeEvent _ _ => 1
  end.

Definition queue_weight (evs : list Event) : nat :=
  foldr (fun e n => event_weight e + n) 0 evs.

(** [while events: ...] on at most [fuel] turns. *)
Fixpoint event_loop (fuel : nat) (st : SimState) : outcome SimState :=
  match events st with
  | [] => Returns st
  | _ :: _ =>
      match fuel with
      | O => Diverges
      | S fuel' => st' ← loop_body st; event_loop fuel' st'
      end
  end.

End EventLoop.

(** The event list built from the calls, one [insort] per call. *)
Definition call_event (c : Call) : Event :=
  CallEvent (call_time c) (call_treat c) (call_lat c) (call_lon c) (call_hos c).

Definition initial_events (calls : list Call) : list Event :=
  foldl (fun evs c => insort (call_event c) evs) [] calls.

Definition initial_state (fleet : list Amb.t) (AMBULANCE_NUMBER : Z)
    (calls : list Call) (g : RandomState) : SimState :=
  {| events := initial_events calls;
     ambulances := fleet;
     current_state := AMBULANCE_NUMBER;
     travel_times := [];
     lost := 0;
     rng := g |}.

(** States of the event loop of a replication run with these arguments:
    the state before the first turn, for any call stream the generator may
    deliver, and the state after every completed turn. *)
Inductive reachable (reposition_table : list (list Z))
    (th AMBULANCE_NUMBER STATIONS_NUMBER : Z)
    (stations hospitals : list Site.t) : SimState -> Prop :=
| reachable_initial fleet g :
    fixed_location_generator AMBULANCE_NUMBER STATIONS_NUMBER 5
      = Returns (fleet, stations, hospitals) ->
    reachable reposition_table th AMBULANCE_NUMBER STATIONS_NUMBER
      stations hospitals
      (initial_state fleet AMBULANCE_NUMBER (generate_calls g).1 (generate_calls g).2)
| reachable_turn st st' :
    reachable reposition_table th AMBULANCE_NUMBER STATIONS_NUMBER
      stations hospitals st ->
    loop_body stations hospitals reposition_table th st = Returns st' ->
    reachable reposition_table th AMBULANCE_NUMBER STATIONS_NUMBER
      stations hospitals st'.

(** Per-replication reduction of the observations. *)
Definition covered (t : R) : R := if Rle_dec t 9 then 1%R else 0%R.

Definition replication_median (samples : list R) : R :=
  match samples with
  | [] => 999.0%R
  | _ => np_median samples
  end.

Definition replication_coverage (samples : list R) : R :=
  match samples with
  | [] => 0.0%R
  | _ => mean (map covered samples)
  end.

(** What one replication appends to [medians], [coverages] and [losts]. *)
Record Observation : Type := {
  med : R;
  cov : R;
  lost_count : Z }.

(** One turn of [for _ in range(iterations)]. *)
Definition replication (reposition_table : list (list Z))
    (th AMBULANCE_NUMBER STATIONS_NUMBER : Z) (g : RandomState)
  : outcome (Observation * RandomState) :=
  '(fleet, stations, hospitals) ←
    fixed_location_generator AMBULANCE_NUMBER STATIONS_NUMBER 5;
  let gen := generate_calls g in
  let st0 := initial_state fleet AMBULANCE_NUMBER gen.1 gen.2 in
  st ← event_loop stations hospitals reposition_table th
         (queue_weight (events st0)) st0;
  Returns ({| med := replication_median (travel_times st);
              cov := replication_coverage (travel_times st);
              lost_count := lost st |}, rng st).

Fixpoint replications (n : nat) (reposition_table : list (list Z))
    (th AMBULANCE_NUMBER STATIONS_NUMBER : Z) (g : RandomState)
  : outcome (list Observation * RandomState) :=
  match n with
  | O => Returns ([], g)
  | S n' =>
      '(o, g1) ← replication reposition_table th AMBULANCE_NUMBER
                   STATIONS_NUMBER g;
      '(os, g2) ← replications n' reposition_table th AMBULANCE_NUMBER
                    STATIONS_NUMBER g1;
      Returns (o :: os, g2)
  end.

(** The returned dictionary. *)
Record Metrics : Type := {
  median_response_time : pyfloat;
  coverage : pyfloat;
  lost_calls : pyfloat }.

Definition aggregate (os : list Observation) : Metrics :=
  {| median_response_time := np_mean (map med os);
     coverage := np_mean (map cov os);
     lost_calls := np_mean (map (fun o => IZR (lost_count o)) os) |}.

(** [fitness_function(primary_list, th, AMBULANCE_NUMBER, STATIONS_NUMBER,
    iterations)], run from generator state [g]; the generator state it
    leaves is what the next caller in the process starts from. *)
Definition fitness_function (primary_list : list Z)
    (th AMBULANCE_NUMBER STATIONS_NUMBER iterations : Z) (g : RandomState)
  : outcome (Metrics * RandomState) :=
  let reposition_table := build_table primary_list in
  '(os, g') ← replications (Z.to_nat iterations) reposition_table th
                AMBULANCE_NUMBER STATIONS_NUMBER g;
  Returns (aggregate os, g').

(** The generators when the import of the module has run. *)
Definition state_at_import : RandomState := seed SEED.

(** The first two calls of [fitness_function] in a process, with the same
    arguments: nothing re-seeds the generators between them. *)
Definition first_two_calls (primary_list : list Z)
    (th AMBULANCE_NUMBER STATIONS_NUMBER iterations : Z)
  : outcome (Metrics * Metrics) :=
  '(m1, g1) ← fitness_function primary_list th AMBULANCE_NUMBER
                STATIONS_NUMBER iterations state_at_import;
  '(m2, _) ← fitness_function primary_list th AMBULANCE_NUMBER
               STATIONS_NUMBER iterations g1;
  Returns (m1, m2).

End Simulation.

Arguments SimState RandomState : clear implicits.
Arguments Build_SimState {RandomState} events ambulances current_state travel_times lost rng.
Arguments events {RandomState} s.
Arguments ambulances {RandomState} s.
Arguments current_state {RandomState} s.
Arguments travel_times {RandomState} s.
Arguments lost {RandomState} s.
Arguments rng {RandomState} s.
Arguments lose_call {RandomState} t rest st.
Arguments dispatch {RandomState} np_random_exponential hospitals t treat lat lon hos rest st.
Arguments release {RandomState} stations reposition_table th amb_id rest st.
Arguments loop_body {RandomState} np_random_exponential stations hospitals reposition_table th st.
Arguments event_loop {RandomState} np_random_exponential stations hospitals reposition_table th fuel st.
Arguments reachable {RandomState} np_random_exponential generate_calls reposition_table th AMBULANCE_NUMBER STATIONS_NUMBER stations hospitals st.
Arguments initial_state {RandomState} fleet AMBULANCE_NUMBER calls g.
Arguments replication {RandomState} np_random_exponential generate_calls reposition_table th AMBULANCE_NUMBER STATIONS_NUMBER g.
Arguments replications {RandomState} np_random_exponential generate_calls n reposition_table th AMBULANCE_NUMBER STATIONS_NUMBER g.
Arguments state_at_import {RandomState} seed.
Arguments first_two_calls {RandomState} np_random_exponential seed generate_calls primary_list th AMBULANCE_NUMBER STATIONS_NUMBER iterations.
Arguments fitness_function {RandomState} np_random_exponential generate_calls primary_list th AMBULANCE_NUMBER STATIONS_NUMBER iterations g.

(** Order of two fleet references by their positions. *)
Definition by_position {A : Type} (x y : nat * A) : Prop := x.1 < y.1.

(** ** Vocabulary of the invariants *)

(** Order of the event queue. *)
Definition not_later (x y : Event) : Prop := (time x <= time y)%R.

(** Ambulance ids of the free events waiting in the queue. *)
Definition free_id (e : Event) : option Z :=
  match e with
  | CallEvent _ _ _ _ _ => None
  | FreeEvent _ amb_id => Some amb_id
  end.

Definition pending (evs : list Event) : list Z := omap free_id evs.

Definition flagged_available (a : Amb.t) : Prop := Amb.availability a = 1%Z.

(** The counter and the flags agree. *)
Definition lockstep {RandomState : Type} (st : SimState RandomState) : Prop :=
  current_state st = Z.of_nat (length (available (ambulances st))).

(** What keeps them in agreement from turn to turn: every unit sits at the
    position named by its id, and the waiting free events name distinct
    units, all of them busy. *)
Definition consistent {RandomState : Type} (st : SimState RandomState) : Prop :=
  lockstep st /\
  (forall p a, ambulances st !! p = Some a -> Amb.id a = Z.of_nat p) /\
  NoDup (pending (events st)) /\
  (forall i, i ∈ pending (events st) ->
     exists p a, i = Z.of_nat p /\ ambulances st !! p = Some a /\
                 Amb.availability a = 0%Z).

(** The counter is not negative, unless the fleet is empty and no free
    event waits (a replication built with a negative ambulance count). *)
Definition counter_sound {RandomState : Type} (st : SimState RandomState) : Prop :=
  (0 <= current_state st)%Z \/
  (ambulances st = [] /\ pending (events st) = []).

(** A station id that the station table can resolve. *)
Definition valid_station (stations : list Site.t) (c : Z) : Prop :=
  (1 <= c <= Z.of_nat (length stations))%Z.

(** The single unit of a one-unit fleet is busy and its free event waits. *)
Definition awaiting_release {RandomState : Type} (st : SimState RandomState) : Prop :=
  current_state st = 0%Z /\
  (exists lat lon, ambulances st = [Amb.Build 0 0 lat lon]) /\
  pending (events st) = [0%Z].

(** ** Synthetic calls *)

#[export] Instance Rlt_decision : RelDecision Rlt := Rlt_dec.
#[export] Instance Rge_decision : RelDecision Rge := Rge_dec.

(** The keys of [day_mult] and [LAMBDA_BASE]: the code only ever looks them
    up with an entry of [days] and with one of the three shift names, so the
    two dictionaries are read as functions of the key. *)
Inductive Day : Type :=
  Monday | Tuesday | Wednesday | Thursday | Friday | Saturday | Sunday.

Inductive Shift : Type := Shift1 | Shift2 | Shift3.

Definition days : list Day :=
  [Monday; Tuesday; Wednesday; Thursday; Friday; Saturday; Sunday].

Definition LAMBDA_BASE (shift : Shift) : R :=
  match shift with
  | Shift1 => 0.2967
  | Shift2 => 0.2967
  | Shift3 => 0.1483
  end%R.

Definition day_mult (day : Day) : R :=
  match day with
  | Monday => 1.0
  | Tuesday => 0.8
  | Wednesday => 0.8
  | Thursday => 1.0
  | Friday => 1.2
  | Saturday => 1.2
  | Sunday => 1.0
  end%R.

(** [x // y] and [x % y] on floats, for a positive [y]. *)
Definition py_floordiv (x y : R) : Z := Zfloor (x / y).

Definition py_mod (x y : R) : R := (x - y * IZR (py_floordiv x y))%R.

(** The shift that minute [time_in_day] of a day falls in. *)
Definition shift_at (time_in_day : R) : Shift :=
  if decide (5 * 60 <= time_in_day < 13 * 60)%R then Shift1
  else if decide (13 * 60 <= time_in_day < 21 * 60)%R then Shift2
  else Shift3.

(** [lam] of one turn of the loop of [generate_interarrivals], at clock [t]. *)
Definition arrival_rate (t : R) : outcome R :=
  day ← py_getitem days (py_floordiv t (24 * 60) mod 7);
  let time_in_day := py_mod t (24 * 60) in
  Returns (LAMBDA_BASE (shift_at time_in_day) * day_mult day)%R.

Section CallStream.

Variable RandomState : Type.
Variable np_random_exponential : R -> RandomState -> R * RandomState.

(** [np.random.uniform(low, high)] and [random.random()]: the sample and
    the generators after it. *)
Variable np_random_uniform : R -> R -> RandomState -> R * RandomState.
Variable random_random : RandomState -> R * RandomState.

(** [while t < total_sim: ...] of [generate_interarrivals], on at most
    [fuel] turns, from clock [t]. *)
Fixpoint interarrivals_from (fuel : nat) (total_sim : Z) (t : R)
    (g : RandomState) : outcome (list R * RandomState) :=
  if Rlt_dec t (IZR total_sim) then
    match fuel with
    | O => Diverges
    | S fuel' =>
        lam ← arrival_rate t;
        let draw := np_random_exponential (1 / lam) g in
        '(rest, g') ← interarrivals_from fuel' total_sim (t + draw.1) draw.2;
        Returns (draw.1 :: rest, g')
    end
  else Returns ([], g).

Definition generate_interarrivals (fuel : nat) (total_days : Z)
    (g : RandomState) : outcome (list R * RandomState) :=
  interarrivals_from fuel (total_days * 24 * 60) 0 g.

(** A draw with [size=n], and a comprehension of [n] draws: [n] samples
    taken one after the other. *)
Fixpoint draws {A : Type} (n : nat) (draw : RandomState -> A * RandomState)
    (g : RandomState) : list A * RandomState :=
  match n with
  | O => ([], g)
  | S n' =>
      let d := draw g in
      let rest := draws n' draw d.2 in
      (d.1 :: rest.1, rest.2)
  end.

Definition synthetic_call_locations (n : nat) (g : RandomState)
  : list (R * R) * RandomState :=
  let lats := draws n (np_random_uniform 53.35 53.70) g in
  let lons := draws n (np_random_uniform (-113.75) (-113.25)) lats.2 in
  (zip lats.1 lons.1, lons.2).

(** One entry of [hospital_req]. *)
Definition hospital_draw (g : RandomState) : Z * RandomState :=
  let d := random_random g in
  (if Rlt_dec d.1 0.7 then 1%Z else 0%Z, d.2).

(** The loop that builds [calls], from entry [i] on and clock [t]. *)
Fixpoint build_calls (treat_times : list R) (coords : list (R * R))
    (hospital_req : list Z) (i : nat) (t : R) (interarrivals : list R)
  : outcome (list Call) :=
  match interarrivals with
  | [] => Returns []
  | ia :: rest =>
      let t := (t + ia)%R in
      '(lat, lon) ← py_getitem coords (Z.of_nat i);
      treat ← py_getitem treat_times (Z.of_nat i);
      hos ← py_getitem hospital_req (Z.of_nat i);
      calls ← build_calls treat_times coords hospital_req (S i) t rest;
      Returns ({| call_time := t; call_treat := treat; call_lat := lat;
                  call_lon := lon; call_hos := IZR hos |} :: calls)
  end.

(** The calls of one replication (the statements of [fitness_function]
    from [generate_interarrivals(total_days=35)] to the end of the loop
    that fills [calls]) and the generators after their draws. *)
Definition synthetic_calls (fuel : nat) (g : RandomState)
  : outcome (list Call * RandomState) :=
  '(interarrivals, g) ← generate_interarrivals fuel 35 g;
  let n := length interarrivals in
  let treat_times := draws n (np_random_exponential (1 / 15)) g in
  let coords := synthetic_call_locations n treat_times.2 in
  let hospital_req := draws n hospital_draw coords.2 in
  calls ← build_calls treat_times.1 coords.1 hospital_req.1 0 0 interarrivals;
  Returns (calls, hospital_req.2).

End CallStream.

Arguments interarrivals_from {RandomState} np_random_exponential fuel total_sim t g.
Arguments generate_interarrivals {RandomState} np_random_exponential fuel total_days g.
Arguments draws {RandomState A} n draw g.
Arguments synthetic_call_locations {RandomState} np_random_uniform n g.
Arguments hospital_draw {RandomState} random_random g.
Arguments synthetic_calls {RandomState} np_random_exponential np_random_uniform random_random fuel g.

(** ** Vocabulary of the accounting *)

(** A call event that arrives at or past the warm-up boundary. *)
Definition late_call (e : Event) : Prop :=
  match e with
  | CallEvent t _ _ _ _ => (t >= warmup)%R
  | FreeEvent _ _ => False
  end.

#[export] Instance late_call_dec e : Decision (late_call e) :=
  match e with
  | CallEvent t _ _ _ _ => Rge_dec t warmup
  | FreeEvent _ _ => right (fun H : False => H)
  end.

(** A call of the stream that arrives at or past the warm-up boundary. *)
Definition late (c : Call) : Prop := (call_time c >= warmup)%R.

#[export] Instance late_dec c : Decision (late c) := Rge_dec (call_time c) warmup.

(** The whole fleet is accounted for: [AMBULANCE_NUMBER] units, each of
    them counted as available or awaited by a free event. *)
Definition balanced {RandomState : Type} (AMBULANCE_NUMBER : Z)
    (st : SimState RandomState) : Prop :=
  length (ambulances st) = Z.to_nat AMBULANCE_NUMBER /\
  (current_state st + Z.of_nat (length (pending (events st))))%Z = AMBULANCE_NUMBER.

(** A call event, and a call of the stream, that requires hospital
    transport. *)
Definition hospital_call (e : Event) : Prop :=
  match e with
  | CallEvent _ _ _ _ hos => hos = 1%R
  | FreeEvent _ _ => False
  end.

#[export] Instance hospital_call_dec e : Decision (hospital_call e) :=
  match e with
  | CallEvent _ _ _ _ hos => Req_dec_T hos 1
  | FreeEvent _ _ => right (fun H : False => H)
  end.

Definition needs_hospital (c : Call) : Prop := call_hos c = 1%R.

#[export] Instance needs_hospital_dec c : Decision (needs_hospital c) :=
  Req_dec_T (call_hos c) 1.

(** The generators after [k] hand-off draws [np.random.exponential(35)]. *)
Definition hand_offs {RandomState : Type}
    (np_random_exponential : R -> RandomState -> R * RandomState)
    (k : nat) (g : RandomState) : RandomState :=
  Nat.iter k (fun g => (np_random_exponential 35%R g).2) g.

(** ** Scenarios

    Small concrete runs on which the properties below are exercised.  In
    the first ones the generator state is trivial and every exponential
    sample is its scale; the later ones run the call stream of
    [synthetic_calls] on a generator whose state counts its draws. *)

Definition scale_as_sample (scale : R) (g : unit) : R * unit := (scale, g).

(** One unit waiting at station 3, one call after warm-up that needs no
    hospital transport. *)
Definition scenario_unit : Amb.t := Amb.Build 0 1 53.596919 (-113.420168).

Definition scenario_scene_km : R :=
  distance_km 53.596919 (-113.420168) 53.5 (-113.5).

Definition scenario_before : SimState unit :=
  {| events := [CallEvent 20000 5 53.5 (-113.5) 0];
     ambulances := [scenario_unit];
     current_state := 1;
     travel_times := [];
     lost := 0;
     rng := tt |}.

Definition scenario_after : SimState unit :=
  {| events := [FreeEvent (20000 + get_travel_time_minutes scenario_scene_km + 5) 0];
     ambulances := [Amb.Build 0 0 53.5 (-113.5)];
     current_state := 0;
     travel_times := [get_travel_time_minutes scenario_scene_km];
     lost := 0;
     rng := tt |}.

(** The same call when the only unit is busy. *)
Definition scenario_no_unit : SimState unit :=
  {| events := [CallEvent 20000 5 53.5 (-113.5) 0];
     ambulances := [Amb.Build 0 0 53.52 (-113.48)];
     current_state := 0;
     travel_times := [];
     lost := 0;
     rng := tt |}.

(** The stream of that one call, and the replication it drives: one unit,
    no station, the five hospitals. *)
Definition one_call_stream (g : unit) : list Call * unit :=
  ([{| call_time := 20000; call_treat := 5; call_lat := 53.5;
       call_lon := -113.5; call_hos := 0 |}], g).

Definition five_hospitals : list Site.t :=
  [Site.Build 0 53.55696 (-113.496566);
   Site.Build 1 53.52071 (-113.523769);
   Site.Build 2 53.60444 (-113.417621);
   Site.Build 3 53.461583 (-113.429724);
   Site.Build 4 53.521115 (-113.613514)].

(** The state after the free event of that call, resolved without
    repositioning. *)
Definition scenario_released : SimState unit :=
  {| events := [];
     ambulances := [Amb.Build 0 1 53.5 (-113.5)];
     current_state := 1;
     travel_times := [get_travel_time_minutes scenario_scene_km];
     lost := 0;
     rng := tt |}.

(** The station table of a replication with two stations. *)
Definition two_stations : list Site.t :=
  [Site.Build 1 53.560819 (-113.493309); Site.Build 2 53.459373 (-113.591074)].

(** The metrics of the one-call replication run once with threshold 0. *)
Definition scenario_metrics : Metrics :=
  aggregate
    [{| med := replication_median [get_travel_time_minutes scenario_scene_km];
        cov := replication_coverage [get_travel_time_minutes scenario_scene_km];
        lost_count := 0 |}].

(** The station table of a replication with three stations. *)
Definition three_stations : list Site.t :=
  [Site.Build 1 53.560819 (-113.493309); Site.Build 2 53.459373 (-113.591074);
   Site.Build 3 53.596919 (-113.420168)].

(** Uniform and unit-interval samples of the scenarios: the lower bound
    of the interval, and one half. *)
Definition low_as_sample (low high : R) (g : unit) : R * unit := (low, g).

Definition half_as_sample (g : unit) : R * unit := (0.5%R, g).

(** Seeding of the counter generators below: the state is the seed. *)
Definition counter_seed (s : Z) : nat := Z.to_nat s.

(** A generator whose state counts the draws made so far.  Every
    exponential sample is 60000 minutes, except 5000 minutes at the states
    that leave 1 modulo 4; every uniform sample is the lower bound of its
    interval; [random.random()] is 0.5 at odd states and 0.9 at even
    ones. *)
Definition cycle_exponential (scale : R) (g : nat) : R * nat :=
  (if (g mod 4 =? 1)%nat then 5000%R else 60000%R, S g).

Definition cycle_uniform (low high : R) (g : nat) : R * nat := (low, S g).

Definition cycle_random (g : nat) : R * nat :=
  (if Nat.odd g then 0.5%R else 0.9%R, S g).

(** The call stream of [synthetic_calls] on that generator.  Two draws
    always reach the horizon, so the default is never used. *)
Definition cycle_calls (g : nat) : list Call * nat :=
  match synthetic_calls cycle_exponential cycle_uniform cycle_random 2 g with
  | Returns stream => stream
  | _ => ([], g)
  end.

(** The scene of every call of that stream, its distance from the home
    base of unit 0 and from the nearest of the five hospitals, and the two
    travel times. *)
Definition cycle_scene_km : R :=
  distance_km 53.596919 (-113.420168) 53.35 (-113.75).

Definition cycle_hospital_km : R :=
  match hospital_distances five_hospitals 53.35 (-113.75) with
  | [] => 0%R
  | d :: ds => min_from d ds
  end.

Definition cycle_t1 : R := get_travel_time_minutes cycle_scene_km.
Definition cycle_t2 : R := get_travel_time_minutes cycle_hospital_km.

(** First replication of the run from state 31 (one unit, three stations,
    threshold 0): one call at minute 60000 that needs hospital transport. *)
Definition cycle_first_start : SimState nat :=
  {| events := [CallEvent (0 + 60000) 60000 53.35 (-113.75) 1];
     ambulances := [scenario_unit];
     current_state := 1;
     travel_times := [];
     lost := 0;
     rng := 36%nat |}.

Definition cycle_first_sent : SimState nat :=
  {| events := [FreeEvent (0 + 60000 + cycle_t1 + 60000 + cycle_t2 + 60000) 0];
     ambulances := [Amb.Build 0 0 53.35 (-113.75)];
     current_state := 0;
     travel_times := [cycle_t1; cycle_t2];
     lost := 0;
     rng := 37%nat |}.

Definition cycle_first_end : SimState nat :=
  {| events := [];
     ambulances := [Amb.Build 0 1 53.35 (-113.75)];
     current_state := 1;
     travel_times := [cycle_t1; cycle_t2];
     lost := 0;
     rng := 37%nat |}.

(** Second replication, from the state 37 the first one left: a call
    before warm-up that keeps the unit busy past the second call. *)
Definition cycle_second_start : SimState nat :=
  {| events := [CallEvent (0 + 5000) 60000 53.35 (-113.75) 1;
                CallEvent (0 + 5000 + 60000) 60000 53.35 (-113.75) 0];
     ambulances := [scenario_unit];
     current_state := 1;
     travel_times := [];
     lost := 0;
     rng := 47%nat |}.

Definition cycle_second_sent : SimState nat :=
  {| events := [CallEvent (0 + 5000 + 60000) 60000 53.35 (-113.75) 0;
                FreeEvent (0 + 5000 + cycle_t1 + 60000 + cycle_t2 + 60000) 0];
     ambulances := [Amb.Build 0 0 53.35 (-113.75)];
     current_state := 0;
     travel_times := [];
     lost := 0;
     rng := 48%nat |}.

Definition cycle_second_lost : SimState nat :=
  {| events := [FreeEvent (0 + 5000 + cycle_t1 + 60000 + cycle_t2 + 60000) 0];
     ambulances := [Amb.Build 0 0 53.35 (-113.75)];
     current_state := 0;
     travel_times := [];
     lost := 1;
     rng := 48%nat |}.

Definition cycle_second_end : SimState nat :=
  {| events := [];
     ambulances := [Amb.Build 0 1 53.35 (-113.75)];
     current_state := 1;
     travel_times := [];
     lost := 1;
     rng := 48%nat |}.

(** What the two replications contribute, and the metrics of the call
    that runs both. *)
Definition cycle_first : Observation :=
  {| med := replication_median [cycle_t1; cycle_t2];
     cov := replication_coverage [cycle_t1; cycle_t2];
     lost_count := 0 |}.

Definition cycle_second : Observation :=
  {| med := 999.0; cov := 0.0; lost_count := 1 |}.

(** A replication with two units on the same stream: both wait at their
    common home base when the call of minute 60000 arrives. *)
Definition pair_unit : Amb.t := Amb.Build 1 1 53.596919 (-113.420168).

Definition pair_start : SimState nat :=
  {| events := [CallEvent (0 + 60000) 60000 53.35 (-113.75) 1];
     ambulances := [scenario_unit; pair_unit];
     current_state := 2;
     travel_times := [];
     lost := 0;
     rng := 36%nat |}.

Definition pair_sent : SimState nat :=
  {| events := [FreeEvent (0 + 60000 + cycle_t1 + 60000 + cycle_t2 + 60000) 0];
     ambulances := [Amb.Build 0 0 53.35 (-113.75); pair_unit];
     current_state := 1;
     travel_times := [cycle_t1; cycle_t2];
     lost := 0;
     rng := 37%nat |}.

(** A later call from the same address, with four units: unit 0 at its
    home base, unit 1 busy at the address, units 2 and 3 available there. *)
Definition crowd_start : SimState nat :=
  {| events := [CallEvent 70000 5 53.35 (-113.75) 0;
                FreeEvent 70010 1];
     ambulances := [scenario_unit;
                    Amb.Build 1 0 53.35 (-113.75);
                    Amb.Build 2 1 53.35 (-113.75);
                    Amb.Build 3 1 53.35 (-113.75)];
     current_state := 3;
     travel_times := [];
     lost := 0;
     rng := 40%nat |}.

Definition crowd_sent : SimState nat :=
  {| events :=
       [FreeEvent (70000 + get_travel_time_minutes
                             (distance_km 53.35 (-113.75) 53.35 (-113.75)) + 5) 2;
        FreeEvent 70010 1];
     ambulances := [scenario_unit;
                    Amb.Build 1 0 53.35 (-113.75);
                    Amb.Build 2 0 53.35 (-113.75);
                    Amb.Build 3 1 53.35 (-113.75)];
     current_state := 2;
     travel_times :=
       [get_travel_time_minutes (distance_km 53.35 (-113.75) 53.35 (-113.75))];
     lost := 0;
     rng := 40%nat |}.



(** A second counting generator, whose first exponential draws are short:
    from state 1 the stream of [synthetic_calls] holds three calls. *)
Definition burst_exponential (scale : R) (g : nat) : R * nat :=
  (if (g <? 3)%nat then 20000%R else 60000%R, S g).

Definition burst_calls (g : nat) : list Call * nat :=
  match synthetic_calls burst_exponential cycle_uniform cycle_random 3 g with
  | Returns stream => stream
  | _ => ([], g)
  end.

(** The replication on that stream from state 1, with one unit: three
    calls at minutes 20000, 40000 and 100000, the first and the last with
    hospital transport; the first dispatch leaves the two later calls and
    the free event of the unit in the queue. *)
Definition burst_start : SimState nat :=
  {| events := [CallEvent (0 + 20000) 60000 53.35 (-113.75) 1;
                CallEvent (0 + 20000 + 20000) 60000 53.35 (-113.75) 0;
                CallEvent (0 + 20000 + 20000 + 60000) 60000 53.35 (-113.75) 1];
     ambulances := [scenario_unit];
     current_state := 1;
     travel_times := [];
     lost := 0;
     rng := 16%nat |}.

Definition burst_sent : SimState nat :=
  {| events := [CallEvent (0 + 20000 + 20000) 60000 53.35 (-113.75) 0;
                CallEvent (0 + 20000 + 20000 + 60000) 60000 53.35 (-113.75) 1;
                FreeEvent (0 + 20000 + cycle_t1 + 60000 + cycle_t2 + 60000) 0];
     ambulances := [Amb.Build 0 0 53.35 (-113.75)];
     current_state := 0;
     travel_times := [cycle_t1; cycle_t2];
     lost := 0;
     rng := 17%nat |}.

(** A generator that delivers no call (no run of [generate_interarrivals]
    does: only the clause on empty streams is exercised on it). *)
Definition silent_stream (g : nat) : list Call * nat := ([], g).

(** The start of a replication on that stream with an ambulance count of
    -1: the generator returns an empty fleet and the counter starts at -1. *)
Definition negative_start : SimState nat :=
  {| events := [CallEvent (0 + 60000) 60000 53.35 (-113.75) 1];
     ambulances := [];
     current_state := -1;
     travel_times := [];
     lost := 0;
     rng := 36%nat |}.

(** Three calls in time order, the first two at the same minute. *)
Definition tied_calls : list Call :=
  [{| call_time := 5000; call_treat := 10; call_lat := 53.35;
      call_lon := -113.75; call_hos := 1 |};
   {| call_time := 5000; call_treat := 20; call_lat := 53.36;
      call_lon := -113.74; call_hos := 0 |};
   {| call_time := 65000; call_treat := 30; call_lat := 53.37;
      call_lon := -113.73; call_hos := 0 |}].

(** * Properties *)

(** ** GeoModel: the travel time model *)

Section TravelTime.
Local Open Scope R_scope.

Lemma square_le_reg (a b : R) : 0 <= b -> a * a <= b * b -> a <= b.
Proof.
  intros Hb H. destruct (Rle_or_lt a b) as [|Hlt]; [assumption|]. nra.
Qed.

Lemma sqrt_above (c x : R) : 0 <= c -> c * c <= x -> c <= sqrt x.
Proof.
  intros Hc Hx. rewrite <- (sqrt_square c Hc). apply sqrt_le_1_alt. exact Hx.
Qed.

Lemma sqrt_below (c x : R) : 0 <= c -> x <= c * c -> sqrt x <= c.
Proof.
  intros Hc Hx. rewrite <- (sqrt_square c Hc). apply sqrt_le_1_alt. exact Hx.
Qed.

Lemma base_distance_lower d : 0.1 < d -> 0.76 <= base_distance d.
Proof.
  intros Hd. unfold base_distance. destruct (Rle_dec d 4.13).
  - assert (0.316 <= sqrt d) by (apply sqrt_above; lra). lra.
  - lra.
Qed.

(** The regime switch at 4.13 km does not step down: the square-root
    regime ends below 4.9182, the linear one starts above 4.9214. *)
Lemma base_distance_mono d1 d2 :
  0.1 < d1 -> d1 <= d2 -> base_distance d1 <= base_distance d2.
Proof.
  intros H1 H12. unfold base_distance.
  destruct (Rle_dec d1 4.13), (Rle_dec d2 4.13); try lra.
  - assert (sqrt d1 <= sqrt d2) by (apply sqrt_le_1_alt; lra). lra.
  - assert (sqrt d1 <= 2.0323) by (apply sqrt_below; lra). lra.
Qed.

Section Correction.
Variables A B C : R.
Hypothesis HA : 0 < A.
Hypothesis HB : 0 <= B.
Hypothesis HC : 0 <= C.

Local Abbreviation P m := (A + B * m + C * m ^ 2).

Lemma radicand_pos m : 0 <= m -> 0 < P m.
Proof. intros. nra. Qed.

(** [m * exp (sqrt (P m) / m)] does not decrease in [m] once
    [A + B m <= m^2]: with [g = sqrt (P m)], the decrease of [g / m]
    between [m1] and [m2] is at most [(m2 - m1) / m2], and
    [exp x >= 1 + x]. *)
Lemma scaled_exp_mono m1 m2 :
  0 < m1 -> m1 <= m2 -> A + B * m1 <= m1 ^ 2 ->
  m1 * exp (sqrt (P m1) / m1) <= m2 * exp (sqrt (P m2) / m2).
Proof.
  intros Hm1 Hle Hdom.
  assert (Hm2 : 0 < m2) by lra.
  pose proof (radicand_pos m1 ltac:(lra)) as HP1.
  pose proof (radicand_pos m2 ltac:(lra)) as HP2.
  set (g1 := sqrt (P m1)). set (g2 := sqrt (P m2)).
  assert (Hg1 : g1 * g1 = P m1) by (apply sqrt_sqrt; lra).
  assert (Hg2 : g2 * g2 = P m2) by (apply sqrt_sqrt; lra).
  assert (Hg1p : 0 < g1) by (apply sqrt_lt_R0; lra).
  assert (Hg2p : 0 < g2) by (apply sqrt_lt_R0; lra).
  assert (Hi : A + B * m1 <= m1 * g1).
  { assert (Hsq : (A + B * m1) * (A + B * m1) <= (m1 * g1) * (m1 * g1)).
    { replace ((m1 * g1) * (m1 * g1)) with (m1 ^ 2 * (g1 * g1)) by ring.
      rewrite Hg1.
      assert (0 <= A + B * m1) by nra.
      assert ((A + B * m1) * (A + B * m1) <= m1 ^ 2 * (A + B * m1))
        by (apply Rmult_le_compat_r; lra).
      assert (0 <= m1 ^ 2 * (C * m1 ^ 2)) by (apply Rmult_le_pos; nra).
      lra. }
    apply square_le_reg; [nra | exact Hsq]. }
  assert (Hii : A <= m1 * g2).
  { assert (Hsq : A * A <= (m1 * g2) * (m1 * g2)).
    { replace ((m1 * g2) * (m1 * g2)) with (m1 ^ 2 * (g2 * g2)) by ring.
      rewrite Hg2.
      assert (A <= m1 ^ 2) by nra.
      assert (A <= A + B * m2 + C * m2 ^ 2) by nra.
      apply Rmult_le_compat; lra. }
    apply square_le_reg; [nra | exact Hsq]. }
  assert (Hdiff : m2 * g1 - m1 * g2 <= m1 * (m2 - m1)).
  { assert (Hprod : (m2 * g1 - m1 * g2) * (m2 * g1 + m1 * g2)
                    = (m2 - m1) * (A * (m1 + m2) + B * m1 * m2)).
    { transitivity (m2 ^ 2 * (g1 * g1) - m1 ^ 2 * (g2 * g2)); [ring|].
      rewrite Hg1, Hg2. ring. }
    assert (HK : A * (m1 + m2) + B * m1 * m2 <= m1 * (m2 * g1 + m1 * g2)).
    { assert (m2 * (A + B * m1) <= m2 * (m1 * g1))
        by (apply Rmult_le_compat_l; lra).
      assert (m1 * A <= m1 * (m1 * g2)) by (apply Rmult_le_compat_l; lra).
      nra. }
    assert (Hs : 0 < m2 * g1 + m1 * g2) by nra.
    apply Rmult_le_reg_r with (m2 * g1 + m1 * g2); [exact Hs|].
    rewrite Hprod.
    replace (m1 * (m2 - m1) * (m2 * g1 + m1 * g2))
      with ((m2 - m1) * (m1 * (m2 * g1 + m1 * g2))) by ring.
    apply Rmult_le_compat_l; lra. }
  assert (Hh : m2 * (g1 / m1 - g2 / m2) <= m2 - m1).
  { apply Rmult_le_reg_l with m1; [exact Hm1|].
    replace (m1 * (m2 * (g1 / m1 - g2 / m2))) with (m2 * g1 - m1 * g2)
      by (field; lra).
    lra. }
  pose proof (exp_ineq1_le (g2 / m2 - g1 / m1)) as Hexp.
  pose proof (exp_pos (g1 / m1)) as He1.
  replace (g2 / m2) with (g1 / m1 + (g2 / m2 - g1 / m1)) by ring.
  rewrite exp_plus.
  set (x := g2 / m2 - g1 / m1) in *.
  assert (Hx : m1 <= m2 * (1 + x)) by (unfold x; lra).
  assert (m1 * exp (g1 / m1) <= m2 * (1 + x) * exp (g1 / m1))
    by (apply Rmult_le_compat_r; lra).
  assert (m2 * (1 + x) * exp (g1 / m1) <= m2 * exp x * exp (g1 / m1)).
  { apply Rmult_le_compat_r; [lra|]. apply Rmult_le_compat_l; lra. }
  lra.
Qed.

End Correction.

Lemma travel_time_on_site d : d <= 0.1 -> get_travel_time_minutes d = 0.
Proof.
  intros Hd. unfold get_travel_time_minutes, get_travel_time_minutes_with.
  destruct (Rle_dec d 0.1); [lra | contradiction].
Qed.

Lemma travel_time_en_route d :
  0.1 < d ->
  get_travel_time_minutes d =
  base_distance d *
  exp (sqrt (0.336 * (0.0388 + 1) + 0.000058 * (0.0388 + 1) * base_distance d
             + 0.0388 * base_distance d ^ 2) / base_distance d).
Proof.
  intros Hd. unfold get_travel_time_minutes, get_travel_time_minutes_with.
  destruct (Rle_dec d 0.1); [lra | reflexivity].
Qed.

(** The formula read over the reals, with exact [sqrt] and [exp]: 0 up to
    0.1 km and non-decreasing above, the switch of regime at 4.13 km
    included.  The code evaluates it on doubles, where rounding can make
    the value step down between two adjacent distances: that reading is
    outside this model. *)
Lemma real_travel_time_monotone :
  (forall d, d <= 0.1 -> get_travel_time_minutes d = 0) /\
  (forall d1 d2, 0.1 < d1 -> d1 <= d2 ->
     get_travel_time_minutes d1 <= get_travel_time_minutes d2).
Proof.
  split; [exact travel_time_on_site|].
  intros d1 d2 H1 H12.
  rewrite !travel_time_en_route by lra.
  pose proof (base_distance_lower d1 H1) as Hlow.
  pose proof (base_distance_mono d1 d2 H1 H12) as Hmono.
  apply scaled_exp_mono; try lra. nra.
Qed.

End TravelTime.

(** ** Python primitives *)

Section Primitives.

Lemma bind_Returns_inv {A B : Type} (m : outcome A) (f : A -> outcome B) b :
  (x ← m; f x) = Returns b -> exists a, m = Returns a /\ f a = Returns b.
Proof. destruct m as [a| |]; simpl; intros H; try discriminate. eauto. Qed.

Lemma py_index_nat {A : Type} (l : list A) (k : nat) :
  k < length l -> py_index l (Z.of_nat k) = Returns k.
Proof.
  intros Hk. unfold py_index.
  destruct (Z.ltb_spec (Z.of_nat k) 0); [lia|].
  destruct (Z.leb_spec 0 (Z.of_nat k)); [|lia].
  destruct (Z.ltb_spec (Z.of_nat k) (Z.of_nat (length l))); [|lia].
  simpl. by rewrite Nat2Z.id.
Qed.

Lemma py_index_lt {A : Type} (l : list A) i p :
  py_index l i = Returns p -> p < length l.
Proof.
  unfold py_index.
  destruct (_ && _)%bool eqn:E; [|discriminate].
  intros [= <-]. apply andb_prop in E as [E1 E2].
  apply Z.leb_le in E1. apply Z.ltb_lt in E2. lia.
Qed.

Lemma py_index_nonneg {A : Type} (l : list A) i p :
  (0 <= i)%Z -> py_index l i = Returns p -> i = Z.of_nat p.
Proof.
  intros Hi. unfold py_index.
  destruct (Z.ltb_spec i 0); [lia|].
  destruct (_ && _)%bool eqn:E; [|discriminate].
  intros [= <-]. lia.
Qed.

Lemma py_getitem_nat {A : Type} (l : list A) (k : nat) x :
  l !! k = Some x -> py_getitem l (Z.of_nat k) = Returns x.
Proof.
  intros Hx. unfold py_getitem.
  rewrite py_index_nat by (by eapply lookup_lt_Some). simpl. by rewrite Hx.
Qed.

Lemma py_getitem_inv {A : Type} (l : list A) i x :
  py_getitem l i = Returns x ->
  exists p, py_index l i = Returns p /\ l !! p = Some x.
Proof.
  unfold py_getitem. intros H.
  apply bind_Returns_inv in H as (p & Hp & H).
  exists p. split; [done|]. destruct (l !! p); by inversion H.
Qed.

Lemma py_getitem_nat_inv {A : Type} (l : list A) (k : nat) x :
  py_getitem l (Z.of_nat k) = Returns x -> l !! k = Some x.
Proof.
  intros H. apply py_getitem_inv in H as (p & Hp & Hx).
  apply py_index_nonneg in Hp; [|lia]. by apply Nat2Z.inj in Hp as ->.
Qed.

Lemma argmin_from_spec l : forall pre best besti,
  is_first_min pre besti best ->
  is_first_min (pre ++ l) (argmin_from best besti (length pre) l) (min_from best l).
Proof.
  induction l as [|x xs IH]; intros pre best besti (Hk & Hle & Hlt); simpl.
  - rewrite app_nil_r. done.
  - replace (pre ++ x :: xs) with ((pre ++ [x]) ++ xs) by (by rewrite <- app_assoc).
    replace (S (length pre)) with (length (pre ++ [x]))
      by (rewrite length_app; simpl; lia).
    destruct (Rlt_dec x best) as [Hx|Hx]; apply IH.
    + split; [|split].
      * rewrite lookup_app_r by lia. by rewrite Nat.sub_diag.
      * intros j y Hy. apply lookup_app_Some in Hy as [Hy|[_ Hy]].
        -- apply Hle in Hy. lra.
        -- apply list_lookup_singleton_Some in Hy as [_ <-]. lra.
      * intros j y Hj Hy. rewrite lookup_app_l in Hy by done.
        apply Hle in Hy. lra.
    + split; [|split].
      * apply lookup_app_l_Some. done.
      * intros j y Hy. apply lookup_app_Some in Hy as [Hy|[_ Hy]].
        -- by eapply Hle.
        -- apply list_lookup_singleton_Some in Hy as [_ <-]. lra.
      * intros j y Hj Hy.
        assert (besti < length pre) by (by eapply lookup_lt_Some).
        rewrite lookup_app_l in Hy by lia. by eapply Hlt.
Qed.

Lemma np_argmin_first_min l k :
  np_argmin l = Returns k -> exists m, py_min l = Returns m /\ is_first_min l k m.
Proof.
  destruct l as [|x xs]; simpl; [discriminate|]. intros [= <-].
  exists (min_from x xs). split; [done|].
  apply (argmin_from_spec xs [x] x 0).
  split; [done|]. split.
  - intros j y Hy. apply list_lookup_singleton_Some in Hy as [_ <-]. lra.
  - intros j y Hj. lia.
Qed.

Lemma py_min_first_min l m :
  py_min l = Returns m -> exists k, is_first_min l k m.
Proof.
  intros Hm. destruct l as [|x xs]; [discriminate|].
  destruct (np_argmin_first_min (x :: xs) _ eq_refl) as (m' & Hm' & H).
  exists (argmin_from x 0 1 xs). congruence.
Qed.

Lemma np_argmin_nonempty l : l <> [] -> exists k, np_argmin l = Returns k.
Proof. destruct l; [done|]. simpl. eauto. Qed.

Lemma py_min_nonempty l : l <> [] -> exists m, py_min l = Returns m.
Proof. destruct l; [done|]. simpl. eauto. Qed.

End Primitives.

(** ** The fleet and the event queue *)

Section Fleet.

Lemma enumerate_lookup {A : Type} (l : list A) i p a :
  enumerate l !! i = Some (p, a) <-> p = i /\ l !! i = Some a.
Proof.
  unfold enumerate. rewrite list_lookup_imap.
  destruct (l !! i) as [b|]; simpl; split.
  - intros [= <- <-]. done.
  - intros [-> [= ->]]. done.
  - done.
  - intros [_ ?]. done.
Qed.

Lemma enumerate_nil {A : Type} (l : list A) : enumerate l = [] -> l = [].
Proof. by destruct l. Qed.

Lemma available_elem fleet p a :
  (p, a) ∈ available fleet <-> fleet !! p = Some a /\ Amb.availability a = 1%Z.
Proof.
  unfold available. rewrite list_elem_of_filter, list_elem_of_lookup. simpl.
  split.
  - intros [Hav [i Hi]]. apply enumerate_lookup in Hi as [-> Hi]. done.
  - intros [Hp Hav]. split; [done|]. exists p. by apply enumerate_lookup.
Qed.

Lemma pool_cases fleet :
  (available fleet <> [] /\ pool fleet = available fleet) \/
  (available fleet = [] /\ pool fleet = enumerate fleet).
Proof. unfold pool. destruct (available fleet); [right|left]; done. Qed.

Lemma pool_lookup fleet k p a :
  pool fleet !! k = Some (p, a) -> fleet !! p = Some a.
Proof.
  destruct (pool_cases fleet) as [[_ ->]|[_ ->]]; intros H.
  - apply list_elem_of_lookup_2 in H. by apply available_elem in H as [? _].
  - by apply enumerate_lookup in H as [-> ?].
Qed.

Lemma pool_nonempty fleet : fleet <> [] -> pool fleet <> [].
Proof.
  intros Hne. destruct (pool_cases fleet) as [[? ->]|[_ ->]]; [done|].
  intros H. by apply enumerate_nil in H.
Qed.

Lemma insort_perm e evs : Permutation (insort e evs) (e :: evs).
Proof.
  induction evs as [|x xs IH]; simpl; [done|].
  destruct (Rlt_dec _ _); [done|].
  rewrite IH. apply perm_swap.
Qed.

Lemma imap_positions_sorted {A : Type} (l : list A) : forall g : nat -> nat,
  (forall i j, i < j -> g i < g j) ->
  StronglySorted by_position (imap (fun i a => (g i, a)) l).
Proof.
  induction l as [|x xs IH]; intros g Hg; [constructor|].
  rewrite imap_cons. constructor.
  - apply (IH (g ∘ S)). intros i j Hij. simpl. apply Hg. lia.
  - apply Forall_forall. intros [q b] Hin.
    apply elem_of_lookup_imap_1 in Hin as (i & y & [= -> ->] & _).
    unfold by_position. simpl. apply Hg. lia.
Qed.

Lemma filter_sorted {A : Type} (R : relation A) (P : A -> Prop)
    `{!forall x, Decision (P x)} (l : list A) :
  StronglySorted R l -> StronglySorted R (filter P l).
Proof.
  induction 1 as [|x xs Hs IH Hall]; [constructor|].
  rewrite filter_cons. destruct (decide (P x)); [|done].
  constructor; [done|].
  apply Forall_forall. intros y Hy. apply list_elem_of_filter in Hy as [_ Hy].
  rewrite Forall_forall in Hall. by apply Hall.
Qed.

Lemma sorted_lookup_lt {A : Type} (R : relation A) (l : list A) :
  StronglySorted R l ->
  forall i j x y, i < j -> l !! i = Some x -> l !! j = Some y -> R x y.
Proof.
  induction 1 as [|z zs Hs IH Hall]; intros i j x y Hij Hx Hy; [done|].
  destruct j as [|j]; [lia|]. simpl in Hy.
  destruct i as [|i]; simpl in Hx.
  - injection Hx as ->. rewrite Forall_forall in Hall. apply Hall.
    by eapply list_elem_of_lookup_2.
  - apply (IH i j); [lia|done..].
Qed.

Lemma pool_sorted fleet : StronglySorted by_position (pool fleet).
Proof.
  assert (Hen : StronglySorted by_position (enumerate fleet)).
  { apply (imap_positions_sorted fleet (fun i => i)). auto. }
  destruct (pool_cases fleet) as [[_ ->]|[_ ->]]; [|done].
  unfold available. by apply filter_sorted.
Qed.

(** The pool lists the units by increasing position in the fleet. *)
Lemma pool_order fleet j k q b p a :
  pool fleet !! j = Some (q, b) -> pool fleet !! k = Some (p, a) ->
  q < p -> j < k.
Proof.
  intros Hj Hk Hqp.
  destruct (Nat.lt_trichotomy j k) as [?|[->|Hkj]]; [done|..].
  - rewrite Hj in Hk. injection Hk as -> _. lia.
  - pose proof (sorted_lookup_lt _ _ (pool_sorted fleet) _ _ _ _ Hkj Hk Hj) as H.
    unfold by_position in H. simpl in H. lia.
Qed.

End Fleet.

(** ** One turn of the event loop *)

Lemma scenario_dispatch stations hospitals table th :
  loop_body scale_as_sample stations hospitals table th scenario_before
  = Returns scenario_after.
Proof.
  unfold loop_body, scenario_before. cbn [events current_state Z.eqb].
  unfold dispatch. cbn [ambulances].
  change (pool [scenario_unit]) with [(0%nat, scenario_unit)].
  cbn.
  destruct (Req_dec_T 0 1) as [H|_]; [lra|].
  destruct (Rge_dec 20000 warmup) as [_|H]; [|unfold warmup in H; lra].
  reflexivity.
Qed.

Section EventLoopFacts.
Context {RandomState : Type}.
Variable np_random_exponential : R -> RandomState -> R * RandomState.
Variables (stations hospitals : list Site.t).
Variable reposition_table : list (list Z).
Variable th : Z.

Local Abbreviation step :=
  (loop_body np_random_exponential stations hospitals reposition_table th).

Lemma step_call (st : SimState RandomState) t treat lat lon hos rest :
  events st = CallEvent t treat lat lon hos :: rest ->
  step st = if (current_state st =? 0)%Z then Returns (lose_call t rest st)
            else dispatch np_random_exponential hospitals t treat lat lon hos rest st.
Proof. intros Hev. unfold loop_body. by rewrite Hev. Qed.

Lemma step_free (st : SimState RandomState) t amb_id rest :
  events st = FreeEvent t amb_id :: rest ->
  step st = release stations reposition_table th amb_id rest st.
Proof. intros Hev. unfold loop_body. by rewrite Hev. Qed.

Lemma dispatch_inv (st st' : SimState RandomState) t treat lat lon hos rest :
  dispatch np_random_exponential hospitals t treat lat lon hos rest st = Returns st' ->
  let free := pool (ambulances st) in
  let dists := scene_distances free lat lon in
  exists k p a d1,
    np_argmin dists = Returns k /\ free !! k = Some (p, a) /\
    py_min dists = Returns d1 /\
    let t1 := get_travel_time_minutes d1 in
    let busy := Amb.Build (Amb.id a) 0 lat lon in
    let samples :=
      if Rge_dec t warmup then travel_times st ++ [t1] else travel_times st in
    (hos = 1%R /\ exists hd,
       py_min (hospital_distances hospitals lat lon) = Returns hd /\
       let t2 := get_travel_time_minutes hd in
       let draw := np_random_exponential 35 (rng st) in
       st' = {| events := insort (FreeEvent (t + t1 + treat + t2 + draw.1) (Amb.id a)) rest;
                ambulances := <[p := busy]> (ambulances st);
                current_state := current_state st - 1;
                travel_times := if Rge_dec t warmup then samples ++ [t2] else samples;
                lost := lost st;
                rng := draw.2 |}) \/
    (hos <> 1%R /\
       st' = {| events := insort (FreeEvent (t + t1 + treat) (Amb.id a)) rest;
                ambulances := <[p := busy]> (ambulances st);
                current_state := current_state st - 1;
                travel_times := samples;
                lost := lost st;
                rng := rng st |}).
Proof.
  unfold dispatch. intros H.
  apply bind_Returns_inv in H as (k & Hk & H).
  apply bind_Returns_inv in H as ([p a] & Hpa & H).
  apply bind_Returns_inv in H as (d1 & Hd1 & H).
  apply py_getitem_nat_inv in Hpa.
  exists k, p, a, d1. repeat (split; [done|]). simpl in *.
  destruct (Req_dec_T hos 1) as [Hh|Hh].
  - left. split; [done|].
    apply bind_Returns_inv in H as (hd & Hhd & H).
    exists hd. split; [done|]. by inversion H.
  - right. split; [done|]. by inversion H.
Qed.

(** A dispatch returns as soon as there is a unit to send and a hospital
    to drive to. *)
Lemma dispatch_returns t treat lat lon hos rest (st : SimState RandomState) :
  ambulances st <> [] -> hospitals <> [] ->
  exists st', dispatch np_random_exponential hospitals t treat lat lon hos rest st
              = Returns st'.
Proof.
  intros Hfleet Hhosp. unfold dispatch.
  pose proof (pool_nonempty _ Hfleet) as Hpool.
  assert (Hd : scene_distances (pool (ambulances st)) lat lon <> []).
  { unfold scene_distances. by destruct (pool (ambulances st)). }
  destruct (np_argmin_nonempty _ Hd) as [k Hk]. rewrite Hk. simpl.
  destruct (np_argmin_first_min _ _ Hk) as (m & Hm & Hkm & _).
  unfold scene_distances in Hkm. rewrite list_lookup_fmap in Hkm.
  destruct (pool (ambulances st) !! k) as [pa|] eqn:Hpa; [|done].
  rewrite (py_getitem_nat _ _ _ Hpa). simpl. rewrite Hm. simpl.
  destruct (Req_dec_T hos 1); [|eauto].
  assert (Hh : hospital_distances hospitals lat lon <> []).
  { unfold hospital_distances. by destruct hospitals. }
  destruct (py_min_nonempty _ Hh) as [hd ->]. simpl. eauto.
Qed.

Lemma step_dispatch_returns (st : SimState RandomState) t treat lat lon hos rest :
  events st = CallEvent t treat lat lon hos :: rest ->
  current_state st <> 0%Z ->
  ambulances st <> [] -> hospitals <> [] ->
  exists st', step st = Returns st'.
Proof.
  intros Hev Hc Hfleet Hhosp. rewrite (step_call _ _ _ _ _ _ _ Hev).
  destruct (Z.eqb_spec (current_state st) 0); [done|].
  by apply dispatch_returns.
Qed.

Lemma step_dispatch_inv (st st' : SimState RandomState) t treat lat lon hos rest :
  events st = CallEvent t treat lat lon hos :: rest ->
  current_state st <> 0%Z ->
  step st = Returns st' ->
  dispatch np_random_exponential hospitals t treat lat lon hos rest st = Returns st'.
Proof.
  intros Hev Hc. rewrite (step_call _ _ _ _ _ _ _ Hev).
  destruct (Z.eqb_spec (current_state st) 0); done.
Qed.

Lemma first_min_of_scene (fleet : list Amb.t) lat lon k p a m :
  pool fleet !! k = Some (p, a) ->
  is_first_min (scene_distances (pool fleet) lat lon) k m ->
  m = distance_km (Amb.latitude a) (Amb.longitude a) lat lon.
Proof.
  intros Hpa (Hk & _). unfold scene_distances in Hk.
  rewrite list_lookup_fmap, Hpa in Hk. simpl in Hk. congruence.
Qed.

(** C6.  A call event that finds the availability counter at 0 is resolved
    by one turn that adds exactly one to the lost-call counter when the call
    arrived at or past the warm-up boundary and leaves it alone otherwise;
    nothing else happens: the queue is the popped queue (no free event is
    inserted), the fleet, the counter, the travel-time samples and the
    generator are unchanged. *)
Theorem call_without_unit_is_lost (st : SimState RandomState)
    t treat lat lon hos rest :
  events st = CallEvent t treat lat lon hos :: rest ->
  current_state st = 0%Z ->
  exists st', step st = Returns st' /\
    ((t >= warmup)%R -> lost st' = (lost st + 1)%Z) /\
    ((t < warmup)%R -> lost st' = lost st) /\
    events st' = rest /\
    ambulances st' = ambulances st /\
    current_state st' = current_state st /\
    travel_times st' = travel_times st /\
    rng st' = rng st.
Proof.
  intros Hev Hc. rewrite (step_call _ _ _ _ _ _ _ Hev), Hc. simpl.
  eexists. split; [reflexivity|]. unfold lose_call. simpl.
  destruct (Rge_dec t warmup); repeat split; try done; intros; lra.
Qed.

(** C4.  A call event that finds the counter not 0 is dispatched (the turn
    returns whenever the fleet and the hospital table are not empty).  The
    pool is the list of the units flagged available, or the whole fleet when
    that list is empty; the unit sent is in the pool, no unit of the pool is
    nearer to the call by [distance_km], and every unit of the pool that
    comes before it in the fleet is strictly farther.  After the turn that
    unit is busy and stands at the call site, every other unit is as before,
    and the counter is one less. *)
Theorem dispatch_selects_nearest (st : SimState RandomState)
    t treat lat lon hos rest :
  events st = CallEvent t treat lat lon hos :: rest ->
  current_state st <> 0%Z ->
  let fleet := ambulances st in
  let km (b : Amb.t) := distance_km (Amb.latitude b) (Amb.longitude b) lat lon in
  (fleet <> [] -> hospitals <> [] -> exists st', step st = Returns st') /\
  (forall p a, (p, a) ∈ available fleet <->
               fleet !! p = Some a /\ Amb.availability a = 1%Z) /\
  (available fleet <> [] /\ pool fleet = available fleet \/
   available fleet = [] /\ pool fleet = enumerate fleet) /\
  forall st', step st = Returns st' ->
  exists p a,
    (p, a) ∈ pool fleet /\
    fleet !! p = Some a /\
    (forall q b, (q, b) ∈ pool fleet -> (km a <= km b)%R) /\
    (forall q b, (q, b) ∈ pool fleet -> q < p -> (km a < km b)%R) /\
    ambulances st' !! p = Some (Amb.Build (Amb.id a) 0 lat lon) /\
    (forall q, q <> p -> ambulances st' !! q = fleet !! q) /\
    length (ambulances st') = length fleet /\
    current_state st' = (current_state st - 1)%Z.
Proof.
  intros Hev Hc fleet km.
  split; [intros Hfleet Hhosp; by eapply step_dispatch_returns|].
  split; [apply available_elem|]. split; [apply pool_cases|].
  intros st' Hstep.
  apply (step_dispatch_inv _ _ _ _ _ _ _ _ Hev Hc) in Hstep.
  apply dispatch_inv in Hstep as (k & p & a & d1 & Hk & Hpa & Hd1 & Hst').
  apply np_argmin_first_min in Hk as (m & Hm & Hfirst).
  pose proof (first_min_of_scene _ _ _ _ _ _ _ Hpa Hfirst) as ->.
  destruct Hfirst as (_ & Hle & Hlt).
  pose proof (pool_lookup _ _ _ _ Hpa) as Hp.
  assert (Hfleet : ambulances st' = <[p := Amb.Build (Amb.id a) 0 lat lon]> fleet
                   /\ current_state st' = (current_state st - 1)%Z).
  { destruct Hst' as [(_ & hd & _ & ->)|(_ & ->)]; done. }
  destruct Hfleet as [Hfleet Hcount].
  exists p, a. repeat split; try done.
  - by eapply list_elem_of_lookup_2.
  - intros q b Hqb. apply list_elem_of_lookup in Hqb as [j Hj].
    apply (Hle j). unfold scene_distances.
    fold fleet. by rewrite list_lookup_fmap, Hj.
  - intros q b Hqb Hqp. apply list_elem_of_lookup in Hqb as [j Hj].
    apply (Hlt j); [by eapply pool_order|]. unfold scene_distances.
    fold fleet. by rewrite list_lookup_fmap, Hj.
  - rewrite Hfleet. apply list_lookup_insert_eq. by eapply lookup_lt_Some.
  - intros q Hq. rewrite Hfleet. by apply list_lookup_insert_ne.
  - rewrite Hfleet. apply length_insert.
Qed.

Lemma least_hospital_distance lat lon j hd :
  is_first_min (hospital_distances hospitals lat lon) j hd ->
  exists h,
    hospitals !! j = Some h /\
    hd = distance_km lat lon (Site.latitude h) (Site.longitude h) /\
    forall h', h' ∈ hospitals ->
      (hd <= distance_km lat lon (Site.latitude h') (Site.longitude h'))%R.
Proof.
  unfold hospital_distances. intros (Hj & Hle & _).
  rewrite list_lookup_fmap in Hj.
  destruct (hospitals !! j) as [h|] eqn:Hh; [|done]. injection Hj as <-.
  exists h. split; [done|]. split; [done|].
  intros h' Hh'. apply list_elem_of_lookup in Hh' as [i Hi].
  apply (Hle i). by rewrite list_lookup_fmap, Hi.
Qed.

(** C5.  A dispatched call (the turn returns whenever the fleet and the
    hospital table are not empty) inserts exactly one free event, for the
    unit sent: the queue after the turn is the popped queue with that one event
    added by [insort].  Its time is the call time plus the travel time over
    the [distance_km] from the unit sent to the call (the least one of the
    pool) plus the treatment duration and, when hospital transport is
    required, plus the travel time over the [distance_km] from the call to
    a hospital of the table that no other hospital beats, plus the hand-off
    duration drawn by [np.random.exponential(35)]. *)
Theorem dispatch_schedules_one_free (st : SimState RandomState)
    t treat lat lon hos rest :
  events st = CallEvent t treat lat lon hos :: rest ->
  current_state st <> 0%Z ->
  (ambulances st <> [] -> hospitals <> [] -> exists st', step st = Returns st') /\
  forall st', step st = Returns st' ->
  exists k p a finish,
    pool (ambulances st) !! k = Some (p, a) /\
    let d1 := distance_km (Amb.latitude a) (Amb.longitude a) lat lon in
    let to_hospital (h : Site.t) :=
      distance_km lat lon (Site.latitude h) (Site.longitude h) in
    is_first_min (scene_distances (pool (ambulances st)) lat lon) k d1 /\
    (forall q b, (q, b) ∈ pool (ambulances st) ->
       (d1 <= distance_km (Amb.latitude b) (Amb.longitude b) lat lon)%R) /\
    (hos <> 1%R ->
       finish = (t + get_travel_time_minutes d1 + treat)%R) /\
    (hos = 1%R ->
       exists j h,
         hospitals !! j = Some h /\
         is_first_min (hospital_distances hospitals lat lon) j (to_hospital h) /\
         (forall h', h' ∈ hospitals -> (to_hospital h <= to_hospital h')%R) /\
         finish = (t + get_travel_time_minutes d1 + treat
                   + get_travel_time_minutes (to_hospital h)
                   + (np_random_exponential 35 (rng st)).1)%R) /\
    events st' = insort (FreeEvent finish (Amb.id a)) rest /\
    Permutation (events st') (FreeEvent finish (Amb.id a) :: rest).
Proof.
  intros Hev Hc.
  split; [intros Hfleet Hhosp; by eapply step_dispatch_returns|].
  intros st' Hstep.
  apply (step_dispatch_inv _ _ _ _ _ _ _ _ Hev Hc) in Hstep.
  apply dispatch_inv in Hstep as (k & p & a & d1 & Hk & Hpa & Hd1 & Hst').
  apply np_argmin_first_min in Hk as (m & Hm & Hfirst).
  assert (m = d1) as -> by congruence.
  pose proof (first_min_of_scene _ _ _ _ _ _ _ Hpa Hfirst) as ->.
  assert (Hnear : forall q b, (q, b) ∈ pool (ambulances st) ->
            (distance_km (Amb.latitude a) (Amb.longitude a) lat lon
             <= distance_km (Amb.latitude b) (Amb.longitude b) lat lon)%R).
  { intros q b Hqb. apply list_elem_of_lookup in Hqb as [i Hi].
    destruct Hfirst as (_ & Hle & _). apply (Hle i).
    unfold scene_distances. by rewrite list_lookup_fmap, Hi. }
  destruct Hst' as [(Hh & hd & Hhd & ->)|(Hh & ->)]; simpl.
  - apply py_min_first_min in Hhd as [j Hj].
    destruct (least_hospital_distance _ _ _ _ Hj) as (h & Hjh & -> & Hleast).
    exists k, p, a,
      (t + get_travel_time_minutes
             (distance_km (Amb.latitude a) (Amb.longitude a) lat lon)
       + treat
       + get_travel_time_minutes
           (distance_km lat lon (Site.latitude h) (Site.longitude h))
       + (np_random_exponential 35 (rng st)).1)%R.
    split; [done|]. split; [done|]. split; [done|]. split; [done|].
    split; [intros _; by exists j, h|].
    split; [done | apply insort_perm].
  - exists k, p, a,
      (t + get_travel_time_minutes
             (distance_km (Amb.latitude a) (Amb.longitude a) lat lon)
       + treat)%R.
    split; [done|]. split; [done|]. split; [done|]. split; [done|].
    split; [done|]. split; [done | apply insort_perm].
Qed.

(** C7.  A dispatched call (the turn returns whenever the fleet and the
    hospital table are not empty) records its legs, the scene leg and after it the
    hospital leg when transport is required, at the end of the travel-time
    samples when it arrived at or past the warm-up boundary of
    [7 * 24 * 60] minutes, and records nothing when it arrived before. *)
Theorem legs_recorded_from_warmup (st : SimState RandomState)
    t treat lat lon hos rest :
  events st = CallEvent t treat lat lon hos :: rest ->
  current_state st <> 0%Z ->
  warmup = 10080%R /\
  (ambulances st <> [] -> hospitals <> [] -> exists st', step st = Returns st') /\
  forall st', step st = Returns st' ->
  exists k d1 legs,
    is_first_min (scene_distances (pool (ambulances st)) lat lon) k d1 /\
    (hos <> 1%R -> legs = [get_travel_time_minutes d1]) /\
    (hos = 1%R ->
       exists j hd,
         is_first_min (hospital_distances hospitals lat lon) j hd /\
         legs = [get_travel_time_minutes d1; get_travel_time_minutes hd]) /\
    ((t >= warmup)%R -> travel_times st' = travel_times st ++ legs) /\
    ((t < warmup)%R -> travel_times st' = travel_times st).
Proof.
  intros Hev Hc. split; [unfold warmup; lra|].
  split; [intros Hfleet Hhosp; by eapply step_dispatch_returns|].
  intros st' Hstep.
  apply (step_dispatch_inv _ _ _ _ _ _ _ _ Hev Hc) in Hstep.
  apply dispatch_inv in Hstep as (k & p & a & d1 & Hk & Hpa & Hd1 & Hst').
  apply np_argmin_first_min in Hk as (m & Hm & Hfirst).
  assert (m = d1) as -> by congruence.
  destruct Hst' as [(Hh & hd & Hhd & ->)|(Hh & ->)]; simpl.
  - apply py_min_first_min in Hhd as [j Hj].
    exists k, d1, [get_travel_time_minutes d1; get_travel_time_minutes hd].
    split; [done|]. split; [done|]. split; [intros _; by exists j, hd|].
    split; intros Ht; destruct (Rge_dec t warmup); try done; try lra.
    by rewrite <- app_assoc.
  - exists k, d1, [get_travel_time_minutes d1].
    split; [done|]. split; [done|]. split; [done|].
    split; intros Ht; destruct (Rge_dec t warmup); try done; lra.
Qed.

End EventLoopFacts.

Lemma call_without_unit_is_lost_witness :
  exists st',
    loop_body scale_as_sample [] [] [] 0 scenario_no_unit = Returns st' /\
    ((20000 >= warmup)%R -> lost st' = (lost scenario_no_unit + 1)%Z) /\
    ((20000 < warmup)%R -> lost st' = lost scenario_no_unit) /\
    events st' = [] /\
    ambulances st' = ambulances scenario_no_unit /\
    current_state st' = current_state scenario_no_unit /\
    travel_times st' = travel_times scenario_no_unit /\
    rng st' = rng scenario_no_unit.
Proof.
  apply (call_without_unit_is_lost scale_as_sample [] [] [] 0 scenario_no_unit
           20000 5 53.5 (-113.5) 0 []); reflexivity.
Defined.

Lemma legs_recorded_from_warmup_witness :
  warmup = 10080%R /\
  (exists st', loop_body scale_as_sample [] five_hospitals [] 0 scenario_before
               = Returns st') /\
  exists k d1 legs,
    is_first_min
      (scene_distances (pool (ambulances scenario_before)) 53.5 (-113.5)) k d1 /\
    ((0 <> 1)%R -> legs = [get_travel_time_minutes d1]) /\
    ((0 = 1)%R ->
       exists j hd,
         is_first_min (hospital_distances five_hospitals 53.5 (-113.5)) j hd /\
         legs = [get_travel_time_minutes d1; get_travel_time_minutes hd]) /\
    ((20000 >= warmup)%R ->
       travel_times scenario_after = travel_times scenario_before ++ legs) /\
    ((20000 < warmup)%R ->
       travel_times scenario_after = travel_times scenario_before).
Proof.
  destruct (legs_recorded_from_warmup scale_as_sample [] five_hospitals [] 0
              scenario_before 20000 5 53.5 (-113.5) 0 [])
    as (Hwarmup & Hreturns & Hlegs).
  - reflexivity.
  - simpl. lia.
  - split; [exact Hwarmup|]. split.
    + apply Hreturns; simpl; discriminate.
    + apply Hlegs, scenario_dispatch.
Defined.

(** ** The counter and the availability flags *)

Section Counting.

Lemma available_flags_gen (l : list Amb.t) : forall g : nat -> nat,
  (filter (fun pa : nat * Amb.t => Amb.availability pa.2 = 1%Z)
          (imap (fun i a => (g i, a)) l)).*2
  = filter flagged_available l.
Proof.
  induction l as [|x xs IH]; intros g; [done|].
  rewrite imap_cons, !filter_cons. simpl. unfold flagged_available at 1.
  destruct (decide (Amb.availability x = 1%Z)); simpl; f_equal; apply (IH (g ∘ S)).
Qed.

Lemma available_flags fleet : (available fleet).*2 = filter flagged_available fleet.
Proof. apply (available_flags_gen fleet (fun i => i)). Qed.

Lemma length_available fleet :
  length (available fleet) = length (filter flagged_available fleet).
Proof. by rewrite <- available_flags, length_fmap. Qed.

Lemma length_available_insert fleet p a a' :
  fleet !! p = Some a ->
  (length (available (<[p := a']> fleet))
   + (if decide (flagged_available a) then 1 else 0)
   = length (available fleet)
   + (if decide (flagged_available a') then 1 else 0))%nat.
Proof.
  intros Hp. rewrite !length_available.
  assert (Hlt : p < length fleet) by (by eapply lookup_lt_Some).
  rewrite insert_take_drop by done.
  rewrite <- (take_drop_middle fleet p a Hp) at 3.
  rewrite !filter_app, !filter_cons, !length_app.
  destruct (decide (flagged_available a)), (decide (flagged_available a'));
    simpl; lia.
Qed.

Lemma pending_insort e evs : pending (insort e evs) ≡ₚ pending (e :: evs).
Proof. unfold pending. by rewrite insort_perm. Qed.

End Counting.

Section Generator.

Lemma for_each_Forall2 {A B : Type} (f : A -> outcome B) l ys :
  for_each f l = Returns ys -> Forall2 (fun x y => f x = Returns y) l ys.
Proof.
  revert ys. induction l as [|x xs IH]; simpl; intros ys H.
  - injection H as <-. constructor.
  - apply bind_Returns_inv in H as (y & Hy & H).
    apply bind_Returns_inv in H as (ys' & Hys & H).
    injection H as <-. constructor; auto.
Qed.

Lemma py_range_lookup n p i : py_range n !! p = Some i -> i = Z.of_nat p.
Proof.
  unfold py_range. rewrite list_lookup_fmap. intros H.
  apply fmap_Some in H as (k & Hk & ->).
  apply lookup_seq in Hk as [-> _]. done.
Qed.

Lemma length_py_range n : length (py_range n) = Z.to_nat n.
Proof. unfold py_range. by rewrite length_map, length_seq. Qed.

Lemma make_ambulance_fresh i a :
  make_ambulance i = Returns a -> Amb.id a = i /\ Amb.availability a = 1%Z.
Proof.
  unfold make_ambulance. intros H.
  apply bind_Returns_inv in H as (hs & _ & H).
  apply bind_Returns_inv in H as (lat & _ & H).
  apply bind_Returns_inv in H as (lon & _ & H).
  by injection H as <-.
Qed.

Lemma make_station_id i s : make_station i = Returns s -> Site.id s = (i + 1)%Z.
Proof.
  unfold make_station. intros H.
  apply bind_Returns_inv in H as (lat & _ & H).
  apply bind_Returns_inv in H as (lon & _ & H).
  by injection H as <-.
Qed.

Lemma generator_inv ambulance_n stations_n hospitals_n fleet stations hospitals :
  fixed_location_generator ambulance_n stations_n hospitals_n
    = Returns (fleet, stations, hospitals) ->
  for_each make_station (py_range stations_n) = Returns stations /\
  for_each make_ambulance (py_range ambulance_n) = Returns fleet /\
  for_each make_hospital (py_range hospitals_n) = Returns hospitals.
Proof.
  unfold fixed_location_generator. intros H.
  apply bind_Returns_inv in H as (ss & Hss & H).
  destruct (_ >=? _)%Z; [|discriminate].
  apply bind_Returns_inv in H as (fs & Hfs & H).
  apply bind_Returns_inv in H as (hs & Hhs & H).
  by injection H as <- <- <-.
Qed.

Lemma generator_fleet ambulance_n stations_n hospitals_n fleet stations hospitals :
  fixed_location_generator ambulance_n stations_n hospitals_n
    = Returns (fleet, stations, hospitals) ->
  length fleet = Z.to_nat ambulance_n /\
  forall p a, fleet !! p = Some a ->
              Amb.id a = Z.of_nat p /\ Amb.availability a = 1%Z.
Proof.
  intros H. apply generator_inv in H as (_ & H & _).
  apply for_each_Forall2 in H. split.
  - rewrite <- (Forall2_length _ _ _ H). apply length_py_range.
  - intros p a Hp.
    destruct (Forall2_lookup_r _ _ _ _ _ H Hp) as (i & Hi & Ha).
    apply py_range_lookup in Hi as ->. by apply make_ambulance_fresh.
Qed.

Lemma generator_stations ambulance_n stations_n hospitals_n fleet stations hospitals :
  fixed_location_generator ambulance_n stations_n hospitals_n
    = Returns (fleet, stations, hospitals) ->
  length stations = Z.to_nat stations_n.
Proof.
  intros H. apply generator_inv in H as (H & _ & _).
  apply for_each_Forall2 in H.
  rewrite <- (Forall2_length _ _ _ H). apply length_py_range.
Qed.

Lemma pending_initial_events calls : pending (initial_events calls) = [].
Proof.
  unfold initial_events.
  assert (H : forall evs, pending evs = [] ->
            pending (foldl (fun evs c => insort (call_event c) evs) evs calls) = []).
  { induction calls as [|c cs IH]; intros evs Hevs; simpl; [done|].
    apply IH. apply Permutation_nil_r. rewrite pending_insort. simpl.
    by rewrite Hevs. }
  by apply H.
Qed.

Lemma all_available fleet :
  (forall p a, fleet !! p = Some a -> Amb.availability a = 1%Z) ->
  length (available fleet) = length fleet.
Proof.
  intros H. rewrite length_available. f_equal.
  induction fleet as [|x xs IH]; [done|].
  rewrite filter_cons. rewrite decide_True by (apply (H 0 x); done).
  f_equal. apply IH. intros p a Hp. by apply (H (S p)).
Qed.

End Generator.

Lemma scenario_generator :
  fixed_location_generator 1 0 5 = Returns ([scenario_unit], [], five_hospitals).
Proof. reflexivity. Qed.

Lemma scenario_reachable table th :
  reachable scale_as_sample one_call_stream table th 1 0 [] five_hospitals
    scenario_after.
Proof.
  eapply reachable_turn; [|apply scenario_dispatch].
  exact (reachable_initial unit scale_as_sample one_call_stream table th 1 0 []
           five_hospitals [scenario_unit] tt scenario_generator).
Qed.

Lemma scenario_release table hospitals :
  loop_body scale_as_sample [] hospitals table 0 scenario_after
  = Returns scenario_released.
Proof. reflexivity. Qed.

Section Lockstep.
Context {RandomState : Type}.
Variable np_random_exponential : R -> RandomState -> R * RandomState.
Variable generate_calls : RandomState -> list Call * RandomState.
Variables (stations hospitals : list Site.t).
Variable reposition_table : list (list Z).
Variable th : Z.

Local Abbreviation step :=
  (loop_body np_random_exponential stations hospitals reposition_table th).

Lemma reposition_keeps_identity counter amb amb' :
  reposition reposition_table stations counter amb = Returns amb' ->
  Amb.id amb' = Amb.id amb /\ Amb.availability amb' = Amb.availability amb.
Proof.
  unfold reposition. intros H.
  apply bind_Returns_inv in H as (target & _ & H).
  apply bind_Returns_inv in H as (s & _ & H).
  by injection H as <-.
Qed.

Lemma release_inv (st st' : SimState RandomState) amb_id rest :
  release stations reposition_table th amb_id rest st = Returns st' ->
  exists p a amb',
    py_index (ambulances st) amb_id = Returns p /\
    ambulances st !! p = Some a /\
    Amb.id amb' = Amb.id a /\ Amb.availability amb' = 1%Z /\
    (~ (current_state st + 1 < th)%Z ->
       amb' = Amb.Build (Amb.id a) 1 (Amb.latitude a) (Amb.longitude a)) /\
    st' = {| events := rest;
             ambulances := <[p := amb']> (ambulances st);
             current_state := current_state st + 1;
             travel_times := travel_times st;
             lost := lost st;
             rng := rng st |}.
Proof.
  unfold release. intros H.
  apply bind_Returns_inv in H as (p & Hp & H).
  apply bind_Returns_inv in H as (a & Ha & H).
  apply py_getitem_inv in Ha as (p' & Hp' & Ha).
  assert (p' = p) as -> by congruence.
  apply bind_Returns_inv in H as (amb' & Hamb & H).
  injection H as <-.
  exists p, a, amb'. split; [done|]. split; [done|].
  destruct (Z.ltb_spec (current_state st + 1) th) as [Hlt|Hge].
  - apply reposition_keeps_identity in Hamb as [-> ->]. simpl.
    repeat split; try done; intros; lia.
  - injection Hamb as <-. simpl. repeat split; done.
Qed.

Lemma consistent_available_nonempty (st : SimState RandomState) :
  consistent st -> current_state st <> 0%Z ->
  available (ambulances st) <> [] /\
  pool (ambulances st) = available (ambulances st).
Proof.
  intros (Hlock & _) Hc. unfold lockstep in Hlock.
  destruct (pool_cases (ambulances st)) as [[? ?]|[Hnil _]]; [done|].
  rewrite Hnil in Hlock. simpl in Hlock. lia.
Qed.

Lemma consistent_step (st st' : SimState RandomState) :
  consistent st -> step st = Returns st' -> consistent st'.
Proof.
  intros Hcons Hstep.
  pose proof Hcons as (Hlock & Hids & Hnodup & Hbusy).
  unfold loop_body in Hstep.
  destruct (events st) as [|[t treat lat lon hos|t amb_id] rest] eqn:Hev.
  - by injection Hstep as <-.
  - destruct (Z.eqb_spec (current_state st) 0) as [Hc|Hc].
    + injection Hstep as <-. unfold consistent, lockstep, lose_call. simpl.
      done.
    + destruct (consistent_available_nonempty st Hcons Hc) as [_ Hpool].
      apply dispatch_inv in Hstep as (k & p & a & d1 & _ & Hpa & _ & Hst').
      rewrite Hpool in Hpa. apply list_elem_of_lookup_2, available_elem in Hpa.
      destruct Hpa as [Hp Hav].
      set (busy := Amb.Build (Amb.id a) 0 lat lon) in *.
      assert (Hshape : exists finish g,
        st' = {| events := insort (FreeEvent finish (Amb.id a)) rest;
                 ambulances := <[p := busy]> (ambulances st);
                 current_state := current_state st - 1;
                 travel_times := travel_times st';
                 lost := lost st;
                 rng := g |}).
      { destruct Hst' as [(_ & hd & _ & ->)|(_ & ->)]; simpl; eauto. }
      destruct Hshape as (finish & g & ->). clear Hst'.
      assert (Hida : Amb.id a = Z.of_nat p) by (by apply Hids).
      assert (Hfresh : Amb.id a ∉ pending rest).
      { intros Hin. destruct (Hbusy (Amb.id a) Hin) as (q & b & Hq & Hb & Hb0).
        assert (q = p) as -> by lia. congruence. }
      unfold consistent, lockstep. simpl. split; [|split; [|split]].
      * pose proof (length_available_insert _ p a busy Hp) as Hlen.
        rewrite decide_True in Hlen by done.
        rewrite decide_False in Hlen by (unfold flagged_available; simpl; lia).
        unfold lockstep in Hlock. lia.
      * intros q b Hq. destruct (decide (q = p)) as [->|Hne].
        -- rewrite list_lookup_insert_eq in Hq by (by eapply lookup_lt_Some).
           by injection Hq as <-.
        -- rewrite list_lookup_insert_ne in Hq by done. by apply Hids.
      * rewrite pending_insort. simpl. by constructor.
      * intros i Hi. rewrite pending_insort in Hi. simpl in Hi.
        apply elem_of_cons in Hi as [->|Hi].
        -- exists p, busy. split; [done|]. split; [|done].
           apply list_lookup_insert_eq. by eapply lookup_lt_Some.
        -- destruct (Hbusy i Hi) as (q & b & -> & Hb & Hb0).
           exists q, b. split; [done|]. split; [|done].
           rewrite list_lookup_insert_ne; [done|]. intros <-. congruence.
  - simpl in Hnodup, Hbusy. apply NoDup_cons in Hnodup as [Hnotin Hnodup].
    destruct (Hbusy amb_id ltac:(left)) as (p & a & -> & Hp & Hav).
    apply release_inv in Hstep as (p' & a' & amb' & Hp' & Ha' & Hid & Hav' & _ & ->).
    apply py_index_nonneg in Hp'; [|lia]. apply Nat2Z.inj in Hp' as <-.
    assert (a' = a) as -> by congruence.
    unfold consistent, lockstep. simpl. split; [|split; [|split]].
    * pose proof (length_available_insert _ p a amb' Hp) as Hlen.
      rewrite decide_False in Hlen by (unfold flagged_available; lia).
      rewrite decide_True in Hlen by done.
      unfold lockstep in Hlock. lia.
    * intros q b Hq. destruct (decide (q = p)) as [->|Hne].
      -- rewrite list_lookup_insert_eq in Hq by (by eapply lookup_lt_Some).
         injection Hq as <-. rewrite Hid. by apply Hids.
      -- rewrite list_lookup_insert_ne in Hq by done. by apply Hids.
    * done.
    * intros i Hi. destruct (Hbusy i ltac:(by right)) as (q & b & -> & Hb & Hb0).
      exists q, b. split; [done|]. split; [|done].
      rewrite list_lookup_insert_ne; [done|]. intros <-. done.
Qed.

Lemma consistent_initial AMBULANCE_NUMBER STATIONS_NUMBER fleet g :
  (0 <= AMBULANCE_NUMBER)%Z ->
  fixed_location_generator AMBULANCE_NUMBER STATIONS_NUMBER 5
    = Returns (fleet, stations, hospitals) ->
  consistent (initial_state fleet AMBULANCE_NUMBER (generate_calls g).1 (generate_calls g).2).
Proof.
  intros Hn Hgen. apply generator_fleet in Hgen as [Hlen Hfleet].
  unfold consistent, lockstep, initial_state. simpl.
  rewrite pending_initial_events. split; [|split; [|split]].
  - rewrite all_available by (intros p a Hp; by apply (Hfleet p a)). lia.
  - intros p a Hp. by apply (Hfleet p a).
  - constructor.
  - intros i Hi. by apply elem_of_nil in Hi.
Qed.

Lemma reachable_consistent AMBULANCE_NUMBER STATIONS_NUMBER (st : SimState RandomState) :
  (0 <= AMBULANCE_NUMBER)%Z ->
  reachable np_random_exponential generate_calls reposition_table th
    AMBULANCE_NUMBER STATIONS_NUMBER stations hospitals st ->
  consistent st.
Proof.
  intros Hn. induction 1 as [fleet g Hgen|st st' _ IH Hstep].
  - by eapply consistent_initial.
  - by eapply consistent_step.
Qed.

Lemma counter_sound_step (st st' : SimState RandomState) :
  counter_sound st -> step st = Returns st' -> counter_sound st'.
Proof.
  intros Hsound Hstep. unfold loop_body in Hstep.
  destruct (events st) as [|[t treat lat lon hos|t amb_id] rest] eqn:Hev.
  - by injection Hstep as <-.
  - destruct (Z.eqb_spec (current_state st) 0) as [Hc|Hc].
    + injection Hstep as <-. left. simpl. lia.
    + apply dispatch_inv in Hstep as (k & p & a & d1 & _ & Hpa & _ & Hst').
      apply pool_lookup in Hpa.
      destruct Hsound as [Hpos|[Hnil _]]; [|by rewrite Hnil in Hpa].
      left. destruct Hst' as [(_ & hd & _ & ->)|(_ & ->)]; simpl; lia.
  - unfold counter_sound in Hsound. rewrite Hev in Hsound. simpl in Hsound.
    destruct Hsound as [Hpos|[_ ?]]; [|done].
    apply release_inv in Hstep as (p & a & amb' & _ & _ & _ & _ & _ & ->).
    left. simpl. lia.
Qed.

Lemma counter_sound_initial AMBULANCE_NUMBER STATIONS_NUMBER fleet g :
  fixed_location_generator AMBULANCE_NUMBER STATIONS_NUMBER 5
    = Returns (fleet, stations, hospitals) ->
  counter_sound
    (initial_state fleet AMBULANCE_NUMBER (generate_calls g).1 (generate_calls g).2).
Proof.
  intros Hgen. apply generator_fleet in Hgen as [Hlen _].
  unfold counter_sound, initial_state. simpl.
  destruct (Z.le_gt_cases 0 AMBULANCE_NUMBER) as [?|Hneg]; [by left|right].
  split; [|apply pending_initial_events].
  apply nil_length_inv. lia.
Qed.

Lemma reachable_counter_sound AMBULANCE_NUMBER STATIONS_NUMBER (st : SimState RandomState) :
  reachable np_random_exponential generate_calls reposition_table th
    AMBULANCE_NUMBER STATIONS_NUMBER stations hospitals st ->
  counter_sound st.
Proof.
  induction 1 as [fleet g Hgen|st st' _ IH Hstep].
  - by eapply counter_sound_initial.
  - by eapply counter_sound_step.
Qed.

(** C10.  In every reachable state of the event loop of a replication (with
    a non-negative ambulance count) the availability counter is the number of
    units whose flag is 1.  Hence whenever the counter is not 0 some unit is
    flagged available and the dispatcher's pool is the list of those units:
    the fall-back to the whole fleet is never taken. *)
Theorem counter_matches_available_flags AMBULANCE_NUMBER STATIONS_NUMBER
    (st : SimState RandomState) :
  (0 <= AMBULANCE_NUMBER)%Z ->
  reachable np_random_exponential generate_calls reposition_table th
    AMBULANCE_NUMBER STATIONS_NUMBER stations hospitals st ->
  current_state st
    = Z.of_nat (length (filter flagged_available (ambulances st))) /\
  (current_state st <> 0%Z ->
     available (ambulances st) <> [] /\
     pool (ambulances st) = available (ambulances st)).
Proof.
  intros Hn Hreach.
  pose proof (reachable_consistent _ _ _ Hn Hreach) as Hcons.
  split.
  - rewrite <- length_available. apply Hcons.
  - by apply consistent_available_nonempty.
Qed.

End Lockstep.

(** ** EventQueue: the queue stays sorted *)

Section Queue.
Context {RandomState : Type}.
Variable np_random_exponential : R -> RandomState -> R * RandomState.
Variable generate_calls : RandomState -> list Call * RandomState.

Lemma insort_sorted e evs :
  StronglySorted not_later evs -> StronglySorted not_later (insort e evs).
Proof.
  induction 1 as [|x xs Hs IH Hall]; simpl; [repeat constructor|].
  destruct (Rlt_dec (time e) (time x)) as [Hlt|Hge].
  - constructor; [by constructor|]. constructor; [unfold not_later; lra|].
    eapply Forall_impl; [exact Hall|]. unfold not_later. intros y Hy. lra.
  - constructor; [done|]. rewrite insort_perm.
    constructor; [unfold not_later; lra|done].
Qed.

Lemma initial_events_sorted calls : StronglySorted not_later (initial_events calls).
Proof.
  unfold initial_events.
  assert (H : forall evs, StronglySorted not_later evs ->
            StronglySorted not_later
              (foldl (fun evs c => insort (call_event c) evs) evs calls)).
  { induction calls as [|c cs IH]; intros evs Hevs; simpl; [done|].
    by apply IH, insort_sorted. }
  apply H. constructor.
Qed.

(** The queue of a replication is sorted by time at every turn, so the
    linear scan of [insort] ends where the bisection of [bisect.insort]
    does, and events are popped in non-decreasing time order. *)
Lemma reachable_queue_sorted table th AMBULANCE_NUMBER STATIONS_NUMBER
    stations hospitals (st : SimState RandomState) :
  reachable np_random_exponential generate_calls table th
    AMBULANCE_NUMBER STATIONS_NUMBER stations hospitals st ->
  StronglySorted not_later (events st).
Proof.
  induction 1 as [fleet g Hgen|st st' _ IH Hstep].
  - apply initial_events_sorted.
  - unfold loop_body in Hstep.
    destruct (events st) as [|[t treat lat lon hos|t amb_id] rest] eqn:Hev.
    + injection Hstep as <-. by rewrite Hev.
    + apply StronglySorted_inv in IH as [Hrest _].
      destruct (current_state st =? 0)%Z.
      * by injection Hstep as <-.
      * apply dispatch_inv in Hstep as (k & p & a & d1 & _ & _ & _ & Hst').
        destruct Hst' as [(_ & hd & _ & ->)|(_ & ->)]; simpl;
          by apply insort_sorted.
    + apply StronglySorted_inv in IH as [Hrest _].
      by apply release_inv in Hstep as (p & a & amb' & _ & _ & _ & _ & _ & ->).
Qed.

End Queue.

(** ** The reposition policy *)

Section Reposition.
Context {RandomState : Type}.
Variable np_random_exponential : R -> RandomState -> R * RandomState.
Variable generate_calls : RandomState -> list Call * RandomState.
Variables (stations hospitals : list Site.t).
Variable reposition_table : list (list Z).

(** C9.  With threshold 0, in every reachable state of a replication whose
    earliest event is a free event, the turn that resolves it (it returns,
    for a non-negative ambulance count) does not take the reposition branch (the counter after the increment is not below
    0): the freed unit is flagged available where it stands, and the
    coordinates of every unit are what they were. *)
Theorem zero_threshold_never_repositions AMBULANCE_NUMBER STATIONS_NUMBER
    (st : SimState RandomState) t amb_id rest :
  reachable np_random_exponential generate_calls reposition_table 0
    AMBULANCE_NUMBER STATIONS_NUMBER stations hospitals st ->
  events st = FreeEvent t amb_id :: rest ->
  ((0 <= AMBULANCE_NUMBER)%Z ->
   exists st', loop_body np_random_exponential stations hospitals
                 reposition_table 0 st = Returns st') /\
  forall st',
  loop_body np_random_exponential stations hospitals reposition_table 0 st
    = Returns st' ->
  current_state st' = (current_state st + 1)%Z /\
  ~ (current_state st' < 0)%Z /\
  (exists p a,
     py_index (ambulances st) amb_id = Returns p /\
     ambulances st !! p = Some a /\
     ambulances st'
       = <[p := Amb.Build (Amb.id a) 1 (Amb.latitude a) (Amb.longitude a)]>
           (ambulances st)) /\
  (forall q b', ambulances st' !! q = Some b' ->
     exists b, ambulances st !! q = Some b /\
               Amb.latitude b' = Amb.latitude b /\
               Amb.longitude b' = Amb.longitude b).
Proof.
  intros Hreach Hev. split.
  { intros Hn. rewrite (step_free _ _ _ _ _ _ _ _ _ Hev).
    pose proof (reachable_consistent _ _ _ _ _ _ _ _ _ Hn Hreach)
      as (Hlock & _ & _ & Hbusy).
    rewrite Hev in Hbusy.
    destruct (Hbusy amb_id ltac:(simpl; left)) as (p & a & -> & Hp & _).
    unfold release.
    rewrite py_index_nat by (by eapply lookup_lt_Some). simpl.
    rewrite (py_getitem_nat _ _ _ Hp). simpl.
    unfold lockstep in Hlock.
    destruct (Z.ltb_spec (current_state st + 1) 0); [lia|]. simpl. eauto. }
  intros st' Hstep.
  apply reachable_counter_sound in Hreach.
  unfold counter_sound in Hreach. rewrite Hev in Hreach. simpl in Hreach.
  destruct Hreach as [Hpos|[_ ?]]; [|done].
  rewrite (step_free _ _ _ _ _ _ _ _ _ Hev) in Hstep.
  apply release_inv in Hstep as (p & a & amb' & Hp & Ha & _ & _ & Hstay & ->).
  specialize (Hstay ltac:(lia)). subst amb'. simpl.
  split; [done|]. split; [lia|]. split; [by exists p, a|].
  intros q b' Hq. destruct (decide (q = p)) as [->|Hne].
  - rewrite list_lookup_insert_eq in Hq by (by eapply lookup_lt_Some).
    injection Hq as <-. by exists a.
  - rewrite list_lookup_insert_ne in Hq by done. by exists b'.
Qed.

End Reposition.

Lemma zero_threshold_never_repositions_witness :
  (exists st', loop_body scale_as_sample [] five_hospitals [] 0 scenario_after
               = Returns st') /\
  current_state scenario_released = (current_state scenario_after + 1)%Z /\
  ~ (current_state scenario_released < 0)%Z /\
  (exists p a,
     py_index (ambulances scenario_after) 0 = Returns p /\
     ambulances scenario_after !! p = Some a /\
     ambulances scenario_released
       = <[p := Amb.Build (Amb.id a) 1 (Amb.latitude a) (Amb.longitude a)]>
           (ambulances scenario_after)) /\
  (forall q b', ambulances scenario_released !! q = Some b' ->
     exists b, ambulances scenario_after !! q = Some b /\
               Amb.latitude b' = Amb.latitude b /\
               Amb.longitude b' = Amb.longitude b).
Proof.
  destruct (zero_threshold_never_repositions scale_as_sample one_call_stream
              [] five_hospitals [] 1 0 scenario_after
              (20000 + get_travel_time_minutes scenario_scene_km + 5) 0 [])
    as (Hreturns & Hstay).
  - apply scenario_reachable.
  - reflexivity.
  - split.
    + apply Hreturns. lia.
    + apply Hstay, scenario_release.
Defined.

(** ** Candidate stations of the reposition policy *)

Lemma event_loop_turn {RandomState : Type} np stations hospitals table th fuel
    (st st' : SimState RandomState) :
  events st <> [] ->
  loop_body np stations hospitals table th st = Returns st' ->
  event_loop np stations hospitals table th (S fuel) st
  = event_loop np stations hospitals table th fuel st'.
Proof.
  intros Hev Hstep. simpl. destruct (events st); [done|]. by rewrite Hstep.
Qed.

Lemma two_station_generator :
  fixed_location_generator 1 2 5
  = Returns ([scenario_unit], two_stations, five_hospitals).
Proof. reflexivity. Qed.

Section Candidates.
Variable reposition_table : list (list Z).
Variable stations : list Site.t.

Lemma py_getitem_in_range {A : Type} (l : list A) (i : Z) :
  (0 <= i < Z.of_nat (length l))%Z -> exists x, py_getitem l i = Returns x.
Proof.
  intros Hi. destruct (lookup_lt_is_Some_2 l (Z.to_nat i)) as [x Hx]; [lia|].
  exists x. rewrite <- (Z2Nat.id i) by lia. by apply py_getitem_nat.
Qed.

Lemma reposition_candidates_valid counter cs :
  3 <= length stations ->
  reposition_candidates reposition_table stations counter = Returns cs ->
  cs <> [] /\ Forall (valid_station stations) cs.
Proof.
  intros Hlen H. unfold reposition_candidates in H.
  apply bind_Returns_inv in H as (entry & _ & H). injection H as <-.
  match goal with |- context [filter ?P ?l] => set (kept := filter P l) end.
  assert (Hkept : Forall (valid_station stations) kept).
  { apply Forall_forall. intros c Hc. subst kept.
    by apply list_elem_of_filter in Hc as [? _]. }
  destruct kept as [|c kept']; [|done].
  split; [done|]. unfold valid_station. repeat constructor; lia.
Qed.

Lemma station_distance_returns amb c :
  valid_station stations c ->
  exists d, station_distance stations amb c = Returns d.
Proof.
  intros Hc. unfold station_distance.
  destruct (py_getitem_in_range stations (c - 1)) as [s ->];
    [unfold valid_station in Hc; lia|].
  simpl. eauto.
Qed.

Lemma station_distances_return amb cs :
  Forall (valid_station stations) cs ->
  exists ds, for_each (station_distance stations amb) cs = Returns ds /\
             length ds = length cs.
Proof.
  induction 1 as [|c cs Hc _ (ds & Hds & Hlen)]; cbn [for_each]; [by exists []|].
  destruct (station_distance_returns amb c Hc) as [d ->].
  rewrite Hds. simpl. eexists. split; [done|]. simpl. by rewrite Hlen.
Qed.

Lemma reposition_target_valid counter amb target :
  3 <= length stations ->
  reposition_target reposition_table stations counter amb = Returns target ->
  valid_station stations target /\
  exists s, py_getitem stations (target - 1) = Returns s.
Proof.
  intros Hlen H. unfold reposition_target in H.
  apply bind_Returns_inv in H as (cs & Hcs & H).
  apply bind_Returns_inv in H as (ds & _ & H).
  apply bind_Returns_inv in H as (k & _ & H).
  apply py_getitem_nat_inv in H.
  apply (reposition_candidates_valid _ _ Hlen) in Hcs as [_ Hall].
  rewrite Forall_forall in Hall.
  assert (Hv : valid_station stations target)
    by (by eapply Hall, list_elem_of_lookup_2).
  split; [done|]. apply py_getitem_in_range. unfold valid_station in Hv. lia.
Qed.

Lemma reposition_returns counter amb :
  3 <= length stations -> reposition_table <> [] -> (0 <= counter)%Z ->
  exists amb', reposition reposition_table stations counter amb = Returns amb'.
Proof.
  intros Hlen Htable Hc.
  assert (exists cs, reposition_candidates reposition_table stations counter
                     = Returns cs) as [cs Hcs].
  { unfold reposition_candidates.
    destruct (py_getitem_in_range reposition_table
                (Z.min (Z.of_nat (length reposition_table) - 1) counter))
      as [entry ->]; [|simpl; eauto].
    destruct reposition_table; [done|]. simpl length. lia. }
  destruct (reposition_candidates_valid _ _ Hlen Hcs) as [Hne Hall].
  destruct (station_distances_return amb cs Hall) as (ds & Hds & Hdlen).
  assert (exists target, reposition_target reposition_table stations counter amb
                         = Returns target) as [target Ht].
  { unfold reposition_target. rewrite Hcs. simpl. rewrite Hds. simpl.
    destruct (np_argmin_nonempty ds) as [k Hk]; [by destruct ds, cs|].
    rewrite Hk. simpl.
    destruct (np_argmin_first_min _ _ Hk) as (m & _ & Hkm & _).
    apply lookup_lt_Some in Hkm. apply py_getitem_in_range. lia. }
  destruct (reposition_target_valid _ _ _ Hlen Ht) as [_ [s Hs]].
  unfold reposition. rewrite Ht. simpl. rewrite Hs. simpl. eauto.
Qed.

End Candidates.

Section FallbackOutOfRange.
Context {RandomState : Type}.
Variable np_random_exponential : R -> RandomState -> R * RandomState.
Variable generate_calls : RandomState -> list Call * RandomState.

Lemma queue_weight_insort e evs :
  queue_weight (insort e evs) = event_weight e + queue_weight evs.
Proof.
  induction evs as [|x xs IH]; simpl; [done|].
  destruct (Rlt_dec _ _); simpl; [done|]. rewrite IH. lia.
Qed.

Lemma length_initial_events calls : length (initial_events calls) = length calls.
Proof.
  unfold initial_events.
  assert (H : forall evs,
            length (foldl (fun evs c => insort (call_event c) evs) evs calls)
            = length evs + length calls).
  { induction calls as [|c cs IH]; intros evs; simpl; [lia|].
    rewrite IH, (Permutation_length (insort_perm _ _)). simpl. lia. }
  apply H.
Qed.

Lemma release_out_of_range (st : SimState RandomState) rest :
  (exists lat lon, ambulances st = [Amb.Build 0 0 lat lon]) ->
  current_state st = 0%Z ->
  release two_stations (build_table [5%Z]) 2 0 rest st = Raises IndexError.
Proof.
  intros (lat & lon & Hfleet) Hc. unfold release. rewrite Hfleet, Hc.
  reflexivity.
Qed.

Lemma awaiting_release_raises hospitals fuel : forall st : SimState RandomState,
  awaiting_release st ->
  queue_weight (events st) <= fuel ->
  event_loop np_random_exponential two_stations hospitals (build_table [5%Z]) 2
    fuel st = Raises IndexError.
Proof.
  induction fuel as [|fuel IH]; intros st (Hc & Hfleet & Hpend) Hfuel.
  - destruct (events st) as [|[]]; simpl in *; [done|lia..].
  - simpl. unfold loop_body.
    destruct (events st) as [|[t treat lat lon hos|t amb_id] rest] eqn:Hev;
      [done|..].
    + rewrite Hc. simpl. apply IH.
      * unfold awaiting_release, lose_call. simpl. done.
      * unfold lose_call. simpl in *. lia.
    + simpl in Hpend. injection Hpend as -> _.
      by rewrite release_out_of_range.
Qed.

Lemma every_stream_reaches_fallback g :
  (generate_calls g).1 <> [] ->
  replication np_random_exponential generate_calls (build_table [5%Z]) 2 1 2 g
  = Raises IndexError.
Proof.
  intros Hcalls. unfold replication. rewrite two_station_generator.
  cbn [mbind outcome_bind].
  set (st0 := initial_state _ _ _ _).
  assert (Hpend0 : pending (events st0) = []) by apply pending_initial_events.
  assert (Hne : events st0 <> []).
  { intros Hnil. apply (f_equal length) in Hnil. simpl in Hnil.
    rewrite length_initial_events in Hnil. by destruct ((generate_calls g).1). }
  destruct (events st0) as [|[t treat lat lon hos|t amb_id] rest] eqn:Hev;
    [done| |done].
  destruct (dispatch_returns np_random_exponential five_hospitals
              t treat lat lon hos rest st0)
    as [st1 Hst1]; [done..|].
  assert (Hstep : loop_body np_random_exponential two_stations five_hospitals
                    (build_table [5%Z]) 2 st0 = Returns st1).
  { unfold loop_body. by rewrite Hev. }
  change (queue_weight (CallEvent t treat lat lon hos :: rest))
    with (S (S (queue_weight rest))).
  rewrite (event_loop_turn _ _ _ _ _ _ _ st1); [|by rewrite Hev|done].
  apply dispatch_inv in Hst1 as (k & p & a & d1 & _ & Hpa & _ & Hst1).
  assert (p = 0 /\ a = scenario_unit) as [-> ->].
  { change (pool (ambulances st0)) with [(0, scenario_unit)] in Hpa.
    apply list_lookup_singleton_Some in Hpa as [_ [= <- <-]]. done. }
  assert (Hshape : exists finish,
    events st1 = insort (FreeEvent finish 0) rest /\
    current_state st1 = 0%Z /\
    ambulances st1 = [Amb.Build 0 0 lat lon]).
  { destruct Hst1 as [(_ & hd & _ & ->)|(_ & ->)]; simpl; eauto. }
  destruct Hshape as (finish & Hev1 & Hc1 & Hfleet1).
  enough (Hloop : event_loop np_random_exponential two_stations five_hospitals
                    (build_table [5%Z]) 2 (S (queue_weight rest)) st1
                  = Raises IndexError) by (by rewrite Hloop).
  apply awaiting_release_raises.
  - split; [done|]. split; [eauto|].
    apply Permutation_singleton_r. rewrite Hev1, pending_insort. simpl.
    simpl in Hpend0. by rewrite Hpend0.
  - rewrite Hev1, queue_weight_insort. simpl. lia.
Qed.

(** C3 (the code departs from it).  With two stations, the policy [[5]],
    threshold 2 and one ambulance, every replication whose call stream holds
    at least one call ends in [IndexError]: the first call sends the unit,
    its free event leaves the counter at 1 < 2, the table entry [[5]] is
    emptied by the filter, and the fall-back [[1, 2, 3]] is looked up in a
    station table of two entries. *)
Theorem fallback_station_out_of_range iterations g :
  (0 < iterations)%Z ->
  (generate_calls g).1 <> [] ->
  fitness_function np_random_exponential generate_calls [5%Z] 2 1 2 iterations g
  = Raises IndexError.
Proof.
  intros Hit Hcalls. unfold fitness_function.
  destruct (Z.to_nat iterations) as [|n] eqn:Hn; [lia|].
  cbn [replications]. by rewrite every_stream_reaches_fallback.
Qed.

End FallbackOutOfRange.

Lemma fallback_station_out_of_range_witness :
  fitness_function scale_as_sample one_call_stream [5%Z] 2 1 2 1 tt
  = Raises IndexError.
Proof.
  apply (fallback_station_out_of_range scale_as_sample one_call_stream 1 tt).
  - lia.
  - simpl. discriminate.
Defined.

(** ** MetricsAggregator *)

Section Reduction.
Local Open Scope R_scope.

Lemma Rsum_covered (l : list R) :
  Rsum (map covered l) = INR (length (filter (fun t => t <= 9) l)).
Proof.
  induction l as [|x xs IH]; [done|].
  rewrite filter_cons. cbn [map Rsum foldr]. fold (Rsum (map covered xs)).
  rewrite IH. unfold covered, decide, decide_rel, Rle_decision.
  destruct (Rle_dec x 9); [|lra].
  rewrite length_cons, S_INR. lra.
Qed.

Lemma coverage_fraction (samples : list R) :
  samples <> [] ->
  replication_coverage samples
  = INR (length (filter (fun t => t <= 9) samples)) / INR (length samples).
Proof.
  intros Hne. destruct samples as [|x xs]; [done|].
  unfold replication_coverage, mean. by rewrite Rsum_covered, length_map.
Qed.

Lemma Rsum_constant (c : R) (l : list R) :
  Forall (fun x => x = c) l -> Rsum l = INR (length l) * c.
Proof.
  induction 1 as [|x xs -> _ IH]; cbn [Rsum foldr].
  - simpl. lra.
  - fold (Rsum xs). rewrite IH, length_cons, S_INR. lra.
Qed.

Lemma np_mean_nonempty (l : list R) :
  l <> [] -> np_mean l = Finite (Rsum l / INR (length l)).
Proof. by destruct l. Qed.

Lemma np_mean_constant (c : R) (l : list R) :
  l <> [] -> Forall (fun x => x = c) l -> np_mean l = Finite c.
Proof.
  intros Hne Hall. rewrite np_mean_nonempty by done. f_equal.
  rewrite (Rsum_constant c l Hall).
  assert (0 < INR (length l)) by (apply lt_0_INR; destruct l; [done|simpl; lia]).
  field. lra.
Qed.

Lemma insert_sorted_perm x l : Permutation (insert_sorted x l) (x :: l).
Proof.
  induction l as [|y ys IH]; simpl; [done|].
  destruct (Rle_dec x y); [done|]. rewrite IH. apply perm_swap.
Qed.

Lemma insert_sorted_sorted x l :
  StronglySorted Rle l -> StronglySorted Rle (insert_sorted x l).
Proof.
  induction 1 as [|y ys Hs IH Hall]; simpl; [repeat constructor|].
  destruct (Rle_dec x y) as [Hxy|Hxy].
  - constructor; [by constructor|]. constructor; [done|].
    eapply Forall_impl; [exact Hall|]. intros z Hz. simpl in Hz. lra.
  - constructor; [done|].
    rewrite (insert_sorted_perm x ys). constructor; [lra|done].
Qed.

(** [sort_floats] sorts: the model of [np.median] reads the middle of the
    samples in non-decreasing order. *)
Lemma sort_floats_sorted l :
  StronglySorted Rle (sort_floats l) /\ Permutation (sort_floats l) l.
Proof.
  induction l as [|x xs [IHs IHp]]; simpl; [split; constructor|].
  split; [by apply insert_sorted_sorted|].
  rewrite insert_sorted_perm. by constructor.
Qed.

(** [np_median] reads the middle of the samples put in order: with an odd
    number of samples the middle one, with an even number the mean of the
    two middle ones. *)
Lemma np_median_middle (l : list R) :
  l <> [] ->
  exists s,
    Permutation s l /\ StronglySorted Rle s /\
    (Nat.even (length l) = false ->
       s !! (length l / 2)%nat = Some (np_median l)) /\
    (Nat.even (length l) = true ->
       exists a b, s !! (length l / 2 - 1)%nat = Some a /\
                   s !! (length l / 2)%nat = Some b /\
                   np_median l = (a + b) / 2).
Proof.
  intros Hne. destruct (sort_floats_sorted l) as [Hsorted Hperm].
  exists (sort_floats l). split; [done|]. split; [done|].
  pose proof (Permutation_length Hperm) as Hlen.
  assert (Hpos : (0 < length l)%nat) by (destruct l; [done|simpl; lia]).
  assert (Hmid : (length l / 2 < length (sort_floats l))%nat).
  { rewrite Hlen. apply Nat.div_lt; lia. }
  destruct (lookup_lt_is_Some_2 _ _ Hmid) as [b Hb].
  unfold np_median. rewrite Hlen. split.
  - intros ->. by rewrite nth_lookup, Hb.
  - intros ->.
    assert (Hlow : (length l / 2 - 1 < length (sort_floats l))%nat) by lia.
    destruct (lookup_lt_is_Some_2 _ _ Hlow) as [a Ha].
    exists a, b. split; [done|]. split; [done|].
    by rewrite !nth_lookup, Ha, Hb.
Qed.

End Reduction.

Section Metrics.
Context {RandomState : Type}.
Variable np_random_exponential : R -> RandomState -> R * RandomState.
Variable generate_calls : RandomState -> list Call * RandomState.

Lemma bind_total {A B : Type} (m : outcome A) (f : A -> outcome B) :
  m <> Diverges -> (forall a, f a <> Diverges) -> (x ← m; f x) <> Diverges.
Proof. destruct m; simpl; auto. Qed.

Lemma py_index_total {A : Type} (l : list A) i : py_index l i <> Diverges.
Proof. unfold py_index. by destruct (_ && _). Qed.

Lemma py_getitem_total {A : Type} (l : list A) i : py_getitem l i <> Diverges.
Proof.
  unfold py_getitem. apply bind_total; [apply py_index_total|].
  intros p. by destruct (l !! p).
Qed.

Lemma np_argmin_total l : np_argmin l <> Diverges.
Proof. by destruct l. Qed.

Lemma py_min_total l : py_min l <> Diverges.
Proof. by destruct l. Qed.

Lemma for_each_total {A B : Type} (f : A -> outcome B) l :
  (forall x, f x <> Diverges) -> for_each f l <> Diverges.
Proof.
  intros Hf. induction l as [|x xs IH]; simpl; [done|].
  apply bind_total; [done|]. intros y. by apply bind_total.
Qed.

Lemma reposition_candidates_total table stations counter :
  reposition_candidates table stations counter <> Diverges.
Proof.
  unfold reposition_candidates. apply bind_total; [apply py_getitem_total|done].
Qed.

Lemma station_distance_total stations amb cid :
  station_distance stations amb cid <> Diverges.
Proof.
  unfold station_distance. apply bind_total; [apply py_getitem_total|done].
Qed.

Lemma reposition_total table stations counter amb :
  reposition table stations counter amb <> Diverges.
Proof.
  unfold reposition, reposition_target.
  apply bind_total; [|intros target; apply bind_total;
                                       [apply py_getitem_total|done]].
  apply bind_total; [apply reposition_candidates_total|]. intros cs.
  apply bind_total;
    [apply for_each_total; intros c; apply station_distance_total|].
  intros ds. apply bind_total; [apply np_argmin_total|].
  intros k. apply py_getitem_total.
Qed.

Lemma loop_body_total stations hospitals table th (st : SimState RandomState) :
  loop_body np_random_exponential stations hospitals table th st <> Diverges.
Proof.
  unfold loop_body.
  destruct (events st) as [|[t treat lat lon hos|t amb_id] rest]; [done|..].
  - destruct (current_state st =? 0)%Z; [done|]. unfold dispatch. cbv zeta.
    apply bind_total; [apply np_argmin_total|intros k].
    apply bind_total; [apply py_getitem_total|intros pa].
    apply bind_total; [apply py_min_total|intros d].
    destruct (Req_dec_T hos 1); [|done].
    apply bind_total; [apply py_min_total|done].
  - unfold release. cbv zeta.
    apply bind_total; [apply py_index_total|intros p].
    apply bind_total; [apply py_getitem_total|intros a].
    apply bind_total; [|done].
    destruct (_ <? _)%Z; [apply reposition_total|done].
Qed.

Lemma loop_body_weight stations hospitals table th (st st' : SimState RandomState) :
  events st <> [] ->
  loop_body np_random_exponential stations hospitals table th st = Returns st' ->
  queue_weight (events st') < queue_weight (events st).
Proof.
  intros Hne Hstep. unfold loop_body in Hstep.
  destruct (events st) as [|[t treat lat lon hos|t amb_id] rest] eqn:Hev; [done|..].
  - destruct (current_state st =? 0)%Z.
    + injection Hstep as <-. simpl. lia.
    + apply dispatch_inv in Hstep as (k & p & a & d1 & _ & _ & _ & Hst').
      destruct Hst' as [(_ & hd & _ & ->)|(_ & ->)]; simpl;
        rewrite queue_weight_insort; simpl; lia.
  - apply release_inv in Hstep as (p & a & amb' & _ & _ & _ & _ & _ & ->).
    simpl. lia.
Qed.

(** The loop needs no more turns than the weight of its queue: it never
    runs out of fuel, and when it returns the queue is empty. *)
Lemma event_loop_finishes stations hospitals table th fuel :
  forall st : SimState RandomState,
  queue_weight (events st) <= fuel ->
  event_loop np_random_exponential stations hospitals table th fuel st <> Diverges /\
  forall st', event_loop np_random_exponential stations hospitals table th fuel st
              = Returns st' -> events st' = [].
Proof.
  induction fuel as [|fuel IH]; intros st Hfuel.
  - destruct (events st) as [|e rest] eqn:Hev; simpl; rewrite Hev.
    + split; [done|]. by intros st' [= <-].
    + unfold queue_weight in Hfuel. destruct e; simpl in Hfuel; lia.
  - simpl. destruct (events st) as [|e rest] eqn:Hev.
    + split; [done|]. by intros st' [= <-].
    + pose proof (loop_body_total stations hospitals table th st) as Htot.
      destruct (loop_body _ _ _ _ _ st) as [st1| |] eqn:Hstep; simpl; [|done..].
      apply IH.
      pose proof (loop_body_weight _ _ _ _ st st1 ltac:(by rewrite Hev) Hstep)
        as Hless.
      rewrite Hev in Hless. lia.
Qed.

Lemma fixed_location_generator_total ambulance_n stations_n hospitals_n :
  fixed_location_generator ambulance_n stations_n hospitals_n <> Diverges.
Proof.
  assert (Hs : forall i, make_station i <> Diverges).
  { intros i. unfold make_station.
    apply bind_total; [apply py_getitem_total|intros lat].
    apply bind_total; [apply py_getitem_total|done]. }
  assert (Ha : forall i, make_ambulance i <> Diverges).
  { intros i. unfold make_ambulance.
    apply bind_total; [apply py_getitem_total|intros hs].
    apply bind_total; [apply py_getitem_total|intros lat].
    apply bind_total; [apply py_getitem_total|done]. }
  assert (Hh : forall i, make_hospital i <> Diverges).
  { intros i. unfold make_hospital.
    apply bind_total; [apply py_getitem_total|intros lat].
    apply bind_total; [apply py_getitem_total|done]. }
  unfold fixed_location_generator.
  apply bind_total; [by apply for_each_total|intros stations].
  destruct (_ >=? _)%Z; [|done].
  apply bind_total; [by apply for_each_total|intros fleet].
  apply bind_total; [by apply for_each_total|done].
Qed.

(** The fuel given to the loop is enough: [fitness_function] returns or
    raises, whatever its arguments and the generator. *)
Lemma fitness_function_total primary_list th AMBULANCE_NUMBER STATIONS_NUMBER
    iterations g :
  fitness_function np_random_exponential generate_calls primary_list th
    AMBULANCE_NUMBER STATIONS_NUMBER iterations g <> Diverges.
Proof.
  unfold fitness_function.
  apply bind_total; [|by intros [os g']].
  generalize (Z.to_nat iterations) as n. intros n. revert g.
  induction n as [|n IH]; intros g; simpl; [done|].
  apply bind_total.
  - unfold replication.
    apply bind_total; [apply fixed_location_generator_total|].
    intros [[fleet stations] hospitals].
    apply bind_total; [|done].
    by apply event_loop_finishes.
  - intros [o g1]. apply bind_total; [apply IH|by intros [os g2]].
Qed.

Lemma replication_inv table th AMBULANCE_NUMBER STATIONS_NUMBER g o g1 :
  replication np_random_exponential generate_calls table th
    AMBULANCE_NUMBER STATIONS_NUMBER g = Returns (o, g1) ->
  exists fleet stations hospitals st,
    fixed_location_generator AMBULANCE_NUMBER STATIONS_NUMBER 5
      = Returns (fleet, stations, hospitals) /\
    event_loop np_random_exponential stations hospitals table th
      (queue_weight (initial_events (generate_calls g).1))
      (initial_state fleet AMBULANCE_NUMBER (generate_calls g).1 (generate_calls g).2)
      = Returns st /\
    events st = [] /\
    o = {| med := replication_median (travel_times st);
           cov := replication_coverage (travel_times st);
           lost_count := lost st |} /\
    g1 = rng st.
Proof.
  unfold replication. intros H.
  apply bind_Returns_inv in H as ([[fleet stations] hospitals] & Hgen & H).
  apply bind_Returns_inv in H as (st & Hloop & H).
  injection H as <- <-.
  exists fleet, stations, hospitals, st. repeat split; try done.
  by eapply event_loop_finishes.
Qed.

Lemma replications_inv n table th AMBULANCE_NUMBER STATIONS_NUMBER :
  forall g os g',
  replications np_random_exponential generate_calls n table th
    AMBULANCE_NUMBER STATIONS_NUMBER g = Returns (os, g') ->
  length os = n /\
  forall o, o ∈ os -> exists gk g1,
    replication np_random_exponential generate_calls table th
      AMBULANCE_NUMBER STATIONS_NUMBER gk = Returns (o, g1).
Proof.
  induction n as [|n IH]; intros g os g' H; simpl in H.
  - injection H as <- <-. split; [done|]. intros o Ho. by apply elem_of_nil in Ho.
  - apply bind_Returns_inv in H as ([o g1] & Hrep & H).
    apply bind_Returns_inv in H as ([os' g2] & Hreps & H).
    injection H as <- <-. destruct (IH _ _ _ Hreps) as [Hlen Hall].
    split; [simpl; by rewrite Hlen|].
    intros o' Ho'. apply elem_of_cons in Ho' as [->|Ho']; eauto.
Qed.

Lemma event_loop_empty stations hospitals table th fuel (st : SimState RandomState) :
  events st = [] ->
  event_loop np_random_exponential stations hospitals table th fuel st = Returns st.
Proof. intros Hev. destruct fuel; simpl; by rewrite Hev. Qed.

End Metrics.


(** ** Arguments for which the function returns *)

Section Totality.
Context {RandomState : Type}.
Variable np_random_exponential : R -> RandomState -> R * RandomState.
Variable generate_calls : RandomState -> list Call * RandomState.

Lemma for_each_returns {A B : Type} (f : A -> outcome B) l :
  Forall (fun x => exists y, f x = Returns y) l ->
  exists ys, for_each f l = Returns ys.
Proof.
  induction 1 as [|x xs [y Hy] _ [ys Hys]]; simpl; [eauto|].
  rewrite Hy. simpl. rewrite Hys. simpl. eauto.
Qed.

Lemma py_range_bounds n i : i ∈ py_range n -> (0 <= i < n)%Z.
Proof.
  unfold py_range. intros Hi. apply list_elem_of_fmap in Hi as (k & -> & Hk).
  apply elem_of_seq in Hk. lia.
Qed.

Lemma make_station_returns i :
  (0 <= i < 17)%Z -> exists s, make_station i = Returns s.
Proof.
  intros Hi. unfold make_station.
  destruct (py_getitem_in_range station_lat i) as [lat ->]; [simpl; lia|].
  destruct (py_getitem_in_range station_lon i) as [lon ->]; [simpl; lia|].
  simpl. eauto.
Qed.

Lemma make_hospital_returns i :
  (0 <= i < 5)%Z -> exists s, make_hospital i = Returns s.
Proof.
  intros Hi. unfold make_hospital.
  destruct (py_getitem_in_range hospital_lat i) as [lat ->]; [simpl; lia|].
  destruct (py_getitem_in_range hospital_lon i) as [lon ->]; [simpl; lia|].
  simpl. eauto.
Qed.

Lemma home_station_in_table :
  Forall (fun hs => (0 <= hs < 17)%Z) home_station.
Proof. unfold home_station. repeat constructor; lia. Qed.

Lemma make_ambulance_returns i :
  (0 <= i < 16)%Z -> exists a, make_ambulance i = Returns a.
Proof.
  intros Hi. unfold make_ambulance.
  destruct (py_getitem_in_range home_station i) as [hs Hhs]; [simpl; lia|].
  rewrite Hhs. simpl.
  assert (Hin : (0 <= hs < 17)%Z).
  { apply py_getitem_inv in Hhs as (p & _ & Hp).
    pose proof home_station_in_table as Hall. rewrite Forall_forall in Hall.
    by eapply Hall, list_elem_of_lookup_2. }
  destruct (py_getitem_in_range station_lat hs) as [lat ->]; [simpl; lia|].
  destruct (py_getitem_in_range station_lon hs) as [lon ->]; [simpl; lia|].
  simpl. eauto.
Qed.

(** The fixed tables serve up to 16 ambulances and 17 stations. *)
Lemma generator_returns AMBULANCE_NUMBER STATIONS_NUMBER :
  (AMBULANCE_NUMBER <= 16)%Z -> (STATIONS_NUMBER <= 17)%Z ->
  exists fleet stations hospitals,
    fixed_location_generator AMBULANCE_NUMBER STATIONS_NUMBER 5
    = Returns (fleet, stations, hospitals) /\
    length stations = Z.to_nat STATIONS_NUMBER /\
    length hospitals = 5.
Proof.
  intros Ha Hs. unfold fixed_location_generator.
  destruct (for_each_returns make_station (py_range STATIONS_NUMBER))
    as [stations Hst].
  { apply Forall_forall. intros i Hi. apply py_range_bounds in Hi.
    apply make_station_returns. lia. }
  destruct (for_each_returns make_ambulance (py_range AMBULANCE_NUMBER))
    as [fleet Hfl].
  { apply Forall_forall. intros i Hi. apply py_range_bounds in Hi.
    apply make_ambulance_returns. lia. }
  destruct (for_each_returns make_hospital (py_range 5)) as [hospitals Hho].
  { apply Forall_forall. intros i Hi. apply py_range_bounds in Hi.
    by apply make_hospital_returns. }
  rewrite Hst. cbn [mbind outcome_bind].
  destruct (Z.geb_spec (Z.of_nat (length home_station)) AMBULANCE_NUMBER)
    as [_|Hlt]; [|simpl in Hlt; lia].
  rewrite Hfl. cbn [mbind outcome_bind]. rewrite Hho. cbn [mbind outcome_bind].
  exists fleet, stations, hospitals. split; [done|].
  apply for_each_Forall2 in Hst, Hho.
  rewrite <- (Forall2_length _ _ _ Hst), <- (Forall2_length _ _ _ Hho).
  by rewrite !length_py_range.
Qed.

Section Turns.
Variables (stations hospitals : list Site.t).
Variable reposition_table : list (list Z).
Variable th : Z.
Hypothesis enough_stations : 3 <= length stations.
Hypothesis some_hospital : hospitals <> [].
Hypothesis some_entry : reposition_table <> [].

Lemma consistent_turn_returns (st : SimState RandomState) :
  consistent st ->
  exists st', loop_body np_random_exponential stations hospitals
                reposition_table th st = Returns st'.
Proof.
  intros Hcons. unfold loop_body.
  destruct (events st) as [|[t treat lat lon hos|t amb_id] rest] eqn:Hev;
    [eauto|..].
  - destruct (Z.eqb_spec (current_state st) 0) as [Hc|Hc]; [eauto|].
    apply dispatch_returns; [|done].
    destruct (consistent_available_nonempty st Hcons Hc) as [Hne _].
    intros Hnil. by rewrite Hnil in Hne.
  - pose proof Hcons as (Hlock & _ & _ & Hbusy).
    rewrite Hev in Hbusy.
    destruct (Hbusy amb_id ltac:(simpl; left)) as (p & a & -> & Hp & _).
    unfold release.
    rewrite py_index_nat by (by eapply lookup_lt_Some). simpl.
    rewrite (py_getitem_nat _ _ _ Hp). simpl.
    destruct (current_state st + 1 <? th)%Z; [|simpl; eauto].
    edestruct (reposition_returns reposition_table stations
                 (current_state st + 1)) as [amb' ->]; [done..| |simpl; eauto].
    unfold lockstep in Hlock. lia.
Qed.

Lemma consistent_loop_returns fuel : forall st : SimState RandomState,
  consistent st ->
  queue_weight (events st) <= fuel ->
  exists st', event_loop np_random_exponential stations hospitals
                reposition_table th fuel st = Returns st'.
Proof.
  induction fuel as [|fuel IH]; intros st Hcons Hfuel.
  - destruct (events st) as [|e rest] eqn:Hev; simpl; rewrite Hev; [eauto|].
    unfold queue_weight in Hfuel. destruct e; simpl in Hfuel; lia.
  - simpl. destruct (events st) as [|e rest] eqn:Hev; [eauto|].
    destruct (consistent_turn_returns st Hcons) as [st1 Hstep].
    rewrite Hstep. simpl. apply IH.
    + by eapply consistent_step.
    + pose proof (loop_body_weight _ _ _ _ _ st st1 ltac:(by rewrite Hev) Hstep)
        as Hless.
      rewrite Hev in Hless. lia.
Qed.

(** In a replication with a non-negative ambulance count every turn of the
    loop returns: no reachable state raises. *)
Lemma reachable_turn_returns AMBULANCE_NUMBER STATIONS_NUMBER
    (st : SimState RandomState) :
  (0 <= AMBULANCE_NUMBER)%Z ->
  reachable np_random_exponential generate_calls reposition_table th
    AMBULANCE_NUMBER STATIONS_NUMBER stations hospitals st ->
  exists st', loop_body np_random_exponential stations hospitals
                reposition_table th st = Returns st'.
Proof.
  intros Hn Hreach. apply consistent_turn_returns.
  by eapply reachable_consistent.
Qed.

End Turns.

Lemma build_table_nonempty primary_list : build_table primary_list <> [].
Proof. unfold build_table. rewrite Nat.add_1_r. done. Qed.

(** With 0 to 16 ambulances and 3 to 17 stations the function returns its
    metrics, for every policy, threshold, replication count and generator. *)
Lemma fitness_function_returns primary_list th AMBULANCE_NUMBER STATIONS_NUMBER
    iterations g :
  (0 <= AMBULANCE_NUMBER <= 16)%Z -> (3 <= STATIONS_NUMBER <= 17)%Z ->
  exists m g',
    fitness_function np_random_exponential generate_calls primary_list th
      AMBULANCE_NUMBER STATIONS_NUMBER iterations g = Returns (m, g').
Proof.
  intros Ha Hs. unfold fitness_function.
  enough (Hreps : forall n g, exists os g',
            replications np_random_exponential generate_calls n
              (build_table primary_list) th AMBULANCE_NUMBER STATIONS_NUMBER g
            = Returns (os, g')).
  { destruct (Hreps (Z.to_nat iterations) g) as (os & g' & ->). simpl. eauto. }
  induction n as [|n IH]; intros g0; simpl; [eauto|].
  enough (Hrep : exists o g1,
            replication np_random_exponential generate_calls
              (build_table primary_list) th AMBULANCE_NUMBER STATIONS_NUMBER g0
            = Returns (o, g1)).
  { destruct Hrep as (o & g1 & ->). simpl.
    destruct (IH g1) as (os & g2 & ->). simpl. eauto. }
  unfold replication.
  destruct (generator_returns AMBULANCE_NUMBER STATIONS_NUMBER)
    as (fleet & stations & hospitals & Hgen & Hlen & Hhosp); [lia..|].
  rewrite Hgen. cbn [mbind outcome_bind].
  edestruct (consistent_loop_returns stations hospitals
               (build_table primary_list) th) as [st ->].
  - lia.
  - by destruct hospitals.
  - apply build_table_nonempty.
  - eapply (consistent_initial _ stations hospitals); [|done]. lia.
  - reflexivity.
  - simpl. eauto.
Qed.

End Totality.


(** ** What the returned metrics are *)

Section ReturnedMetrics.
Context {RandomState : Type}.
Variable np_random_exponential : R -> RandomState -> R * RandomState.
Variable generate_calls : RandomState -> list Call * RandomState.

(** C1.  [fitness_function] returns its metrics for 0 to 16 ambulances and
    3 to 17 stations, and whenever it returns, its three fields are the
    [np.mean] of the per-replication medians, coverages and lost-call counts
    of the [iterations] replications run one after the other (for at least
    one iteration, their sum divided by [iterations]).  Each replication
    contributes the lost-call count of its finished event loop and, from the
    travel-time samples of that loop, their median (the middle one of the
    samples put in order, or the mean of the two middle ones when their
    number is even) and the fraction of them that are at most 9, or 999.0
    and 0.0 when there is no sample.  A
    replication with an empty call stream contributes 999.0, 0.0 and 0; when
    every stream is empty the returned fields are 999.0, 0.0 and 0.0. *)
Theorem metrics_average_replications primary_list th AMBULANCE_NUMBER
    STATIONS_NUMBER iterations g :
  ((0 <= AMBULANCE_NUMBER <= 16)%Z -> (3 <= STATIONS_NUMBER <= 17)%Z ->
   exists m g',
     fitness_function np_random_exponential generate_calls primary_list th
       AMBULANCE_NUMBER STATIONS_NUMBER iterations g = Returns (m, g')) /\
  forall m g',
  fitness_function np_random_exponential generate_calls primary_list th
    AMBULANCE_NUMBER STATIONS_NUMBER iterations g = Returns (m, g') ->
  exists os : list Observation,
    replications np_random_exponential generate_calls (Z.to_nat iterations)
      (build_table primary_list) th AMBULANCE_NUMBER STATIONS_NUMBER g
      = Returns (os, g') /\
    length os = Z.to_nat iterations /\
    (forall o, o ∈ os ->
       exists gk fleet stations hospitals st,
         fixed_location_generator AMBULANCE_NUMBER STATIONS_NUMBER 5
           = Returns (fleet, stations, hospitals) /\
         event_loop np_random_exponential stations hospitals
           (build_table primary_list) th
           (queue_weight (initial_events (generate_calls gk).1))
           (initial_state fleet AMBULANCE_NUMBER
              (generate_calls gk).1 (generate_calls gk).2) = Returns st /\
         events st = [] /\
         lost_count o = lost st /\
         (travel_times st = [] -> med o = 999%R /\ cov o = 0%R) /\
         (travel_times st <> [] ->
            (exists s,
               Permutation s (travel_times st) /\ StronglySorted Rle s /\
               (Nat.even (length s) = false -> s !! (length s / 2) = Some (med o)) /\
               (Nat.even (length s) = true ->
                  exists a b, s !! (length s / 2 - 1) = Some a /\
                              s !! (length s / 2) = Some b /\
                              med o = ((a + b) / 2)%R)) /\
            cov o = (INR (length (filter (fun t => (t <= 9)%R) (travel_times st)))
                     / INR (length (travel_times st)))%R) /\
         ((generate_calls gk).1 = [] ->
            med o = 999%R /\ cov o = 0%R /\ lost_count o = 0%Z)) /\
    median_response_time m = np_mean (map med os) /\
    coverage m = np_mean (map cov os) /\
    lost_calls m = np_mean (map (fun o => IZR (lost_count o)) os) /\
    ((0 < iterations)%Z ->
       median_response_time m = Finite (Rsum (map med os) / IZR iterations) /\
       coverage m = Finite (Rsum (map cov os) / IZR iterations) /\
       lost_calls m
         = Finite (Rsum (map (fun o => IZR (lost_count o)) os) / IZR iterations)) /\
    ((0 < iterations)%Z -> (forall gk, (generate_calls gk).1 = []) ->
       m = {| median_response_time := Finite 999;
              coverage := Finite 0;
              lost_calls := Finite 0 |}).
Proof.
  split; [apply fitness_function_returns|].
  unfold fitness_function. intros m g' H.
  apply bind_Returns_inv in H as ([os g2] & Hreps & H). injection H as <- <-.
  exists os. split; [exact Hreps|].
  apply replications_inv in Hreps as [Hlen Hall].
  split; [done|].
  assert (Hobs : forall o, o ∈ os ->
    exists gk fleet stations hospitals st,
      fixed_location_generator AMBULANCE_NUMBER STATIONS_NUMBER 5
        = Returns (fleet, stations, hospitals) /\
      event_loop np_random_exponential stations hospitals
        (build_table primary_list) th
        (queue_weight (initial_events (generate_calls gk).1))
        (initial_state fleet AMBULANCE_NUMBER
           (generate_calls gk).1 (generate_calls gk).2) = Returns st /\
      events st = [] /\
      lost_count o = lost st /\
      (travel_times st = [] -> med o = 999%R /\ cov o = 0%R) /\
      (travel_times st <> [] ->
         (exists s,
            Permutation s (travel_times st) /\ StronglySorted Rle s /\
            (Nat.even (length s) = false -> s !! (length s / 2) = Some (med o)) /\
            (Nat.even (length s) = true ->
               exists a b, s !! (length s / 2 - 1) = Some a /\
                           s !! (length s / 2) = Some b /\
                           med o = ((a + b) / 2)%R)) /\
         cov o = (INR (length (filter (fun t => (t <= 9)%R) (travel_times st)))
                  / INR (length (travel_times st)))%R) /\
      ((generate_calls gk).1 = [] ->
         med o = 999%R /\ cov o = 0%R /\ lost_count o = 0%Z)).
  { intros o Ho. destruct (Hall o Ho) as (gk & g1 & Hrep).
    apply replication_inv in Hrep
      as (fleet & stations & hospitals & st & Hgen & Hloop & Hdone & -> & _).
    exists gk, fleet, stations, hospitals, st. simpl.
    split; [done|]. split; [done|]. split; [done|]. split; [done|].
    split; [|split].
    - intros ->. simpl. split; lra.
    - intros Hne. split; [|by apply coverage_fraction].
      destruct (np_median_middle _ Hne) as (s & Hperm & Hsorted & Hodd & Heven).
      rewrite <- (Permutation_length Hperm) in Hodd, Heven.
      exists s. split; [done|]. split; [done|].
      unfold replication_median.
      destruct (travel_times st) as [|x xs]; [done|]. done.
    - intros Hcalls. rewrite Hcalls in Hloop.
      rewrite event_loop_empty in Hloop by done. injection Hloop as <-. simpl.
      repeat split; lra. }
  split; [exact Hobs|]. split; [done|]. split; [done|]. split; [done|].
  assert (Hpos : (0 < iterations)%Z -> os <> [] /\ INR (length os) = IZR iterations).
  { intros Hit. split; [destruct os; [simpl in Hlen; lia|done]|].
    rewrite Hlen, INR_IZR_INZ, Z2Nat.id by lia. done. }
  split.
  - intros Hit. destruct (Hpos Hit) as [Hne <-]. simpl.
    repeat split; rewrite np_mean_nonempty by (by destruct os);
      by rewrite length_map.
  - intros Hit Hempty. destruct (Hpos Hit) as [Hne _]. unfold aggregate.
    assert (Hsentinel : forall o, o ∈ os ->
              med o = 999%R /\ cov o = 0%R /\ lost_count o = 0%Z).
    { intros o Ho.
      destruct (Hobs o Ho) as (gk & ? & ? & ? & ? & _ & _ & _ & _ & _ & _ & H).
      by apply H. }
    f_equal; apply np_mean_constant; try (by destruct os);
      apply Forall_forall; intros x Hx;
      apply list_elem_of_fmap in Hx as (o & -> & Ho);
      destruct (Hsentinel o Ho) as (Hm & Hc & Hl); try done.
    by rewrite Hl.
Qed.

End ReturnedMetrics.

Lemma three_station_generator :
  fixed_location_generator 1 3 5
  = Returns ([scenario_unit], three_stations, five_hospitals).
Proof. reflexivity. Qed.

Lemma scenario_fitness :
  fitness_function scale_as_sample one_call_stream [] 0 1 3 1 tt
  = Returns (scenario_metrics, tt).
Proof.
  unfold fitness_function. change (Z.to_nat 1) with 1. cbn [replications].
  unfold replication. rewrite three_station_generator. cbn [mbind outcome_bind].
  change (initial_state [scenario_unit] 1 (one_call_stream tt).1 (one_call_stream tt).2)
    with scenario_before.
  change (queue_weight (events scenario_before)) with 2.
  rewrite (event_loop_turn _ _ _ _ _ _ _ scenario_after);
    [|done|apply scenario_dispatch].
  rewrite (event_loop_turn _ _ _ _ _ _ _ scenario_released); [|done..].
  reflexivity.
Qed.

(** * Further properties *)

(** ** GeoModel: the haversine distance *)

Section Haversine.
Local Open Scope R_scope.

Lemma atan2_quadrant y x : 0 <= y -> 0 <= x -> 0 <= atan2 y x <= PI / 2.
Proof.
  intros Hy Hx. unfold atan2. pose proof PI_RGT_0 as Hpi.
  destruct (Rlt_dec 0 x) as [Hpos|Hnpos].
  - assert (0 <= y / x)
      by (apply Rmult_le_pos; [lra|apply Rlt_le, Rinv_0_lt_compat; lra]).
    pose proof (atan_bound (y / x)) as [_ Hub].
    destruct (Req_dec (y / x) 0) as [->|Hne]; [rewrite atan_0; lra|].
    pose proof (atan_increasing 0 (y / x) ltac:(lra)) as Hinc.
    rewrite atan_0 in Hinc. lra.
  - destruct (Rlt_dec x 0); [lra|].
    destruct (Rlt_dec 0 y); [lra|].
    destruct (Rlt_dec y 0); lra.
Qed.

Lemma haversine_symmetric (lat1 lon1 lat2 lon2 : R) :
  distance_km lat1 lon1 lat2 lon2 = distance_km lat2 lon2 lat1 lon1.
Proof.
  unfold distance_km. cbv zeta.
  assert (Hsq : forall u v, sin ((u - v) / 2) ^ 2 = sin ((v - u) / 2) ^ 2).
  { intros u v. replace ((v - u) / 2) with (- ((u - v) / 2)) by lra.
    rewrite sin_neg. ring. }
  rewrite (Hsq (radians lat2) (radians lat1)), (Hsq (radians lon2) (radians lon1)).
  rewrite (Rmult_comm (cos (radians lat1)) (cos (radians lat2))). reflexivity.
Qed.

Lemma haversine_bounds (lat1 lon1 lat2 lon2 : R) :
  0 <= distance_km lat1 lon1 lat2 lon2 <= 6371 * PI.
Proof.
  unfold distance_km. cbv zeta.
  match goal with |- context [atan2 ?y ?x] =>
    pose proof (atan2_quadrant y x (sqrt_pos _) (sqrt_pos _)) as H end.
  lra.
Qed.

Lemma haversine_same_point (lat lon : R) : distance_km lat lon lat lon = 0.
Proof.
  unfold distance_km. cbv zeta.
  replace ((radians lat - radians lat) / 2) with 0 by lra.
  replace ((radians lon - radians lon) / 2) with 0 by lra.
  rewrite sin_0.
  replace (0 ^ 2 + cos (radians lat) * cos (radians lat) * 0 ^ 2) with 0 by ring.
  rewrite Rminus_0_r, sqrt_0, sqrt_1. unfold atan2.
  destruct (Rlt_dec 0 1); [|lra].
  replace (0 / 1) with 0 by lra. rewrite atan_0. lra.
Qed.

Lemma travel_time_above_base d :
  0.1 < d ->
  base_distance d < get_travel_time_minutes d /\ 0.76 < get_travel_time_minutes d.
Proof.
  intros Hd. rewrite travel_time_en_route by done.
  pose proof (base_distance_lower d Hd) as Hmd.
  set (md := base_distance d) in *.
  set (rad := 0.336 * (0.0388 + 1) + 0.000058 * (0.0388 + 1) * md + 0.0388 * md ^ 2).
  assert (Hrad : 0 < rad) by (unfold rad; nra).
  assert (Hcd : 0 < sqrt rad / md).
  { apply Rmult_lt_0_compat; [by apply sqrt_lt_R0|].
    apply Rinv_0_lt_compat. lra. }
  pose proof (exp_ineq1 (sqrt rad / md) ltac:(lra)) as Hexp.
  assert (md * 1 < md * exp (sqrt rad / md))
    by (apply Rmult_lt_compat_l; lra).
  lra.
Qed.

Lemma travel_time_nonneg d : 0 <= get_travel_time_minutes d.
Proof.
  destruct (Rle_or_lt d 0.1) as [Hd|Hd].
  - rewrite travel_time_on_site by done. lra.
  - destruct (travel_time_above_base d Hd). lra.
Qed.

End Haversine.

(** ** RepositionTable: the entries are the prefixes of the policy *)

Section Table.

Lemma length_build_table (primary_list : list Z) :
  length (build_table primary_list) = length primary_list + 1.
Proof. unfold build_table. by rewrite length_map, length_seq. Qed.

Lemma build_table_lookup (primary_list : list Z) i :
  i <= length primary_list ->
  build_table primary_list !! i = Some (take i primary_list).
Proof.
  intros Hi. unfold build_table. rewrite list_lookup_fmap.
  rewrite lookup_seq_lt by lia. done.
Qed.

(** X3.  [build_table] returns one entry more than the policy is long;
    entry [i] is the list of the first [i] station ids of the policy, so
    entry 0 is empty, the last entry is the whole policy, and each entry
    extends the one before it by one id. *)
Theorem build_table_prefixes (primary_list : list Z) :
  length (build_table primary_list) = length primary_list + 1 /\
  build_table primary_list !! 0 = Some [] /\
  build_table primary_list !! length primary_list = Some primary_list /\
  (forall i e, build_table primary_list !! i = Some e ->
     e = take i primary_list /\ length e = i) /\
  (forall i e e', build_table primary_list !! i = Some e ->
     build_table primary_list !! S i = Some e' ->
     exists c, e' = e ++ [c]).
Proof.
  pose proof (length_build_table primary_list) as Hlen.
  assert (Hentry : forall i e, build_table primary_list !! i = Some e ->
            i <= length primary_list /\ e = take i primary_list).
  { intros i e He. pose proof (lookup_lt_Some _ _ _ He) as Hlt.
    rewrite Hlen in Hlt. rewrite build_table_lookup in He by lia.
    split; [lia|congruence]. }
  split; [done|]. split; [by rewrite build_table_lookup by lia|].
  split; [rewrite build_table_lookup by lia; by rewrite firstn_all|].
  split.
  - intros i e He. destruct (Hentry i e He) as [Hi ->].
    split; [done|]. rewrite length_take. lia.
  - intros i e e' He He'.
    destruct (Hentry _ _ He) as [_ ->]. destruct (Hentry _ _ He') as [Hi ->].
    destruct (lookup_lt_is_Some_2 primary_list i) as [c Hc]; [lia|].
    exists c. by apply take_S_r.
Qed.

Lemma build_table_prefixes_witness :
  length (build_table [2; 9; 1]%Z) = length [2; 9; 1]%Z + 1 /\
  exists c, [2; 9]%Z = [2%Z] ++ [c].
Proof.
  destruct (build_table_prefixes [2; 9; 1]%Z) as (Hlen & _ & _ & _ & Hnext).
  split; [exact Hlen|]. apply (Hnext 1 [2%Z] [2; 9]%Z); reflexivity.
Defined.

(** X4.  At a non-negative availability [counter] the reposition branch
    reads, from the table built of [primary_list], the first [counter] ids
    of the policy (the whole policy once [counter] reaches its length); the
    candidates are those of them that name a station, with [[1, 2, 3]] in
    place of an empty prefix and again when no id names a station. *)
Theorem policy_lookup_at_counter (primary_list : list Z) stations counter :
  (0 <= counter)%Z ->
  let entry := take (Z.to_nat counter) primary_list in
  let named := match entry with [] => [1; 2; 3]%Z | _ => entry end in
  let kept := filter (valid_station stations) named in
  py_getitem (build_table primary_list)
    (Z.min (Z.of_nat (length (build_table primary_list)) - 1) counter)
    = Returns entry /\
  reposition_candidates (build_table primary_list) stations counter
    = Returns (match kept with [] => [1; 2; 3]%Z | _ => kept end) /\
  ((Z.of_nat (length primary_list) <= counter)%Z -> entry = primary_list).
Proof.
  intros Hc entry named kept.
  assert (Hget : py_getitem (build_table primary_list)
            (Z.min (Z.of_nat (length (build_table primary_list)) - 1) counter)
            = Returns entry).
  { rewrite length_build_table.
    set (idx := Z.min _ _).
    assert (Hidx : (0 <= idx <= Z.of_nat (length primary_list))%Z) by lia.
    rewrite <- (Z2Nat.id idx) by lia. apply py_getitem_nat.
    rewrite build_table_lookup by lia. f_equal. unfold entry.
    destruct (Z.le_gt_cases counter (Z.of_nat (length primary_list))).
    - by replace idx with counter by lia.
    - replace idx with (Z.of_nat (length primary_list)) by lia.
      rewrite Nat2Z.id, !take_ge by lia. done. }
  split; [done|]. split.
  - unfold reposition_candidates. rewrite Hget. reflexivity.
  - intros Hge. unfold entry. apply take_ge. lia.
Qed.

Lemma policy_lookup_at_counter_witness :
  py_getitem (build_table [2; 9; 1]%Z)
    (Z.min (Z.of_nat (length (build_table [2; 9; 1]%Z)) - 1) 2)
    = Returns [2; 9]%Z /\
  reposition_candidates (build_table [2; 9; 1]%Z) three_stations 2
    = Returns [2%Z] /\
  ((Z.of_nat (length [2; 9; 1]%Z) <= 2)%Z -> [2; 9]%Z = [2; 9; 1]%Z).
Proof.
  apply (policy_lookup_at_counter [2; 9; 1]%Z three_stations 2). lia.
Defined.

End Table.

(** ** Fixed stations, hospitals and home bases: limits and layout *)

Section Tables.

Lemma for_each_app {A B : Type} (f : A -> outcome B) l1 l2 :
  for_each f (l1 ++ l2)
  = ys1 ← for_each f l1; ys2 ← for_each f l2; Returns (ys1 ++ ys2).
Proof.
  induction l1 as [|x xs IH]; simpl.
  - by destruct (for_each f l2).
  - destruct (f x); simpl; [|done..]. rewrite IH.
    destruct (for_each f xs); simpl; [|done..].
    by destruct (for_each f l2).
Qed.

Lemma py_range_split n k :
  (0 <= k <= n)%Z ->
  py_range n = py_range k ++ map Z.of_nat (seq (Z.to_nat k) (Z.to_nat (n - k))).
Proof.
  intros Hk. unfold py_range.
  replace (Z.to_nat n) with (Z.to_nat k + Z.to_nat (n - k)) by lia.
  by rewrite seq_app, map_app.
Qed.

(** A comprehension over [range(n)] whose body serves exactly the indices
    below [k] raises at index [k] as soon as [n] exceeds [k]. *)
Lemma for_each_range_overrun {B : Type} (f : Z -> outcome B) n k e :
  (0 <= k < n)%Z ->
  (forall i, (0 <= i < k)%Z -> exists y, f i = Returns y) ->
  f k = Raises e ->
  for_each f (py_range n) = Raises e.
Proof.
  intros Hk Hbelow Hat.
  rewrite (py_range_split n k) by lia. rewrite for_each_app.
  destruct (for_each_returns f (py_range k)) as [ys ->].
  { apply Forall_forall. intros i Hi. apply py_range_bounds in Hi. by apply Hbelow. }
  simpl.
  replace (Z.to_nat (n - k)) with (S (Z.to_nat (n - k - 1))) by lia.
  simpl. rewrite Z2Nat.id by lia. by rewrite Hat.
Qed.

Lemma for_each_range_returns {B : Type} (f : Z -> outcome B) n k :
  (n <= k)%Z ->
  (forall i, (0 <= i < k)%Z -> exists y, f i = Returns y) ->
  exists ys, for_each f (py_range n) = Returns ys /\ length ys = Z.to_nat n.
Proof.
  intros Hn Hbelow.
  destruct (for_each_returns f (py_range n)) as [ys Hys].
  { apply Forall_forall. intros i Hi. apply py_range_bounds in Hi.
    apply Hbelow. lia. }
  exists ys. split; [done|]. apply for_each_Forall2 in Hys.
  rewrite <- (Forall2_length _ _ _ Hys). apply length_py_range.
Qed.

Lemma generator_station_overrun ambulance_n stations_n hospitals_n :
  (17 < stations_n)%Z ->
  fixed_location_generator ambulance_n stations_n hospitals_n = Raises IndexError.
Proof.
  intros Hs. unfold fixed_location_generator.
  rewrite (for_each_range_overrun make_station stations_n 17 IndexError);
    [done|lia| |done].
  intros i Hi. by apply make_station_returns.
Qed.

Lemma generator_assertion ambulance_n stations_n hospitals_n :
  (stations_n <= 17)%Z -> (16 < ambulance_n)%Z ->
  fixed_location_generator ambulance_n stations_n hospitals_n
  = Raises AssertionError.
Proof.
  intros Hs Ha. unfold fixed_location_generator.
  change (Z.of_nat (length home_station)) with 16%Z.
  destruct (for_each_range_returns make_station stations_n 17) as (ss & -> & _);
    [lia|intros i Hi; by apply make_station_returns|].
  cbn [mbind outcome_bind].
  destruct (Z.geb_spec 16 ambulance_n); [lia|done].
Qed.

(** X5.  [fixed_location_generator] serves at most 17 stations, 16
    ambulances and 5 hospitals, and tells the three overruns apart in the
    order of its statements: more than 17 stations raise [IndexError] (the
    station comprehension runs first), otherwise more than 16 ambulances
    fail the assertion, otherwise more than 5 hospitals raise [IndexError];
    within the limits it returns lists of the requested lengths (empty for a
    count of 0 or below). *)
Theorem generator_limits ambulance_n stations_n hospitals_n :
  ((17 < stations_n)%Z ->
     fixed_location_generator ambulance_n stations_n hospitals_n
     = Raises IndexError) /\
  ((stations_n <= 17)%Z -> (16 < ambulance_n)%Z ->
     fixed_location_generator ambulance_n stations_n hospitals_n
     = Raises AssertionError) /\
  ((stations_n <= 17)%Z -> (ambulance_n <= 16)%Z -> (5 < hospitals_n)%Z ->
     fixed_location_generator ambulance_n stations_n hospitals_n
     = Raises IndexError) /\
  ((stations_n <= 17)%Z -> (ambulance_n <= 16)%Z -> (hospitals_n <= 5)%Z ->
     exists fleet stations hospitals,
       fixed_location_generator ambulance_n stations_n hospitals_n
       = Returns (fleet, stations, hospitals) /\
       length fleet = Z.to_nat ambulance_n /\
       length stations = Z.to_nat stations_n /\
       length hospitals = Z.to_nat hospitals_n).
Proof.
  split; [apply generator_station_overrun|].
  split; [apply generator_assertion|].
  unfold fixed_location_generator.
  change (Z.of_nat (length home_station)) with 16%Z.
  split.
  - intros Hs Ha Hh.
    destruct (for_each_range_returns make_station stations_n 17) as (ss & -> & _);
      [lia|intros i Hi; by apply make_station_returns|].
    cbn [mbind outcome_bind].
    destruct (Z.geb_spec 16 ambulance_n); [|lia].
    destruct (for_each_range_returns make_ambulance ambulance_n 16) as (fs & -> & _);
      [lia|intros i Hi; by apply make_ambulance_returns|].
    cbn [mbind outcome_bind].
    rewrite (for_each_range_overrun make_hospital hospitals_n 5 IndexError);
      [done|lia| |done].
    intros i Hi. by apply make_hospital_returns.
  - intros Hs Ha Hh.
    destruct (for_each_range_returns make_station stations_n 17) as (ss & -> & Hls);
      [lia|intros i Hi; by apply make_station_returns|].
    cbn [mbind outcome_bind].
    destruct (Z.geb_spec 16 ambulance_n); [|lia].
    destruct (for_each_range_returns make_ambulance ambulance_n 16) as (fs & -> & Hlf);
      [lia|intros i Hi; by apply make_ambulance_returns|].
    cbn [mbind outcome_bind].
    destruct (for_each_range_returns make_hospital hospitals_n 5) as (hs & -> & Hlh);
      [lia|intros i Hi; by apply make_hospital_returns|].
    cbn [mbind outcome_bind]. by exists fs, ss, hs.
Qed.

Lemma generator_limits_witness :
  fixed_location_generator 1 18 5 = Raises IndexError /\
  fixed_location_generator 17 17 5 = Raises AssertionError /\
  fixed_location_generator 16 17 6 = Raises IndexError /\
  exists fleet stations hospitals,
    fixed_location_generator 16 17 5 = Returns (fleet, stations, hospitals) /\
    length fleet = Z.to_nat 16 /\
    length stations = Z.to_nat 17 /\
    length hospitals = Z.to_nat 5.
Proof.
  destruct (generator_limits 1 18 5) as (Hstations & _).
  destruct (generator_limits 17 17 5) as (_ & Hassert & _).
  destruct (generator_limits 16 17 6) as (_ & _ & Hhospitals & _).
  destruct (generator_limits 16 17 5) as (_ & _ & _ & Hreturns).
  split; [apply Hstations; lia|].
  split; [apply Hassert; lia|].
  split; [apply Hhospitals; lia|].
  apply Hreturns; lia.
Defined.

(** X6.  What [fixed_location_generator] returns is laid out by position:
    the station at position [p] has id [p + 1] and the coordinates of entry
    [p] of the station tables; the hospital at position [p] has id [p]; the
    ambulance at position [p] has id [p], is available, and stands at entry
    [home_station[p]] of the station tables, which is the station of id
    [home_station[p] + 1], whether or not [stations_n] lets that station
    into the returned list. *)
Theorem generator_layout ambulance_n stations_n hospitals_n fleet stations hospitals :
  fixed_location_generator ambulance_n stations_n hospitals_n
    = Returns (fleet, stations, hospitals) ->
  (forall p s, stations !! p = Some s ->
     Site.id s = (Z.of_nat p + 1)%Z /\
     station_lat !! p = Some (Site.latitude s) /\
     station_lon !! p = Some (Site.longitude s)) /\
  (forall p a, fleet !! p = Some a ->
     Amb.id a = Z.of_nat p /\ Amb.availability a = 1%Z /\
     exists hs, home_station !! p = Some hs /\
       station_lat !! Z.to_nat hs = Some (Amb.latitude a) /\
       station_lon !! Z.to_nat hs = Some (Amb.longitude a)) /\
  (forall p h, hospitals !! p = Some h ->
     Site.id h = Z.of_nat p /\
     hospital_lat !! p = Some (Site.latitude h) /\
     hospital_lon !! p = Some (Site.longitude h)).
Proof.
  intros H. apply generator_inv in H as (Hss & Hfs & Hhs).
  apply for_each_Forall2 in Hss, Hfs, Hhs.
  split; [|split].
  - intros p s Hp.
    destruct (Forall2_lookup_r _ _ _ _ _ Hss Hp) as (i & Hi & Hs).
    apply py_range_lookup in Hi as ->. unfold make_station in Hs.
    apply bind_Returns_inv in Hs as (lat & Hlat & Hs).
    apply bind_Returns_inv in Hs as (lon & Hlon & Hs).
    injection Hs as <-. simpl.
    apply py_getitem_nat_inv in Hlat, Hlon. done.
  - intros p a Hp.
    destruct (Forall2_lookup_r _ _ _ _ _ Hfs Hp) as (i & Hi & Ha).
    apply py_range_lookup in Hi as ->. unfold make_ambulance in Ha.
    apply bind_Returns_inv in Ha as (hs & Hhome & Ha).
    apply bind_Returns_inv in Ha as (lat & Hlat & Ha).
    apply bind_Returns_inv in Ha as (lon & Hlon & Ha).
    injection Ha as <-. simpl.
    apply py_getitem_nat_inv in Hhome.
    split; [done|]. split; [done|]. exists hs. split; [done|].
    assert (Hpos : (0 <= hs < 17)%Z).
    { pose proof home_station_in_table as Hall. rewrite Forall_forall in Hall.
      by eapply Hall, list_elem_of_lookup_2. }
    rewrite <- (Z2Nat.id hs) in Hlat, Hlon by lia.
    apply py_getitem_nat_inv in Hlat, Hlon. done.
  - intros p h Hp.
    destruct (Forall2_lookup_r _ _ _ _ _ Hhs Hp) as (i & Hi & Hh).
    apply py_range_lookup in Hi as ->. unfold make_hospital in Hh.
    apply bind_Returns_inv in Hh as (lat & Hlat & Hh).
    apply bind_Returns_inv in Hh as (lon & Hlon & Hh).
    injection Hh as <-. simpl.
    apply py_getitem_nat_inv in Hlat, Hlon. done.
Qed.

Lemma generator_layout_witness :
  (forall p s, three_stations !! p = Some s ->
     Site.id s = (Z.of_nat p + 1)%Z /\
     station_lat !! p = Some (Site.latitude s) /\
     station_lon !! p = Some (Site.longitude s)) /\
  (forall p a, [scenario_unit] !! p = Some a ->
     Amb.id a = Z.of_nat p /\ Amb.availability a = 1%Z /\
     exists hs, home_station !! p = Some hs /\
       station_lat !! Z.to_nat hs = Some (Amb.latitude a) /\
       station_lon !! Z.to_nat hs = Some (Amb.longitude a)) /\
  (forall p h, five_hospitals !! p = Some h ->
     Site.id h = Z.of_nat p /\
     hospital_lat !! p = Some (Site.latitude h) /\
     hospital_lon !! p = Some (Site.longitude h)).
Proof.
  exact (generator_layout 1 3 5 [scenario_unit] three_stations five_hospitals
           three_station_generator).
Defined.

End Tables.

(** ** Accounting of the fleet *)

Lemma scenario_run stations hospitals table :
  event_loop scale_as_sample stations hospitals table 0 2 scenario_before
  = Returns scenario_released.
Proof.
  rewrite (event_loop_turn _ _ _ _ _ _ _ scenario_after);
    [|done|apply scenario_dispatch].
  rewrite (event_loop_turn _ _ _ _ _ _ _ scenario_released); [|done..].
  reflexivity.
Qed.

Section Accounting.
Context {RandomState : Type}.
Variable np_random_exponential : R -> RandomState -> R * RandomState.
Variables (stations hospitals : list Site.t).
Variable reposition_table : list (list Z).
Variable th : Z.

Local Abbreviation step :=
  (loop_body np_random_exponential stations hospitals reposition_table th).
Local Abbreviation run :=
  (event_loop np_random_exponential stations hospitals reposition_table th).

(** What a returned turn can be. *)
Lemma step_cases (st st' : SimState RandomState) :
  step st = Returns st' ->
  (events st = [] /\ st' = st) \/
  (exists t treat lat lon hos rest,
     events st = CallEvent t treat lat lon hos :: rest /\
     current_state st = 0%Z /\ st' = lose_call t rest st) \/
  (exists t treat lat lon hos rest,
     events st = CallEvent t treat lat lon hos :: rest /\
     current_state st <> 0%Z /\
     dispatch np_random_exponential hospitals t treat lat lon hos rest st
       = Returns st') \/
  (exists t amb_id rest,
     events st = FreeEvent t amb_id :: rest /\
     release stations reposition_table th amb_id rest st = Returns st').
Proof.
  unfold loop_body. intros Hstep.
  destruct (events st) as [|[t treat lat lon hos|t amb_id] rest] eqn:Hev.
  - left. split; [done|congruence].
  - destruct (Z.eqb_spec (current_state st) 0) as [Hc|Hc].
    + right; left. exists t, treat, lat, lon, hos, rest.
      split; [done|]. split; [done|congruence].
    + right; right; left. by exists t, treat, lat, lon, hos, rest.
  - right; right; right. by exists t, amb_id, rest.
Qed.

(** An invariant of the turns is an invariant of the loop. *)
Lemma run_invariant (P : SimState RandomState -> Prop) :
  (forall st st', P st -> step st = Returns st' -> P st') ->
  forall fuel st st', P st -> run fuel st = Returns st' -> P st' /\ events st' = [].
Proof.
  intros Hstep. induction fuel as [|fuel IH]; intros st st' HP Hrun; simpl in Hrun.
  - destruct (events st) eqn:Hev; [|done]. injection Hrun as <-. done.
  - destruct (events st) eqn:Hev; [injection Hrun as <-; done|].
    apply bind_Returns_inv in Hrun as (st1 & Hst1 & Hrun).
    apply (IH st1); [|done]. by eapply Hstep.
Qed.

Lemma balanced_step AMBULANCE_NUMBER (st st' : SimState RandomState) :
  balanced AMBULANCE_NUMBER st -> step st = Returns st' ->
  balanced AMBULANCE_NUMBER st'.
Proof.
  intros [Hlen Hsum] Hstep. unfold balanced.
  destruct (step_cases _ _ Hstep)
    as [[_ ->]|[(t & treat & lat & lon & hos & rest & Hev & Hc & ->)
       |[(t & treat & lat & lon & hos & rest & Hev & Hc & Hd)
        |(t & amb_id & rest & Hev & Hr)]]]; [done|..].
  - rewrite Hev in Hsum. done.
  - rewrite Hev in Hsum. simpl in Hsum.
    apply dispatch_inv in Hd as (k & p & a & d1 & _ & _ & _ & Hst').
    assert (Hshape : length (ambulances st') = length (ambulances st) /\
                     current_state st' = (current_state st - 1)%Z /\
                     length (pending (events st')) = S (length (pending rest))).
    { destruct Hst' as [(_ & hd & _ & ->)|(_ & ->)]; simpl;
        rewrite length_insert, (Permutation_length (pending_insort _ _)); done. }
    destruct Hshape as (-> & -> & ->). split; [done|]. lia.
  - rewrite Hev in Hsum. simpl in Hsum.
    apply release_inv in Hr as (p & a & amb' & _ & _ & _ & _ & _ & ->). simpl.
    rewrite length_insert. split; [done|]. lia.
Qed.

Lemma filter_all {A : Type} (P : A -> Prop) `{!forall x, Decision (P x)} (l : list A) :
  length (filter P l) = length l -> Forall P l.
Proof.
  induction l as [|x xs IH]; [constructor|].
  rewrite filter_cons. pose proof (length_filter P xs) as Hle.
  destruct (decide (P x)); simpl; intros Hlen; [|lia].
  constructor; [done|]. apply IH. lia.
Qed.


Lemma balanced_initial AMBULANCE_NUMBER STATIONS_NUMBER fleet calls (g : RandomState) :
  (0 <= AMBULANCE_NUMBER)%Z ->
  fixed_location_generator AMBULANCE_NUMBER STATIONS_NUMBER 5
    = Returns (fleet, stations, hospitals) ->
  balanced AMBULANCE_NUMBER (initial_state fleet AMBULANCE_NUMBER calls g).
Proof.
  intros Hn Hgen. apply generator_fleet in Hgen as [Hlen _].
  unfold balanced, initial_state. simpl. rewrite pending_initial_events.
  simpl. split; [done|lia].
Qed.

Lemma generator_hospitals ambulance_n stations_n hospitals_n fleet ss hs :
  fixed_location_generator ambulance_n stations_n hospitals_n
    = Returns (fleet, ss, hs) ->
  length hs = Z.to_nat hospitals_n.
Proof.
  intros H. apply generator_inv in H as (_ & _ & H).
  apply for_each_Forall2 in H.
  rewrite <- (Forall2_length _ _ _ H). apply length_py_range.
Qed.

(** X7.  The event loop of a replication with a non-negative ambulance
    count ends (it returns when there are at least 3 stations), and when it
    ends every unit is back: the queue is empty, the availability counter
    is [AMBULANCE_NUMBER] again, and the fleet still has [AMBULANCE_NUMBER]
    units, each at the position of its id and flagged available. *)
Theorem fleet_stands_by_at_the_end AMBULANCE_NUMBER STATIONS_NUMBER
    fleet calls (g : RandomState) :
  (0 <= AMBULANCE_NUMBER)%Z ->
  fixed_location_generator AMBULANCE_NUMBER STATIONS_NUMBER 5
    = Returns (fleet, stations, hospitals) ->
  ((3 <= STATIONS_NUMBER)%Z -> reposition_table <> [] ->
   exists st, run (queue_weight (initial_events calls))
                (initial_state fleet AMBULANCE_NUMBER calls g) = Returns st) /\
  forall fuel st,
  run fuel (initial_state fleet AMBULANCE_NUMBER calls g) = Returns st ->
  events st = [] /\
  current_state st = AMBULANCE_NUMBER /\
  length (ambulances st) = Z.to_nat AMBULANCE_NUMBER /\
  (forall p a, ambulances st !! p = Some a ->
     Amb.id a = Z.of_nat p /\ Amb.availability a = 1%Z).
Proof.
  intros Hn Hgen.
  assert (Hcons : consistent (initial_state fleet AMBULANCE_NUMBER calls g)).
  { by apply (consistent_initial (fun g => (calls, g)) stations hospitals
                AMBULANCE_NUMBER STATIONS_NUMBER fleet g). }
  split.
  { intros Hs Htable.
    apply consistent_loop_returns; [| |done|done|done].
    - rewrite (generator_stations _ _ _ _ _ _ Hgen). lia.
    - apply generator_hospitals in Hgen. by destruct hospitals. }
  intros fuel st Hrun.
  destruct (run_invariant
              (fun st => balanced AMBULANCE_NUMBER st /\ consistent st)) with
    (fuel := fuel) (st := initial_state fleet AMBULANCE_NUMBER calls g) (st' := st)
    as [[[Hlen Hsum] (Hlock & Hids & _)] Hdone]; [| |done|].
  - intros s s' [Hb Hc] Hs. split; [by eapply balanced_step|].
    by eapply consistent_step.
  - split; [by eapply balanced_initial|done].
  - rewrite Hdone in Hsum. simpl in Hsum.
    split; [done|]. split; [lia|]. split; [done|].
    unfold lockstep in Hlock. rewrite length_available in Hlock.
    assert (Hall : Forall flagged_available (ambulances st)).
    { apply (filter_all flagged_available). lia. }
    rewrite Forall_forall in Hall.
    intros p a Hp. split; [by apply Hids|].
    by eapply Hall, list_elem_of_lookup_2.
Qed.

(** ** Lost calls *)

Lemma late_insort e evs :
  length (filter late_call (insort e evs)) = length (filter late_call (e :: evs)).
Proof. apply Permutation_length. by rewrite insort_perm. Qed.

Lemma lost_step (st st' : SimState RandomState) :
  step st = Returns st' ->
  (lost st <= lost st')%Z /\
  (lost st' + Z.of_nat (length (filter late_call (events st')))
   <= lost st + Z.of_nat (length (filter late_call (events st))))%Z.
Proof.
  intros Hstep.
  destruct (step_cases _ _ Hstep)
    as [[_ ->]|[(t & treat & lat & lon & hos & rest & Hev & Hc & ->)
       |[(t & treat & lat & lon & hos & rest & Hev & Hc & Hd)
        |(t & amb_id & rest & Hev & Hr)]]]; [lia|..]; rewrite Hev.
  - rewrite filter_cons. simpl.
    unfold decide, late_call_dec. destruct (Rge_dec t warmup); simpl; lia.
  - pose proof (length_filter late_call [CallEvent t treat lat lon hos]).
    rewrite filter_cons.
    apply dispatch_inv in Hd as (k & p & a & d1 & _ & _ & _ & Hst').
    assert (Hshape : lost st' = lost st /\
      length (filter late_call (events st')) = length (filter late_call rest)).
    { destruct Hst' as [(_ & hd & _ & ->)|(_ & ->)]; simpl;
        rewrite late_insort, filter_cons; done. }
    destruct Hshape as [-> ->].
    destruct (decide (late_call _)); simpl; lia.
  - apply release_inv in Hr as (p & a & amb' & _ & _ & _ & _ & _ & ->). simpl.
    rewrite filter_cons. simpl. lia.
Qed.

Lemma lost_run fuel : forall st st' : SimState RandomState,
  run fuel st = Returns st' ->
  (lost st <= lost st'
   <= lost st + Z.of_nat (length (filter late_call (events st))))%Z.
Proof.
  induction fuel as [|fuel IH]; intros st st' Hrun; simpl in Hrun.
  - destruct (events st) eqn:Hev; [|done]. injection Hrun as <-. lia.
  - destruct (events st) eqn:Hev; [injection Hrun as <-; lia|].
    apply bind_Returns_inv in Hrun as (st1 & Hst1 & Hrun).
    apply lost_step in Hst1. apply IH in Hrun. rewrite Hev in Hst1. lia.
Qed.

Lemma initial_events_perm calls : initial_events calls ≡ₚ map call_event calls.
Proof.
  unfold initial_events.
  enough (H : forall evs,
            foldl (fun evs c => insort (call_event c) evs) evs calls
            ≡ₚ evs ++ map call_event calls)
    by apply (H []).
  induction calls as [|c cs IH]; intros evs; simpl; [by rewrite app_nil_r|].
  rewrite IH, insort_perm. simpl. apply Permutation_middle.
Qed.

Lemma late_calls_events calls :
  length (filter late_call (initial_events calls)) = length (filter late calls).
Proof.
  rewrite (Permutation_length (filter_Permutation _ _ _ (initial_events_perm calls))).
  induction calls as [|c cs IH]; [done|].
  cbn [map]. rewrite !filter_cons.
  destruct (decide (late c)) as [Hc|Hc].
  - rewrite decide_True by exact Hc. simpl. by rewrite IH.
  - rewrite decide_False by exact Hc. done.
Qed.

(** X8.  The lost-call counter never decreases, and a run of the event
    loop adds to it at most the number of call events of the queue that
    arrive at or past the warm-up boundary; so the count a replication
    reports lies between 0 and the number of such calls of its stream. *)
Theorem lost_calls_bounded fuel (st st' : SimState RandomState) :
  run fuel st = Returns st' ->
  (lost st <= lost st'
   <= lost st + Z.of_nat (length (filter late_call (events st))))%Z /\
  (forall fleet AMBULANCE_NUMBER calls g,
     st = initial_state fleet AMBULANCE_NUMBER calls g ->
     (0 <= lost st' <= Z.of_nat (length (filter late calls)))%Z).
Proof.
  intros Hrun. apply lost_run in Hrun. split; [done|].
  intros fleet AMBULANCE_NUMBER calls g ->. simpl in Hrun.
  by rewrite late_calls_events in Hrun.
Qed.

(** ** A replication without ambulances *)

Lemma no_unit_run evs : forall fuel (st : SimState RandomState),
  events st = evs -> pending evs = [] -> current_state st = 0%Z ->
  queue_weight evs <= fuel ->
  run fuel st
  = Returns {| events := [];
               ambulances := ambulances st;
               current_state := 0;
               travel_times := travel_times st;
               lost := lost st + Z.of_nat (length (filter late_call evs));
               rng := rng st |}.
Proof.
  induction evs as [|[t treat lat lon hos|t amb_id] rest IH];
    intros fuel st Hev Hpend Hc Hfuel; [| |done].
  - rewrite event_loop_empty by done. destruct st; simpl in *; subst.
    f_equal. f_equal. lia.
  - change (queue_weight (CallEvent t treat lat lon hos :: rest))
      with (S (S (queue_weight rest))) in Hfuel.
    destruct fuel as [|fuel]; [lia|].
    cbn [event_loop]. rewrite Hev.
    rewrite (step_call _ _ _ _ _ _ _ _ _ _ _ _ Hev), Hc.
    cbn [Z.eqb mbind outcome_bind].
    rewrite IH; [|done|done|done|lia].
    simpl. f_equal. f_equal. rewrite filter_cons.
    unfold decide, late_call_dec.
    destruct (Rge_dec t warmup); simpl length; lia.
Qed.

End Accounting.

Lemma fleet_stands_by_at_the_end_witness :
  (exists st,
     event_loop scale_as_sample three_stations five_hospitals (build_table []) 0
       (queue_weight (initial_events (one_call_stream tt).1))
       (initial_state [scenario_unit] 1 (one_call_stream tt).1 tt) = Returns st) /\
  events scenario_released = [] /\
  current_state scenario_released = 1%Z /\
  length (ambulances scenario_released) = Z.to_nat 1 /\
  (forall p a, ambulances scenario_released !! p = Some a ->
     Amb.id a = Z.of_nat p /\ Amb.availability a = 1%Z).
Proof.
  destruct (fleet_stands_by_at_the_end scale_as_sample three_stations
              five_hospitals (build_table []) 0 1 3 [scenario_unit]
              (one_call_stream tt).1 tt ltac:(lia) three_station_generator)
    as [Hreturns Hend].
  split; [apply Hreturns; [lia|done]|].
  apply (Hend 2%nat scenario_released). apply scenario_run.
Defined.

Lemma lost_calls_bounded_witness :
  (lost scenario_before <= lost scenario_released
   <= lost scenario_before
      + Z.of_nat (length (filter late_call (events scenario_before))))%Z /\
  (forall fleet AMBULANCE_NUMBER calls g,
     scenario_before = initial_state fleet AMBULANCE_NUMBER calls g ->
     (0 <= lost scenario_released <= Z.of_nat (length (filter late calls)))%Z).
Proof.
  apply (lost_calls_bounded scale_as_sample three_stations five_hospitals
           (build_table []) 0 2 scenario_before scenario_released).
  apply scenario_run.
Defined.

(** X9.  With [AMBULANCE_NUMBER = 0] (and at most 17 stations) a
    replication returns for every call stream, policy and threshold: it
    loses every call that arrives at or past the warm-up boundary and no
    other, records no travel time (median 999.0, coverage 0.0), and makes
    no draw besides those of the call stream. *)
Theorem no_ambulance_loses_every_late_call {RandomState : Type}
    (np_random_exponential : R -> RandomState -> R * RandomState)
    (generate_calls : RandomState -> list Call * RandomState)
    reposition_table th STATIONS_NUMBER (g : RandomState) :
  (STATIONS_NUMBER <= 17)%Z ->
  replication np_random_exponential generate_calls reposition_table th
    0 STATIONS_NUMBER g
  = Returns ({| med := 999;
                cov := 0;
                lost_count :=
                  Z.of_nat (length (filter late (generate_calls g).1)) |},
             (generate_calls g).2).
Proof.
  intros Hs. unfold replication.
  destruct (generator_returns 0 STATIONS_NUMBER)
    as (fleet & ss & hs & -> & _); [lia..|].
  cbn [mbind outcome_bind].
  rewrite (no_unit_run _ _ _ _ _ (initial_events (generate_calls g).1)); try done.
  - cbn [mbind outcome_bind travel_times lost rng initial_state].
    rewrite late_calls_events, Z.add_0_l.
    do 2 f_equal. f_equal; unfold replication_median, replication_coverage; lra.
  - apply pending_initial_events.
Qed.

Lemma no_ambulance_loses_every_late_call_witness :
  replication scale_as_sample one_call_stream (build_table [2%Z]) 5 0 3 tt
  = Returns ({| med := 999;
                cov := 0;
                lost_count :=
                  Z.of_nat (length (filter late (one_call_stream tt).1)) |},
             (one_call_stream tt).2).
Proof.
  apply (no_ambulance_loses_every_late_call scale_as_sample one_call_stream
           (build_table [2%Z]) 5 3 tt).
  lia.
Defined.

Section Reachable.
Context {RandomState : Type}.
Variable np_random_exponential : R -> RandomState -> R * RandomState.
Variable generate_calls : RandomState -> list Call * RandomState.
Variables (stations hospitals : list Site.t).
Variable reposition_table : list (list Z).
Variable th : Z.

(** X10.  In every reachable state of the event loop of a replication with
    a non-negative ambulance count the fleet has [AMBULANCE_NUMBER] units,
    and the availability counter and the number of free events waiting in
    the queue add up to [AMBULANCE_NUMBER]: the counter stays between 0 and
    [AMBULANCE_NUMBER], and never more than [AMBULANCE_NUMBER] free events
    wait. *)
Theorem units_and_free_events_add_up AMBULANCE_NUMBER STATIONS_NUMBER
    (st : SimState RandomState) :
  (0 <= AMBULANCE_NUMBER)%Z ->
  reachable np_random_exponential generate_calls reposition_table th
    AMBULANCE_NUMBER STATIONS_NUMBER stations hospitals st ->
  length (ambulances st) = Z.to_nat AMBULANCE_NUMBER /\
  (current_state st + Z.of_nat (length (pending (events st))))%Z
    = AMBULANCE_NUMBER /\
  (0 <= current_state st <= AMBULANCE_NUMBER)%Z.
Proof.
  intros Hn Hreach.
  assert (Hb : balanced AMBULANCE_NUMBER st).
  { induction Hreach as [fleet g Hgen|st st' _ IH Hstep].
    - by eapply balanced_initial.
    - by eapply balanced_step. }
  destruct Hb as [Hlen Hsum].
  apply reachable_consistent in Hreach as [Hlock _]; [|done].
  unfold lockstep in Hlock. split; [done|]. split; [done|]. lia.
Qed.

End Reachable.

Lemma units_and_free_events_add_up_witness :
  length (ambulances scenario_after) = Z.to_nat 1 /\
  (current_state scenario_after
   + Z.of_nat (length (pending (events scenario_after))))%Z = 1%Z /\
  (0 <= current_state scenario_after <= 1)%Z.
Proof.
  apply (units_and_free_events_add_up scale_as_sample one_call_stream
           [] five_hospitals [] 0 1 0 scenario_after).
  - lia.
  - apply scenario_reachable.
Defined.

(** ** Ranges of the returned metrics *)

Section Ranges.
Context {RandomState : Type}.
Variable np_random_exponential : R -> RandomState -> R * RandomState.
Variable generate_calls : RandomState -> list Call * RandomState.

Lemma samples_step stations hospitals table th (st st' : SimState RandomState) :
  Forall (Rle 0) (travel_times st) ->
  loop_body np_random_exponential stations hospitals table th st = Returns st' ->
  Forall (Rle 0) (travel_times st').
Proof.
  intros Hall Hstep.
  destruct (step_cases _ _ _ _ _ _ _ Hstep)
    as [[_ ->]|[(t & treat & lat & lon & hos & rest & Hev & Hc & ->)
       |[(t & treat & lat & lon & hos & rest & Hev & Hc & Hd)
        |(t & amb_id & rest & Hev & Hr)]]]; [done..| |].
  - apply dispatch_inv in Hd as (k & p & a & d1 & _ & _ & _ & Hst').
    destruct Hst' as [(_ & hd & _ & ->)|(_ & ->)]; simpl;
      destruct (Rge_dec t warmup); rewrite ?Forall_app, ?Forall_singleton;
      repeat split; try done; apply travel_time_nonneg.
  - by apply release_inv in Hr as (p & a & amb' & _ & _ & _ & _ & _ & ->).
Qed.

Lemma nth_nonneg (l : list R) k : Forall (Rle 0) l -> (0 <= nth k l 0)%R.
Proof.
  intros Hall. revert k. induction Hall as [|x xs Hx _ IH]; intros [|k]; simpl;
    try lra; try done.
Qed.

Lemma np_median_nonneg (l : list R) : Forall (Rle 0) l -> (0 <= np_median l)%R.
Proof.
  intros Hall.
  assert (Hs : Forall (Rle 0) (sort_floats l)).
  { by rewrite (proj2 (sort_floats_sorted l)). }
  unfold np_median.
  pose proof (nth_nonneg _ (length (sort_floats l) / 2 - 1) Hs).
  pose proof (nth_nonneg _ (length (sort_floats l) / 2) Hs).
  destruct (Nat.even _); lra.
Qed.

Lemma mean_at_least (a : R) (l : list R) :
  l <> [] -> Forall (Rle a) l -> (a <= mean l)%R.
Proof.
  intros Hne Hall.
  assert (Hsum : (INR (length l) * a <= Rsum l)%R).
  { clear Hne. induction Hall as [|x xs Hx _ IH]; cbn [Rsum foldr]; [simpl; lra|].
    fold (Rsum xs). rewrite length_cons, S_INR. lra. }
  assert (Hn : (0 < INR (length l))%R)
    by (apply lt_0_INR; destruct l; [done|simpl; lia]).
  unfold mean. apply Rmult_le_reg_r with (INR (length l)); [done|].
  unfold Rdiv. rewrite Rmult_assoc, Rinv_l by lra. lra.
Qed.

Lemma mean_at_most (b : R) (l : list R) :
  l <> [] -> Forall (fun x => x <= b)%R l -> (mean l <= b)%R.
Proof.
  intros Hne Hall.
  assert (Hsum : (Rsum l <= INR (length l) * b)%R).
  { clear Hne. induction Hall as [|x xs Hx _ IH]; cbn [Rsum foldr]; [simpl; lra|].
    fold (Rsum xs). rewrite length_cons, S_INR. lra. }
  assert (Hn : (0 < INR (length l))%R)
    by (apply lt_0_INR; destruct l; [done|simpl; lia]).
  unfold mean. apply Rmult_le_reg_r with (INR (length l)); [done|].
  unfold Rdiv. rewrite Rmult_assoc, Rinv_l by lra. lra.
Qed.

Lemma replication_in_range table th AMBULANCE_NUMBER STATIONS_NUMBER g o g1 :
  replication np_random_exponential generate_calls table th
    AMBULANCE_NUMBER STATIONS_NUMBER g = Returns (o, g1) ->
  (0 <= med o)%R /\ (0 <= cov o <= 1)%R /\
  (0 <= lost_count o <= Z.of_nat (length (filter late (generate_calls g).1)))%Z.
Proof.
  intros H.
  apply replication_inv in H as (fleet & ss & hs & st & _ & Hrun & _ & -> & _).
  simpl.
  destruct (run_invariant np_random_exponential ss hs table th
              (fun st => Forall (Rle 0) (travel_times st))
              (samples_step ss hs table th) _ _ st (List.Forall_nil _ : Forall (Rle 0)
                 (travel_times (initial_state fleet AMBULANCE_NUMBER
                                  (generate_calls g).1 (generate_calls g).2))) Hrun)
    as [Hall _].
  split; [|split].
  - unfold replication_median. destruct (travel_times st) eqn:E; [lra|].
    rewrite <- E. apply np_median_nonneg. by rewrite E.
  - unfold replication_coverage. destruct (travel_times st) as [|x xs]; [lra|].
    assert (Hc : Forall (fun c => 0 <= c <= 1)%R (map covered (x :: xs))).
    { apply Forall_forall. intros c Hc.
      apply list_elem_of_fmap in Hc as (y & -> & _).
      unfold covered. destruct (Rle_dec y 9); lra. }
    split.
    + apply mean_at_least; [done|]. eapply Forall_impl; [exact Hc|].
      intros c ?. simpl in *. lra.
    + apply mean_at_most; [done|]. eapply Forall_impl; [exact Hc|].
      intros c ?. simpl in *. lra.
  - apply lost_run in Hrun. simpl in Hrun.
    by rewrite late_calls_events in Hrun.
Qed.

(** X11.  When [fitness_function] returns after at least one replication,
    its three metrics are numbers (not NaN): the median response time is
    not negative, the coverage lies between 0 and 1, and the lost-call
    average is not negative. *)
Theorem metrics_in_range primary_list th AMBULANCE_NUMBER STATIONS_NUMBER
    iterations g m g' :
  (1 <= iterations)%Z ->
  fitness_function np_random_exponential generate_calls primary_list th
    AMBULANCE_NUMBER STATIONS_NUMBER iterations g = Returns (m, g') ->
  exists a b c,
    m = {| median_response_time := Finite a;
           coverage := Finite b;
           lost_calls := Finite c |} /\
    (0 <= a)%R /\ (0 <= b <= 1)%R /\ (0 <= c)%R.
Proof.
  intros Hit H. unfold fitness_function in H.
  apply bind_Returns_inv in H as ([os g1] & Hreps & H). injection H as <- <-.
  apply replications_inv in Hreps as [Hlen Hall].
  assert (Hne : os <> []) by (destruct os; [simpl in Hlen; lia|done]).
  assert (Hos : Forall (fun o => (0 <= med o)%R /\ (0 <= cov o <= 1)%R /\
                                 (0 <= lost_count o)%Z) os).
  { apply Forall_forall. intros o Ho.
    destruct (Hall o Ho) as (gk & gn & Hrep).
    apply replication_in_range in Hrep as (Hm & Hc & Hl & _). done. }
  exists (mean (map med os)), (mean (map cov os)),
         (mean (map (fun o => IZR (lost_count o)) os)).
  split.
  { unfold aggregate. by destruct os. }
  split; [|split; [split|]].
  - apply mean_at_least; [by destruct os|].
    apply Forall_fmap. eapply Forall_impl; [exact Hos|]. by intros o (? & _).
  - apply mean_at_least; [by destruct os|].
    apply Forall_fmap. eapply Forall_impl; [exact Hos|]. by intros o (_ & [? _] & _).
  - apply mean_at_most; [by destruct os|].
    apply Forall_fmap. eapply Forall_impl; [exact Hos|]. by intros o (_ & [_ ?] & _).
  - apply mean_at_least; [by destruct os|].
    apply Forall_fmap. eapply Forall_impl; [exact Hos|].
    intros o (_ & _ & ?). simpl. by apply IZR_le.
Qed.

End Ranges.

Lemma metrics_in_range_witness :
  exists a b c,
    scenario_metrics = {| median_response_time := Finite a;
                          coverage := Finite b;
                          lost_calls := Finite c |} /\
    (0 <= a)%R /\ (0 <= b <= 1)%R /\ (0 <= c)%R.
Proof.
  apply (metrics_in_range scale_as_sample one_call_stream [] 0 1 3 1 tt
           scenario_metrics tt).
  - lia.
  - apply scenario_fitness.
Defined.

(** ** Thresholds that switch the reposition policy off *)

Section PolicyOff.
Context {RandomState : Type}.
Variable np_random_exponential : R -> RandomState -> R * RandomState.
Variable generate_calls : RandomState -> list Call * RandomState.

Lemma low_threshold_turn stations hospitals table table' th th'
    (st : SimState RandomState) :
  (th <= 1)%Z -> (th' <= 1)%Z -> counter_sound st ->
  loop_body np_random_exponential stations hospitals table th st
  = loop_body np_random_exponential stations hospitals table' th' st.
Proof.
  intros Hth Hth' Hsound. unfold loop_body.
  destruct (events st) as [|[t treat lat lon hos|t amb_id] rest] eqn:Hev;
    [done..|].
  unfold counter_sound in Hsound. rewrite Hev in Hsound. simpl in Hsound.
  destruct Hsound as [Hpos|[_ ?]]; [|done].
  unfold release.
  destruct (Z.ltb_spec (current_state st + 1) th); [lia|].
  destruct (Z.ltb_spec (current_state st + 1) th'); [lia|]. done.
Qed.

Lemma low_threshold_run stations hospitals table table' th th' fuel :
  (th <= 1)%Z -> (th' <= 1)%Z ->
  forall st : SimState RandomState, counter_sound st ->
  event_loop np_random_exponential stations hospitals table th fuel st
  = event_loop np_random_exponential stations hospitals table' th' fuel st.
Proof.
  intros Hth Hth'. induction fuel as [|fuel IH]; intros st Hsound; [done|].
  simpl. destruct (events st) eqn:Hev; [done|].
  rewrite <- (low_threshold_turn stations hospitals table table' th th' st)
    by done.
  destruct (loop_body np_random_exponential stations hospitals table th st)
    as [st1| |] eqn:Hstep; [|done..].
  simpl. apply IH. by eapply counter_sound_step.
Qed.

Lemma low_threshold_replication table table' th th' AMBULANCE_NUMBER
    STATIONS_NUMBER g :
  (th <= 1)%Z -> (th' <= 1)%Z ->
  replication np_random_exponential generate_calls table th
    AMBULANCE_NUMBER STATIONS_NUMBER g
  = replication np_random_exponential generate_calls table' th'
      AMBULANCE_NUMBER STATIONS_NUMBER g.
Proof.
  intros Hth Hth'. unfold replication.
  destruct (fixed_location_generator AMBULANCE_NUMBER STATIONS_NUMBER 5)
    as [[[fleet stations] hospitals]| |] eqn:Hgen; [|done..].
  cbn [mbind outcome_bind].
  rewrite (low_threshold_run stations hospitals table table' th th'); [done..|].
  by eapply (counter_sound_initial generate_calls stations hospitals).
Qed.

(** X12.  Every threshold of at most 1 switches the reposition policy
    off: the counter after a release is at least 1, so the branch
    [current_state < th] is never taken and the table is never read.  With
    such thresholds [fitness_function] returns the same outcome (metrics and
    generator state, or exception) whatever the policy and whichever of
    these thresholds it is given. *)
Theorem low_threshold_ignores_policy primary_list primary_list' th th'
    AMBULANCE_NUMBER STATIONS_NUMBER iterations g :
  (th <= 1)%Z -> (th' <= 1)%Z ->
  fitness_function np_random_exponential generate_calls primary_list th
    AMBULANCE_NUMBER STATIONS_NUMBER iterations g
  = fitness_function np_random_exponential generate_calls primary_list' th'
      AMBULANCE_NUMBER STATIONS_NUMBER iterations g.
Proof.
  intros Hth Hth'. unfold fitness_function.
  enough (H : forall n g,
            replications np_random_exponential generate_calls n
              (build_table primary_list) th AMBULANCE_NUMBER STATIONS_NUMBER g
            = replications np_random_exponential generate_calls n
                (build_table primary_list') th' AMBULANCE_NUMBER STATIONS_NUMBER g)
    by (by rewrite H).
  induction n as [|n IH]; intros g0; [done|]. cbn [replications].
  rewrite (low_threshold_replication _ (build_table primary_list') th th')
    by done.
  destruct (replication _ _ _ _ _ _ _) as [[o g1]| |]; [|done..].
  cbn [mbind outcome_bind]. by rewrite IH.
Qed.

End PolicyOff.

Lemma low_threshold_ignores_policy_witness :
  fitness_function scale_as_sample one_call_stream [] 0 1 3 1 tt
  = fitness_function scale_as_sample one_call_stream [2; 9]%Z 1 1 3 1 tt.
Proof.
  apply (low_threshold_ignores_policy scale_as_sample one_call_stream
           [] [2; 9]%Z 0 1 1 3 1 tt); lia.
Defined.

(** ** The reposition branch *)

Section Nearest.
Context {RandomState : Type}.
Variables (stations : list Site.t) (reposition_table : list (list Z)) (th : Z).




End Nearest.

(** ** What a turn does to the generator *)

Section Draws.
Context {RandomState : Type}.
Variable np_random_exponential : R -> RandomState -> R * RandomState.
Variables (stations hospitals : list Site.t).
Variable reposition_table : list (list Z).
Variable th : Z.

(** X14.  One turn of the event loop draws from the generator at most
    once, and only for the hospital treatment time: the generator advances
    by one [np.random.exponential(35)] when a call that needs hospital
    transport ([hos = 1]) is dispatched, and is untouched by every other
    turn (a lost call, a dispatch without transport, a free event). *)
Theorem generator_advances_only_on_hand_off (st st' : SimState RandomState) :
  loop_body np_random_exponential stations hospitals reposition_table th st
    = Returns st' ->
  match events st with
  | CallEvent _ _ _ _ hos :: _ =>
      (current_state st <> 0%Z -> hos = 1%R ->
       rng st' = (np_random_exponential 35 (rng st)).2) /\
      (current_state st = 0%Z \/ hos <> 1%R -> rng st' = rng st)
  | _ => rng st' = rng st
  end.
Proof.
  intros Hstep.
  destruct (step_cases _ _ _ _ _ _ _ Hstep)
    as [[-> ->]|[(t & treat & lat & lon & hos & rest & Hev & Hc & ->)
       |[(t & treat & lat & lon & hos & rest & Hev & Hc & Hd)
        |(t & amb_id & rest & Hev & Hr)]]]; [done|..]; rewrite Hev.
  - done.
  - apply dispatch_inv in Hd as (k & p & a & d1 & _ & _ & _ & Hst').
    destruct Hst' as [(Hh & hd & _ & ->)|(Hh & ->)]; simpl.
    + split; [done|]. by intros [?|?].
    + done.
  - by apply release_inv in Hr as (p & a & amb' & _ & _ & _ & _ & _ & ->).
Qed.

End Draws.

(** ** Order of the queue *)

Section QueueOrder.
Context {RandomState : Type}.
Variable np_random_exponential : R -> RandomState -> R * RandomState.
Variable generate_calls : RandomState -> list Call * RandomState.

(** X15.  On a queue sorted by time, [insort] splits the queue in two and
    puts the new event in between: the events before it are exactly those
    that are not later than the new one (so an event of equal time stays
    ahead of it, as with [bisect_right]), and the events after it are
    exactly those that are strictly later. *)
Theorem insort_after_ties e evs :
  StronglySorted not_later evs ->
  exists before after,
    evs = before ++ after /\
    insort e evs = before ++ e :: after /\
    Forall (fun x => (time x <= time e)%R) before /\
    Forall (fun x => (time e < time x)%R) after.
Proof.
  induction 1 as [|x xs Hs (before & after & Hxs & Hins & Hb & Ha) Hall]; simpl.
  - exists [], []. repeat split; constructor.
  - destruct (Rlt_dec (time e) (time x)) as [Hlt|Hge].
    + exists [], (x :: xs). repeat split; [constructor|].
      constructor; [done|]. eapply Forall_impl; [exact Hall|].
      unfold not_later. intros y Hy. lra.
    + exists (x :: before), after. rewrite Hins, Hxs. repeat split; [|done].
      constructor; [lra|done].
Qed.

(** X16.  In every reachable state of a replication the event popped next
    is an earliest one: no event left in the queue has a smaller time, and
    the rest of the queue is sorted by time. *)
Theorem earliest_event_is_popped table th AMBULANCE_NUMBER STATIONS_NUMBER
    stations hospitals (st : SimState RandomState) e rest :
  reachable np_random_exponential generate_calls table th
    AMBULANCE_NUMBER STATIONS_NUMBER stations hospitals st ->
  events st = e :: rest ->
  Forall (fun x => (time e <= time x)%R) rest /\
  StronglySorted not_later rest.
Proof.
  intros Hreach Hev. apply reachable_queue_sorted in Hreach.
  rewrite Hev in Hreach. apply StronglySorted_inv in Hreach as [Hs Hall].
  done.
Qed.

Lemma insort_last e evs :
  Forall (fun x => (time x <= time e)%R) evs -> insort e evs = evs ++ [e].
Proof.
  induction 1 as [|x xs Hx _ IH]; simpl; [done|].
  destruct (Rlt_dec (time e) (time x)); [lra|]. by rewrite IH.
Qed.

(** X17.  Calls that come in non-decreasing time order are queued in that
    order by the [insort] loop that fills the event list: the queue the
    event loop starts from is the list of calls itself, calls of equal time
    in their order of arrival. *)
Theorem calls_in_time_order_queue_as_they_come calls :
  StronglySorted (fun c c' => (call_time c <= call_time c')%R) calls ->
  initial_events calls = map call_event calls.
Proof.
  unfold initial_events.
  enough (H : forall evs,
            Forall (fun x => Forall (fun c => (time x <= call_time c)%R) calls) evs ->
            StronglySorted (fun c c' => (call_time c <= call_time c')%R) calls ->
            foldl (fun evs c => insort (call_event c) evs) evs calls
            = evs ++ map call_event calls)
    by (intros Hs; by apply (H [])).
  induction calls as [|c cs IH]; intros evs Hevs Hs; simpl;
    [by rewrite app_nil_r|].
  apply StronglySorted_inv in Hs as [Hs Hc].
  rewrite insort_last.
  - rewrite IH; [by rewrite <- app_assoc| |done].
    apply Forall_app. split.
    + eapply Forall_impl; [exact Hevs|]. intros x Hx.
      by apply Forall_cons in Hx as [_ ?].
    + by repeat constructor.
  - eapply Forall_impl; [exact Hevs|]. intros x Hx.
    by apply Forall_cons in Hx as [? _].
Qed.

End QueueOrder.

(** ** Arguments the function rejects *)

Section Rejected.
Context {RandomState : Type}.
Variable np_random_exponential : R -> RandomState -> R * RandomState.
Variable generate_calls : RandomState -> list Call * RandomState.

Lemma first_replication_raises primary_list th AMBULANCE_NUMBER STATIONS_NUMBER
    iterations g e :
  (1 <= iterations)%Z ->
  replication np_random_exponential generate_calls (build_table primary_list) th
    AMBULANCE_NUMBER STATIONS_NUMBER g = Raises e ->
  fitness_function np_random_exponential generate_calls primary_list th
    AMBULANCE_NUMBER STATIONS_NUMBER iterations g = Raises e.
Proof.
  intros Hit Hrep. unfold fitness_function.
  replace (Z.to_nat iterations) with (S (Z.to_nat (iterations - 1))) by lia.
  cbn [replications]. by rewrite Hrep.
Qed.

Lemma empty_fleet_raises stations hospitals table th AMBULANCE_NUMBER calls
    (g : RandomState) :
  (AMBULANCE_NUMBER < 0)%Z -> calls <> [] ->
  event_loop np_random_exponential stations hospitals table th
    (queue_weight (initial_events calls))
    (initial_state [] AMBULANCE_NUMBER calls g)
  = Raises ValueError.
Proof.
  intros Hneg Hcalls.
  pose proof (pending_initial_events calls) as Hpend.
  pose proof (length_initial_events calls) as Hlen.
  set (st0 := initial_state [] AMBULANCE_NUMBER calls g).
  change (initial_events calls) with (events st0) in *.
  destruct (events st0) as [|[t treat lat lon hos|t amb_id] rest] eqn:Hev;
    [|clear Hpend Hlen|done].
  - destruct calls; [done|]. simpl in Hlen. lia.
  - change (queue_weight (CallEvent t treat lat lon hos :: rest))
      with (S (S (queue_weight rest))).
    cbn [event_loop]. rewrite Hev.
    rewrite (step_call _ _ _ _ _ _ _ _ _ _ _ _ Hev).
    change (current_state st0) with AMBULANCE_NUMBER.
    destruct (Z.eqb_spec AMBULANCE_NUMBER 0); [lia|]. done.
Qed.

(** X18.  With at least one replication, [fitness_function] raises at its
    first replication: [IndexError] for more than 17 stations,
    [AssertionError] for more than 16 ambulances (and at most 17 stations),
    and [ValueError] for a negative ambulance count as soon as the call
    stream holds a call (the fleet is empty, the counter is not 0, and
    [np.argmin] is applied to an empty list). *)
Theorem fitness_function_rejects primary_list th AMBULANCE_NUMBER
    STATIONS_NUMBER iterations g :
  (1 <= iterations)%Z ->
  ((17 < STATIONS_NUMBER)%Z ->
   fitness_function np_random_exponential generate_calls primary_list th
     AMBULANCE_NUMBER STATIONS_NUMBER iterations g = Raises IndexError) /\
  ((STATIONS_NUMBER <= 17)%Z -> (16 < AMBULANCE_NUMBER)%Z ->
   fitness_function np_random_exponential generate_calls primary_list th
     AMBULANCE_NUMBER STATIONS_NUMBER iterations g = Raises AssertionError) /\
  ((STATIONS_NUMBER <= 17)%Z -> (AMBULANCE_NUMBER < 0)%Z ->
   (generate_calls g).1 <> [] ->
   fitness_function np_random_exponential generate_calls primary_list th
     AMBULANCE_NUMBER STATIONS_NUMBER iterations g = Raises ValueError).
Proof.
  intros Hit. split; [|split].
  - intros Hs. apply first_replication_raises; [done|]. unfold replication.
    by rewrite generator_station_overrun.
  - intros Hs Ha. apply first_replication_raises; [done|]. unfold replication.
    by rewrite generator_assertion.
  - intros Hs Ha Hcalls. apply first_replication_raises; [done|].
    unfold replication.
    destruct (generator_returns AMBULANCE_NUMBER STATIONS_NUMBER)
      as (fleet & ss & hs & Hgen & _); [lia..|].
    rewrite Hgen. cbn [mbind outcome_bind].
    apply generator_fleet in Hgen as [Hlen _].
    assert (fleet = []) as -> by (apply nil_length_inv; lia).
    pose proof (empty_fleet_raises ss hs (build_table primary_list) th
                  AMBULANCE_NUMBER _ (generate_calls g).2 Ha Hcalls) as Hloop.
    cbv zeta. cbn [events initial_state] in *. by rewrite Hloop.
Qed.

(** X19.  With [iterations <= 0] no replication runs: [fitness_function]
    returns NaN for each of the three metrics ([np.mean] of an empty list),
    whatever the other arguments are, and leaves the generators as they
    were. *)
Theorem no_replication_gives_nan primary_list th AMBULANCE_NUMBER
    STATIONS_NUMBER iterations g :
  (iterations <= 0)%Z ->
  fitness_function np_random_exponential generate_calls primary_list th
    AMBULANCE_NUMBER STATIONS_NUMBER iterations g
  = Returns ({| median_response_time := NaN; coverage := NaN; lost_calls := NaN |},
             g).
Proof.
  intros Hit. unfold fitness_function.
  replace (Z.to_nat iterations) with 0 by lia. reflexivity.
Qed.

End Rejected.

Lemma fitness_function_rejects_witness :
  fitness_function scale_as_sample one_call_stream [] 0 1 18 1 tt
    = Raises IndexError /\
  fitness_function scale_as_sample one_call_stream [] 0 17 17 1 tt
    = Raises AssertionError /\
  fitness_function scale_as_sample one_call_stream [] 0 (-1) 3 1 tt
    = Raises ValueError.
Proof.
  destruct (fitness_function_rejects scale_as_sample one_call_stream
              [] 0 1 18 1 tt ltac:(lia)) as (Hstations & _).
  destruct (fitness_function_rejects scale_as_sample one_call_stream
              [] 0 17 17 1 tt ltac:(lia)) as (_ & Hassert & _).
  destruct (fitness_function_rejects scale_as_sample one_call_stream
              [] 0 (-1) 3 1 tt ltac:(lia)) as (_ & _ & Hfleet).
  split; [apply Hstations; lia|].
  split; [apply Hassert; lia|].
  apply Hfleet; [lia|lia|done].
Defined.

Lemma no_replication_gives_nan_witness :
  fitness_function scale_as_sample one_call_stream [2; 9]%Z 3 16 17 0 tt
  = Returns ({| median_response_time := NaN; coverage := NaN; lost_calls := NaN |},
             tt).
Proof.
  apply (no_replication_gives_nan scale_as_sample one_call_stream
           [2; 9]%Z 3 16 17 0 tt).
  lia.
Defined.

(** ** Synthetic calls: the arrival rate *)

Section ArrivalRate.
Local Open Scope R_scope.

Lemma day_of_index k :
  exists day, py_getitem days (k mod 7) = Returns day.
Proof.
  assert (H : (k mod 7 = 0 \/ k mod 7 = 1 \/ k mod 7 = 2 \/ k mod 7 = 3 \/
               k mod 7 = 4 \/ k mod 7 = 5 \/ k mod 7 = 6)%Z)
    by (pose proof (Z.mod_pos_bound k 7); lia).
  destruct H as [->|[->|[->|[->|[->|[->| ->]]]]]]; eexists; reflexivity.
Qed.

Lemma rate_bounds shift day :
  0.11864 <= LAMBDA_BASE shift * day_mult day <= 0.35604.
Proof. destruct shift, day; simpl; lra. Qed.

Lemma py_floordiv_week t :
  py_floordiv (t + 7 * 24 * 60) (24 * 60) = (py_floordiv t (24 * 60) + 7)%Z.
Proof.
  unfold py_floordiv. rewrite <- Zfloor_addz. f_equal. field.
Qed.

Lemma py_mod_week t : py_mod (t + 7 * 24 * 60) (24 * 60) = py_mod t (24 * 60).
Proof. unfold py_mod. rewrite py_floordiv_week, plus_IZR. lra. Qed.

Lemma py_mod_range x y : 0 < y -> 0 <= py_mod x y < y.
Proof.
  intros Hy. unfold py_mod, py_floordiv.
  pose proof (Zfloor_bound (x / y)) as [Hlo Hhi].
  assert (Hx : x = y * (x / y)) by (field; lra).
  split.
  - assert (y * IZR (Zfloor (x / y)) <= y * (x / y))
      by (apply Rmult_le_compat_l; lra).
    lra.
  - assert (y * (x / y) < y * (IZR (Zfloor (x / y)) + 1))
      by (apply Rmult_lt_compat_l; lra).
    lra.
Qed.

Lemma arrival_rate_returns t :
  exists lam, arrival_rate t = Returns lam /\ 0.11864 <= lam <= 0.35604.
Proof.
  unfold arrival_rate.
  destruct (day_of_index (py_floordiv t (24 * 60))) as [day ->].
  cbn [mbind outcome_bind]. eexists. split; [done|]. apply rate_bounds.
Qed.

Lemma arrival_rate_week t : arrival_rate (t + 7 * 24 * 60) = arrival_rate t.
Proof.
  unfold arrival_rate. rewrite py_floordiv_week, py_mod_week.
  replace ((py_floordiv t (24 * 60) + 7) mod 7)%Z
    with (py_floordiv t (24 * 60) mod 7)%Z
    by (rewrite <- (Z.mod_add _ 1 7) by lia; f_equal; lia).
  done.
Qed.

(** X20.  At every clock value the loop of [generate_interarrivals] finds
    its day and shift (neither lookup can fail) and an arrival rate between
    0.11864 and 0.35604 calls per minute, so the scale [1 / lam] of the
    draw is defined; the rate repeats with a period of one week. *)
Theorem arrival_rate_weekly t :
  exists lam,
    arrival_rate t = Returns lam /\
    0.11864 <= lam <= 0.35604 /\
    arrival_rate (t + 7 * 24 * 60) = Returns lam.
Proof.
  destruct (arrival_rate_returns t) as (lam & Hlam & Hrange).
  exists lam. by rewrite arrival_rate_week.
Qed.

End ArrivalRate.

(** ** Synthetic calls: the interarrival times *)

Section Interarrivals.
Context {RandomState : Type}.
Variable np_random_exponential : R -> RandomState -> R * RandomState.
Local Open Scope R_scope.

Lemma interarrivals_from_inv fuel : forall total_sim t (g : RandomState) l g',
  interarrivals_from np_random_exponential fuel total_sim t g = Returns (l, g') ->
  IZR total_sim <= t + Rsum l /\
  (forall k, (k < length l)%nat -> t + Rsum (take k l) < IZR total_sim) /\
  (l = [] -> g' = g).
Proof.
  induction fuel as [|fuel IH]; intros total_sim t g l g' H; simpl in H;
    destruct (Rlt_dec t (IZR total_sim)) as [Hlt|Hge]; try done.
  - injection H as <- <-. simpl. split; [lra|]. split; [|done].
    intros k Hk. simpl in Hk. lia.
  - apply bind_Returns_inv in H as (lam & _ & H).
    apply bind_Returns_inv in H as ([rest g1] & Hrest & H).
    injection H as <- <-.
    apply IH in Hrest as (Hsum & Hpre & _).
    cbn [Rsum foldr]. fold (Rsum rest). split; [lra|]. split; [|done].
    intros [|k] Hk; simpl; [lra|]. fold (Rsum (take k rest)).
    simpl in Hk. specialize (Hpre k ltac:(lia)). lra.
  - injection H as <- <-. simpl. split; [lra|]. split; [|done].
    intros k Hk. simpl in Hk. lia.
Qed.

Lemma interarrivals_from_returns delta :
  0 < delta ->
  (forall lam g, 0.11864 <= lam <= 0.35604 ->
     delta <= (np_random_exponential (1 / lam) g).1) ->
  forall fuel total_sim t (g : RandomState),
  IZR total_sim - t <= INR fuel * delta ->
  exists l g', interarrivals_from np_random_exponential fuel total_sim t g
               = Returns (l, g').
Proof.
  intros Hdelta Hdraw.
  induction fuel as [|fuel IH]; intros total_sim t g Hfuel; simpl;
    destruct (Rlt_dec t (IZR total_sim)) as [Hlt|Hge]; eauto.
  - simpl in Hfuel. lra.
  - destruct (arrival_rate_returns t) as (lam & -> & Hlam).
    cbn [mbind outcome_bind].
    destruct (IH total_sim (t + (np_random_exponential (1 / lam) g).1)
                (np_random_exponential (1 / lam) g).2) as (l & g' & ->).
    + rewrite S_INR in Hfuel. specialize (Hdraw lam g Hlam). lra.
    + simpl. eauto.
Qed.

(** X21.  [generate_interarrivals] draws until the clock reaches the
    horizon of [total_days] days: the interarrival times it returns sum to
    at least [total_days * 24 * 60] minutes, while every proper prefix of
    them sums to less; there is at least one of them when [total_days] is
    positive, and none (and no draw) otherwise.  The loop ends as soon as
    the samples drawn at the rates of the model have a positive lower
    bound. *)
Theorem interarrivals_reach_horizon fuel total_days (g : RandomState) :
  (forall delta, 0 < delta ->
     (forall lam g, 0.11864 <= lam <= 0.35604 ->
        delta <= (np_random_exponential (1 / lam) g).1) ->
     IZR (total_days * 24 * 60) <= INR fuel * delta ->
     exists l g', generate_interarrivals np_random_exponential fuel total_days g
                  = Returns (l, g')) /\
  forall l g',
  generate_interarrivals np_random_exponential fuel total_days g
    = Returns (l, g') ->
  IZR (total_days * 24 * 60) <= Rsum l /\
  (forall k, (k < length l)%nat -> Rsum (take k l) < IZR (total_days * 24 * 60)) /\
  ((0 < total_days)%Z -> l <> []) /\
  ((total_days <= 0)%Z -> l = [] /\ g' = g).
Proof.
  unfold generate_interarrivals. split.
  { intros delta Hdelta Hdraw Hfuel.
    apply (interarrivals_from_returns delta Hdelta Hdraw). lra. }
  intros l g' H.
  pose proof (interarrivals_from_inv _ _ _ _ _ _ H) as (Hsum & Hpre & Hnil).
  split; [lra|]. split; [intros k Hk; specialize (Hpre k Hk); lra|].
  split.
  - intros Hd -> . simpl in Hsum.
    assert (0 < IZR (total_days * 24 * 60)) by (apply IZR_lt; lia). lra.
  - intros Hd.
    assert (Hl : l = []).
    { destruct l as [|x xs]; [done|].
      specialize (Hpre 0%nat ltac:(simpl; lia)). simpl in Hpre.
      assert (IZR (total_days * 24 * 60) <= 0) by (apply IZR_le; lia). lra. }
    split; [done|]. by apply Hnil.
Qed.

End Interarrivals.

(** ** Synthetic calls: the list of calls *)

Section Calls.
Context {RandomState : Type}.
Variable np_random_exponential : R -> RandomState -> R * RandomState.
Variable np_random_uniform : R -> R -> RandomState -> R * RandomState.
Variable random_random : RandomState -> R * RandomState.
Local Open Scope R_scope.

Lemma length_draws {A : Type} n (draw : RandomState -> A * RandomState) g :
  length (draws n draw g).1 = n.
Proof. revert g. induction n as [|n IH]; intros g; simpl; [done|]. by rewrite IH. Qed.

Lemma draws_Forall {A : Type} (P : A -> Prop) n
    (draw : RandomState -> A * RandomState) g :
  (forall g, P (draw g).1) -> Forall P (draws n draw g).1.
Proof.
  intros Hdraw. revert g. induction n as [|n IH]; intros g; simpl;
    constructor; [apply Hdraw|apply IH].
Qed.

Lemma hospital_draw_flag (g : RandomState) :
  (hospital_draw random_random g).1 = 0%Z \/
  (hospital_draw random_random g).1 = 1%Z.
Proof. unfold hospital_draw. simpl. destruct (Rlt_dec _ _); auto. Qed.

Lemma build_calls_returns treat_times coords hospital_req interarrivals :
  forall i t,
  (i + length interarrivals <= length treat_times)%nat ->
  (i + length interarrivals <= length coords)%nat ->
  (i + length interarrivals <= length hospital_req)%nat ->
  exists calls,
    build_calls treat_times coords hospital_req i t interarrivals = Returns calls /\
    length calls = length interarrivals /\
    forall k c, calls !! k = Some c ->
      call_time c = t + Rsum (take (S k) interarrivals) /\
      treat_times !! (i + k)%nat = Some (call_treat c) /\
      coords !! (i + k)%nat = Some (call_lat c, call_lon c) /\
      exists h, hospital_req !! (i + k)%nat = Some h /\ call_hos c = IZR h.
Proof.
  induction interarrivals as [|ia rest IH]; intros i t Ht Hc Hh.
  - exists []. repeat split; try done.
  - simpl in Ht, Hc, Hh. cbn [build_calls].
    destruct (lookup_lt_is_Some_2 coords i ltac:(lia)) as [[lat lon] Hlat].
    destruct (lookup_lt_is_Some_2 treat_times i ltac:(lia)) as [treat Htreat].
    destruct (lookup_lt_is_Some_2 hospital_req i ltac:(lia)) as [hos Hhos].
    rewrite (py_getitem_nat _ _ _ Hlat). cbn [mbind outcome_bind].
    rewrite (py_getitem_nat _ _ _ Htreat). cbn [mbind outcome_bind].
    rewrite (py_getitem_nat _ _ _ Hhos). cbn [mbind outcome_bind].
    destruct (IH (S i) (t + ia)) as (calls & -> & Hlen & Hcalls); [lia..|].
    cbn [mbind outcome_bind]. eexists. split; [done|].
    split; [simpl; by rewrite Hlen|].
    intros [|k] c Hk; simpl in Hk.
    + injection Hk as <-. simpl. rewrite Nat.add_0_r.
      repeat split; try done; [lra|eauto].
    + destruct (Hcalls k c Hk) as (Htime & ? & ? & ?).
      replace (i + S k)%nat with (S i + k)%nat by lia.
      repeat split; try done.
      rewrite Htime. cbn [take Rsum foldr]. fold (Rsum (take (S k) rest)). lra.
Qed.

Lemma build_calls_sorted treat_times coords hospital_req interarrivals :
  forall i t calls,
  Forall (Rle 0) interarrivals ->
  build_calls treat_times coords hospital_req i t interarrivals = Returns calls ->
  Forall (fun c => t <= call_time c) calls /\
  StronglySorted (fun c c' => call_time c <= call_time c') calls.
Proof.
  induction interarrivals as [|ia rest IH]; intros i t calls Hpos H.
  - injection H as <-. split; constructor.
  - apply Forall_cons in Hpos as [Hia Hpos]. cbn [build_calls] in H.
    apply bind_Returns_inv in H as ([lat lon] & _ & H).
    apply bind_Returns_inv in H as (treat & _ & H).
    apply bind_Returns_inv in H as (hos & _ & H).
    apply bind_Returns_inv in H as (calls' & Hcalls & H).
    injection H as <-.
    destruct (IH _ _ _ Hpos Hcalls) as [Hlow Hsorted].
    split.
    + constructor; [simpl; lra|].
      eapply Forall_impl; [exact Hlow|]. intros c Hc. simpl in Hc. lra.
    + by constructor.
Qed.

(** X22.  Once the interarrival times are drawn, the calls of a
    replication are built without an exception: one call per interarrival
    time, at the running sum of the times up to its own, with a hospital
    flag that is 0 or 1.  Every call but the last arrives before minute
    50400 (35 days) and the last one at or after it; when no interarrival
    time is negative the calls come in non-decreasing time order. *)
Theorem synthetic_calls_follow_interarrivals fuel (g : RandomState)
    interarrivals g1 :
  generate_interarrivals np_random_exponential fuel 35 g
    = Returns (interarrivals, g1) ->
  exists calls g',
    synthetic_calls np_random_exponential np_random_uniform random_random fuel g
      = Returns (calls, g') /\
    length calls = length interarrivals /\
    (forall k c, calls !! k = Some c ->
       call_time c = Rsum (take (S k) interarrivals) /\
       (call_hos c = 0 \/ call_hos c = 1) /\
       ((S k < length calls)%nat -> call_time c < 50400) /\
       (S k = length calls -> 50400 <= call_time c)) /\
    (Forall (Rle 0) interarrivals ->
     StronglySorted (fun c c' => call_time c <= call_time c') calls).
Proof.
  intros Hgen. unfold synthetic_calls. rewrite Hgen. cbn [mbind outcome_bind].
  set (n := length interarrivals).
  set (treat_times := draws n (np_random_exponential (1 / 15)) g1).
  set (coords := synthetic_call_locations np_random_uniform n treat_times.2).
  set (hospital_req := draws n (hospital_draw random_random) coords.2).
  destruct (build_calls_returns treat_times.1 coords.1 hospital_req.1
              interarrivals 0 0) as (calls & Hcalls & Hlen & Hshape).
  { subst treat_times. by rewrite length_draws. }
  { subst coords. unfold synthetic_call_locations. simpl.
    rewrite length_zip, !length_draws. subst n. lia. }
  { subst hospital_req. by rewrite length_draws. }
  rewrite Hcalls. cbn [mbind outcome_bind].
  exists calls, hospital_req.2. split; [done|]. split; [done|].
  unfold generate_interarrivals in Hgen.
  apply interarrivals_from_inv in Hgen as (Hsum & Hpre & _).
  change (IZR (35 * 24 * 60)) with 50400 in *.
  split.
  - intros k c Hk. destruct (Hshape k c Hk) as (Htime & _ & _ & h & Hh & Hhos).
    rewrite Rplus_0_l in Htime. split; [done|]. split; [|split].
    + assert (Hflag : Forall (fun h => h = 0%Z \/ h = 1%Z) hospital_req.1)
        by apply draws_Forall, hospital_draw_flag.
      rewrite Forall_forall in Hflag.
      destruct (Hflag h) as [->| ->]; [by eapply list_elem_of_lookup_2|auto..].
    + intros Hlt. rewrite Htime. specialize (Hpre (S k) ltac:(lia)). lra.
    + intros Hlast. rewrite Htime, Hlast, Hlen, firstn_all. lra.
  - intros Hpos. by eapply build_calls_sorted.
Qed.

End Calls.

Lemma scale_sample_bound (lam : R) (g : unit) :
  (0.11864 <= lam <= 0.35604)%R -> (2 <= (scale_as_sample (1 / lam) g).1)%R.
Proof.
  intros Hlam. simpl. unfold Rdiv. rewrite Rmult_1_l.
  apply Rmult_le_reg_r with lam; [lra|]. rewrite Rinv_l by lra. lra.
Qed.

Lemma interarrivals_reach_horizon_witness :
  exists l g',
    generate_interarrivals scale_as_sample (Z.to_nat 720) 1 tt = Returns (l, g') /\
    (IZR (1 * 24 * 60) <= Rsum l)%R /\
    (forall k, k < length l -> (Rsum (take k l) < IZR (1 * 24 * 60))%R) /\
    ((0 < 1)%Z -> l <> []) /\
    ((1 <= 0)%Z -> l = [] /\ g' = tt).
Proof.
  destruct (interarrivals_reach_horizon scale_as_sample (Z.to_nat 720) 1 tt)
    as [Hreturns Hreach].
  destruct (Hreturns 2%R) as (l & g' & Hgen).
  - lra.
  - apply scale_sample_bound.
  - rewrite INR_IZR_INZ, Z2Nat.id by lia.
    change (1 * 24 * 60)%Z with 1440%Z. lra.
  - exists l, g'. split; [exact Hgen|]. exact (Hreach l g' Hgen).
Defined.

Lemma synthetic_calls_follow_interarrivals_witness :
  exists interarrivals calls g',
    synthetic_calls scale_as_sample low_as_sample half_as_sample
      (Z.to_nat 25200) tt = Returns (calls, g') /\
    length calls = length interarrivals /\
    (forall k c, calls !! k = Some c ->
       call_time c = Rsum (take (S k) interarrivals) /\
       (call_hos c = 0 \/ call_hos c = 1)%R /\
       (S k < length calls -> (call_time c < 50400)%R) /\
       (S k = length calls -> (50400 <= call_time c)%R)) /\
    (Forall (Rle 0) interarrivals ->
     StronglySorted (fun c c' => (call_time c <= call_time c')%R) calls).
Proof.
  destruct (interarrivals_from_returns scale_as_sample 2%R ltac:(lra)
              scale_sample_bound (Z.to_nat 25200) (35 * 24 * 60) 0%R tt)
    as (l & g1 & Hgen).
  { rewrite INR_IZR_INZ, Z2Nat.id by lia.
    change (35 * 24 * 60)%Z with 50400%Z. lra. }
  exists l.
  exact (synthetic_calls_follow_interarrivals scale_as_sample low_as_sample
           half_as_sample (Z.to_nat 25200) tt l g1 Hgen).
Defined.

(** * Runs of the scenarios *)

(** ** GeoModel: points at different latitudes *)

Section Positive.
Local Open Scope R_scope.

Lemma atan2_positive y x : 0 < y -> 0 <= x -> 0 < atan2 y x.
Proof.
  intros Hy Hx. unfold atan2. pose proof PI_RGT_0 as Hpi.
  destruct (Rlt_dec 0 x) as [Hpos|Hnpos].
  - assert (0 < y / x) by (apply Rmult_lt_0_compat; [lra|by apply Rinv_0_lt_compat]).
    pose proof (atan_increasing 0 (y / x) ltac:(lra)) as Hinc.
    rewrite atan_0 in Hinc. lra.
  - destruct (Rlt_dec x 0); [lra|]. destruct (Rlt_dec 0 y); lra.
Qed.

(** Two points of different latitude are a positive distance apart. *)
Lemma haversine_positive lat1 lon1 lat2 lon2 :
  -90 <= lat1 <= 90 -> -90 <= lat2 <= 90 -> lat1 <> lat2 ->
  0 < distance_km lat1 lon1 lat2 lon2.
Proof.
  intros H1 H2 Hne. unfold distance_km. cbv zeta.
  pose proof PI_RGT_0 as Hpi.
  set (h := (radians lat2 - radians lat1) / 2).
  assert (Hh : h = (lat2 - lat1) * (PI / 360)) by (unfold h, radians; lra).
  assert (Hsin : 0 < sin h ^ 2).
  { assert (Hs : sin h <> 0).
    { destruct (Rlt_or_le 0 (lat2 - lat1)) as [Hpos|Hneg].
      - assert (0 < h < PI) by (rewrite Hh; split; nra).
        pose proof (sin_gt_0 h). lra.
      - assert (0 < - h < PI) by (rewrite Hh; split; nra).
        pose proof (sin_gt_0 (- h)). rewrite sin_neg in *. lra. }
    assert (0 <= sin h ^ 2) by apply pow2_ge_0.
    assert (sin h ^ 2 <> 0) by (by apply pow_nonzero). lra. }
  assert (Hcos : forall lat, -90 <= lat <= 90 -> 0 <= cos (radians lat)).
  { intros lat Hlat. apply cos_ge_0; unfold radians; nra. }
  set (a := sin h ^ 2 + _).
  assert (Ha : 0 < a).
  { unfold a.
    assert (0 <= cos (radians lat1) * cos (radians lat2)
                 * sin ((radians lon2 - radians lon1) / 2) ^ 2).
    { apply Rmult_le_pos; [apply Rmult_le_pos; by apply Hcos|apply pow2_ge_0]. }
    lra. }
  pose proof (atan2_positive (sqrt a) (sqrt (1 - a))
                (sqrt_lt_R0 a Ha) (sqrt_pos _)).
  lra.
Qed.

End Positive.

(** ** The call stream on the counting generator *)

Section CycleStream.
Local Open Scope R_scope.

Lemma cycle_interarrivals_long fuel t g :
  0 <= t < 50400 -> (g mod 4 =? 1)%nat = false ->
  interarrivals_from cycle_exponential (S fuel) (35 * 24 * 60) t g
  = Returns ([60000], S g).
Proof.
  intros Ht Hg. cbn [interarrivals_from].
  change (IZR (35 * 24 * 60)) with 50400.
  destruct (Rlt_dec t 50400); [|lra].
  destruct (arrival_rate_returns t) as (lam & -> & _).
  cbn [mbind outcome_bind cycle_exponential fst snd]. rewrite Hg.
  assert (Hdone : interarrivals_from cycle_exponential fuel (35 * 24 * 60)
                    (t + 60000) (S g) = Returns ([], S g)).
  { destruct fuel; cbn [interarrivals_from];
      change (IZR (35 * 24 * 60)) with 50400;
      destruct (Rlt_dec (t + 60000) 50400); (lra || reflexivity). }
  rewrite Hdone. reflexivity.
Qed.

Lemma cycle_interarrivals_short g :
  (g mod 4 =? 1)%nat = true ->
  interarrivals_from cycle_exponential 2 (35 * 24 * 60) 0 g
  = Returns ([5000; 60000], S (S g)).
Proof.
  intros Hg. cbn [interarrivals_from].
  change (IZR (35 * 24 * 60)) with 50400.
  destruct (Rlt_dec 0 50400); [|lra].
  destruct (arrival_rate_returns 0) as (lam & -> & _).
  cbn [mbind outcome_bind cycle_exponential fst snd]. rewrite Hg.
  destruct (Rlt_dec (0 + 5000) 50400); [|lra].
  destruct (arrival_rate_returns (0 + 5000)) as (lam' & -> & _).
  cbn [mbind outcome_bind cycle_exponential fst snd].
  assert (Hnext : (S g mod 4 =? 1)%nat = false).
  { apply Nat.eqb_eq in Hg. apply Nat.eqb_neq.
    pose proof (Nat.div_mod_eq g 4). pose proof (Nat.div_mod_eq (S g) 4).
    pose proof (Nat.mod_upper_bound (S g) 4). lia. }
  rewrite Hnext.
  destruct (Rlt_dec (0 + 5000 + 60000) 50400); [lra|]. reflexivity.
Qed.

(** The two streams of the run that starts at the seed state 31. *)
Lemma cycle_calls_first :
  cycle_calls 31
  = ([{| call_time := 0 + 60000; call_treat := 60000; call_lat := 53.35;
         call_lon := -113.75; call_hos := 1 |}], 36%nat).
Proof.
  unfold cycle_calls, synthetic_calls, generate_interarrivals.
  rewrite (cycle_interarrivals_long 1 0 31); [|lra|reflexivity].
  cbn. destruct (Rlt_dec 0.5 0.7); [|lra]. reflexivity.
Qed.

Lemma cycle_calls_second :
  cycle_calls 37
  = ([{| call_time := 0 + 5000; call_treat := 60000; call_lat := 53.35;
         call_lon := -113.75; call_hos := 1 |};
      {| call_time := 0 + 5000 + 60000; call_treat := 60000; call_lat := 53.35;
         call_lon := -113.75; call_hos := 0 |}], 47%nat).
Proof.
  unfold cycle_calls, synthetic_calls, generate_interarrivals.
  rewrite (cycle_interarrivals_short 37); [|reflexivity].
  cbn. destruct (Rlt_dec 0.5 0.7); [|lra].
  destruct (Rlt_dec 0.9 0.7); [lra|]. reflexivity.
Qed.

(** The stream is the one [synthetic_calls] builds, at every state. *)
Lemma cycle_calls_model g :
  synthetic_calls cycle_exponential cycle_uniform cycle_random 2 g
  = Returns (cycle_calls g).
Proof.
  assert (exists l g1, generate_interarrivals cycle_exponential 2 35 g
                       = Returns (l, g1)) as (l & g1 & Hgen).
  { unfold generate_interarrivals. destruct (g mod 4 =? 1)%nat eqn:Hg.
    - rewrite cycle_interarrivals_short by done. eauto.
    - rewrite (cycle_interarrivals_long 1 0 g) by (done || lra). eauto. }
  unfold cycle_calls, synthetic_calls. rewrite Hgen. cbn [mbind outcome_bind].
  match goal with |- context [build_calls ?tr ?co ?ho 0%nat 0 l] =>
    destruct (build_calls_returns tr co ho l 0%nat 0) as (calls & Hcalls & _)
  end.
  - by rewrite length_draws.
  - unfold synthetic_call_locations. simpl.
    rewrite length_zip, !length_draws. lia.
  - by rewrite length_draws.
  - rewrite Hcalls. reflexivity.
Qed.

End CycleStream.

(** ** The two replications of the run from state 31 *)

Section CycleRun.
Local Open Scope R_scope.

Lemma cycle_legs_nonneg : 0 <= cycle_t1 /\ 0 <= cycle_t2.
Proof. split; apply travel_time_nonneg. Qed.

Lemma cycle_first_dispatch stations table th :
  loop_body cycle_exponential stations five_hospitals table th cycle_first_start
  = Returns cycle_first_sent.
Proof.
  unfold loop_body, cycle_first_start. cbn [events current_state Z.eqb].
  unfold dispatch. cbn [ambulances].
  change (pool [scenario_unit]) with [(0%nat, scenario_unit)].
  cbn.
  destruct (Req_dec_T 1 1) as [_|H]; [|lra].
  destruct (Rge_dec (0 + 60000) warmup) as [_|H]; [|unfold warmup in H; lra].
  reflexivity.
Qed.

Lemma cycle_first_release stations table :
  loop_body cycle_exponential stations five_hospitals table 0 cycle_first_sent
  = Returns cycle_first_end.
Proof. reflexivity. Qed.

Lemma cycle_first_run stations table :
  event_loop cycle_exponential stations five_hospitals table 0 2 cycle_first_start
  = Returns cycle_first_end.
Proof.
  rewrite (event_loop_turn _ _ _ _ _ _ _ cycle_first_sent);
    [|done|apply cycle_first_dispatch].
  rewrite (event_loop_turn _ _ _ _ _ _ _ cycle_first_end);
    [|done|apply cycle_first_release].
  reflexivity.
Qed.

Lemma insort_after_one e x :
  time x <= time e -> insort e [x] = [x; e].
Proof. intros H. simpl. destruct (Rlt_dec (time e) (time x)); [lra|done]. Qed.

Lemma cycle_second_dispatch stations table th :
  loop_body cycle_exponential stations five_hospitals table th cycle_second_start
  = Returns cycle_second_sent.
Proof.
  unfold loop_body, cycle_second_start. cbn [events current_state Z.eqb].
  unfold dispatch. cbn [ambulances].
  change (pool [scenario_unit]) with [(0%nat, scenario_unit)].
  cbn -[insort].
  change (py_getitem [(0%nat, scenario_unit)] (Z.of_nat 0))
    with (Returns (0%nat, scenario_unit)).
  cbn -[insort].
  destruct (Req_dec_T 1 1) as [_|H]; [|lra].
  destruct (Rge_dec (0 + 5000) warmup) as [H|_]; [unfold warmup in H; lra|].
  rewrite insort_after_one; [reflexivity|].
  cbn [time].
  repeat match goal with
  | |- context [get_travel_time_minutes ?d] =>
      lazymatch goal with
      | _ : 0 <= get_travel_time_minutes d |- _ => fail
      | _ => pose proof (travel_time_nonneg d)
      end
  end.
  lra.
Qed.

Lemma cycle_second_loss stations table th :
  loop_body cycle_exponential stations five_hospitals table th cycle_second_sent
  = Returns cycle_second_lost.
Proof.
  unfold loop_body, cycle_second_sent, lose_call. cbn.
  destruct (Rge_dec (0 + 5000 + 60000) warmup) as [_|H];
    [|unfold warmup in H; lra].
  reflexivity.
Qed.

Lemma cycle_second_release stations table :
  loop_body cycle_exponential stations five_hospitals table 0 cycle_second_lost
  = Returns cycle_second_end.
Proof. reflexivity. Qed.

Lemma cycle_second_run stations table :
  event_loop cycle_exponential stations five_hospitals table 0 4 cycle_second_start
  = Returns cycle_second_end.
Proof.
  rewrite (event_loop_turn _ _ _ _ _ _ _ cycle_second_sent);
    [|done|apply cycle_second_dispatch].
  rewrite (event_loop_turn _ _ _ _ _ _ _ cycle_second_lost);
    [|done|apply cycle_second_loss].
  rewrite (event_loop_turn _ _ _ _ _ _ _ cycle_second_end);
    [|done|apply cycle_second_release].
  reflexivity.
Qed.

Lemma cycle_first_replication table :
  replication cycle_exponential cycle_calls table 0 1 3 31%nat
  = Returns (cycle_first, 37%nat).
Proof.
  unfold replication. rewrite three_station_generator. cbn [mbind outcome_bind].
  rewrite cycle_calls_first. cbn [fst snd].
  change (initial_state [scenario_unit] 1 _ 36%nat) with cycle_first_start.
  change (queue_weight (events cycle_first_start)) with 2%nat.
  rewrite cycle_first_run. reflexivity.
Qed.

Lemma cycle_second_initial :
  initial_state [scenario_unit] 1
    [{| call_time := 0 + 5000; call_treat := 60000;
        call_lat := 53.35; call_lon := -113.75; call_hos := 1 |};
     {| call_time := 0 + 5000 + 60000; call_treat := 60000;
        call_lat := 53.35; call_lon := -113.75; call_hos := 0 |}]
    47%nat
  = cycle_second_start.
Proof.
  unfold initial_state, initial_events. cbn [foldl].
  change (insort _ []) with [CallEvent (0 + 5000) 60000 53.35 (-113.75) 1].
  rewrite insort_after_one; [reflexivity|]. simpl. lra.
Qed.

Lemma cycle_second_replication table :
  replication cycle_exponential cycle_calls table 0 1 3 37%nat
  = Returns (cycle_second, 48%nat).
Proof.
  unfold replication. rewrite three_station_generator. cbn [mbind outcome_bind].
  rewrite cycle_calls_second. cbn [fst snd]. rewrite cycle_second_initial.
  change (queue_weight (events cycle_second_start)) with 4%nat.
  rewrite cycle_second_run. reflexivity.
Qed.

Lemma cycle_second_reachable table th :
  reachable cycle_exponential cycle_calls table th 1 3 three_stations
    five_hospitals cycle_second_sent.
Proof.
  eapply reachable_turn; [|apply cycle_second_dispatch].
  pose proof (reachable_initial nat cycle_exponential cycle_calls table th 1 3
                three_stations five_hospitals _ 37%nat three_station_generator)
    as H.
  rewrite cycle_calls_second in H. cbn [fst snd] in H.
  by rewrite cycle_second_initial in H.
Qed.

Lemma cycle_fitness_first :
  fitness_function cycle_exponential cycle_calls [] 0 1 3 1 31%nat
  = Returns (aggregate [cycle_first], 37%nat).
Proof.
  unfold fitness_function. change (Z.to_nat 1) with 1%nat. cbn [replications].
  rewrite cycle_first_replication. reflexivity.
Qed.

Lemma cycle_fitness_second :
  fitness_function cycle_exponential cycle_calls [] 0 1 3 1 37%nat
  = Returns (aggregate [cycle_second], 48%nat).
Proof.
  unfold fitness_function. change (Z.to_nat 1) with 1%nat. cbn [replications].
  rewrite cycle_second_replication. reflexivity.
Qed.

Lemma cycle_fitness_both :
  fitness_function cycle_exponential cycle_calls [] 0 1 3 2 31%nat
  = Returns (aggregate [cycle_first; cycle_second], 48%nat).
Proof.
  unfold fitness_function. change (Z.to_nat 2) with 2%nat. cbn [replications].
  rewrite cycle_first_replication. cbn [mbind outcome_bind].
  rewrite cycle_second_replication. reflexivity.
Qed.


End CycleRun.

(** ** Fleets of two and of four units, and a unit sent back *)

Section BurstRun.
Local Open Scope R_scope.

Lemma burst_interarrivals :
  interarrivals_from burst_exponential 3 (35 * 24 * 60) 0 1%nat
  = Returns ([20000; 20000; 60000], 4%nat).
Proof.
  cbn [interarrivals_from].
  change (IZR (35 * 24 * 60)) with 50400.
  destruct (Rlt_dec 0 50400); [|lra].
  destruct (arrival_rate_returns 0) as (lam & -> & _).
  cbn [mbind outcome_bind burst_exponential fst snd Nat.ltb Nat.leb].
  destruct (Rlt_dec (0 + 20000) 50400); [|lra].
  destruct (arrival_rate_returns (0 + 20000)) as (lam' & -> & _).
  cbn [mbind outcome_bind burst_exponential fst snd Nat.ltb Nat.leb].
  destruct (Rlt_dec (0 + 20000 + 20000) 50400); [|lra].
  destruct (arrival_rate_returns (0 + 20000 + 20000)) as (lam'' & -> & _).
  cbn [mbind outcome_bind burst_exponential fst snd Nat.ltb Nat.leb].
  destruct (Rlt_dec (0 + 20000 + 20000 + 60000) 50400); [lra|]. reflexivity.
Qed.

Lemma burst_calls_start :
  burst_calls 1%nat
  = ([{| call_time := 0 + 20000; call_treat := 60000; call_lat := 53.35;
         call_lon := -113.75; call_hos := 1 |};
      {| call_time := 0 + 20000 + 20000; call_treat := 60000; call_lat := 53.35;
         call_lon := -113.75; call_hos := 0 |};
      {| call_time := 0 + 20000 + 20000 + 60000; call_treat := 60000;
         call_lat := 53.35; call_lon := -113.75; call_hos := 1 |}], 16%nat).
Proof.
  unfold burst_calls, synthetic_calls, generate_interarrivals.
  rewrite burst_interarrivals.
  cbn. destruct (Rlt_dec 0.5 0.7); [|lra].
  destruct (Rlt_dec 0.9 0.7); [lra|]. reflexivity.
Qed.

Lemma burst_initial :
  initial_state [scenario_unit] 1 (burst_calls 1%nat).1 (burst_calls 1%nat).2
  = burst_start.
Proof.
  rewrite burst_calls_start. cbn [fst snd].
  unfold initial_state, initial_events. cbn [foldl].
  change (insort _ []) with [CallEvent (0 + 20000) 60000 53.35 (-113.75) 1].
  rewrite insort_after_one by (simpl; lra).
  rewrite insort_last; [reflexivity|].
  repeat constructor; simpl; lra.
Qed.

Lemma burst_dispatch stations table th :
  loop_body burst_exponential stations five_hospitals table th burst_start
  = Returns burst_sent.
Proof.
  unfold loop_body, burst_start. cbn [events current_state Z.eqb].
  unfold dispatch. cbn [ambulances].
  change (pool [scenario_unit]) with [(0%nat, scenario_unit)].
  cbn -[insort].
  change (py_getitem [(0%nat, scenario_unit)] (Z.of_nat 0))
    with (Returns (0%nat, scenario_unit)).
  cbn -[insort].
  destruct (Req_dec_T 1 1) as [_|H]; [|lra].
  destruct (Rge_dec (0 + 20000) warmup) as [_|H]; [|unfold warmup in H; lra].
  rewrite insort_last; [reflexivity|].
  repeat constructor; cbn [time];
    repeat match goal with
    | |- context [get_travel_time_minutes ?d] =>
        lazymatch goal with
        | _ : 0 <= get_travel_time_minutes d |- _ => fail
        | _ => pose proof (travel_time_nonneg d)
        end
    end; lra.
Qed.

Lemma burst_reachable table th :
  reachable burst_exponential burst_calls table th 1 3 three_stations
    five_hospitals burst_sent.
Proof.
  eapply reachable_turn; [|apply burst_dispatch].
  pose proof (reachable_initial nat burst_exponential burst_calls table th 1 3
                three_stations five_hospitals _ 1%nat three_station_generator)
    as H.
  by rewrite burst_initial in H.
Qed.

End BurstRun.

Section Fleets.
Local Open Scope R_scope.

Lemma pair_generator :
  fixed_location_generator 2 3 5
  = Returns ([scenario_unit; pair_unit], three_stations, five_hospitals).
Proof. reflexivity. Qed.

Lemma pair_dispatch stations table th :
  loop_body cycle_exponential stations five_hospitals table th pair_start
  = Returns pair_sent.
Proof.
  unfold loop_body, pair_start. cbn [events current_state Z.eqb].
  unfold dispatch. cbn [ambulances].
  change (pool [scenario_unit; pair_unit])
    with [(0%nat, scenario_unit); (1%nat, pair_unit)].
  cbn [scene_distances map fst snd Amb.latitude Amb.longitude scenario_unit
         pair_unit np_argmin argmin_from py_min min_from].
  destruct (Rlt_dec _ _) as [H|_]; [lra|].
  cbn.
  destruct (Req_dec_T 1 1) as [_|H]; [|lra].
  destruct (Rge_dec (0 + 60000) warmup) as [_|H]; [|unfold warmup in H; lra].
  reflexivity.
Qed.

Lemma pair_reachable table th :
  reachable cycle_exponential cycle_calls table th 2 3 three_stations
    five_hospitals pair_sent.
Proof.
  eapply reachable_turn; [|apply pair_dispatch].
  pose proof (reachable_initial nat cycle_exponential cycle_calls table th 2 3
                three_stations five_hospitals _ 31%nat pair_generator) as H.
  by rewrite cycle_calls_first in H.
Qed.

Lemma home_to_scene_positive :
  0 < distance_km 53.596919 (-113.420168) 53.35 (-113.75).
Proof. apply haversine_positive; lra. Qed.

Lemma crowd_dispatch stations hospitals table th :
  loop_body cycle_exponential stations hospitals table th crowd_start
  = Returns crowd_sent.
Proof.
  unfold loop_body, crowd_start. cbn [events current_state Z.eqb].
  unfold dispatch. cbn [ambulances].
  change (pool _)
    with [(0%nat, scenario_unit); (2%nat, Amb.Build 2 1 53.35 (-113.75));
          (3%nat, Amb.Build 3 1 53.35 (-113.75))].
  cbn [scene_distances map fst snd Amb.latitude Amb.longitude scenario_unit
         np_argmin argmin_from py_min min_from].
  pose proof home_to_scene_positive as Hfar.
  pose proof (haversine_same_point 53.35 (-113.75)) as Hnear.
  destruct (Rlt_dec (distance_km 53.35 (-113.75) 53.35 (-113.75))
              (distance_km 53.596919 (-113.420168) 53.35 (-113.75)))
    as [_|H]; [|lra].
  destruct (Rlt_dec (distance_km 53.35 (-113.75) 53.35 (-113.75))
              (distance_km 53.35 (-113.75) 53.35 (-113.75)))
    as [H|_]; [lra|].
  cbn -[insort distance_km].
  destruct (Req_dec_T 0 1) as [H|_]; [lra|].
  destruct (Rge_dec 70000 warmup) as [_|H]; [|unfold warmup in H; lra].
  cbn [insort time].
  destruct (Rlt_dec _ 70010) as [_|H]; [reflexivity|].
  exfalso. apply H. rewrite Hnear, travel_time_on_site by lra. lra.
Qed.



Lemma negative_generator :
  fixed_location_generator (-1) 3 5 = Returns ([], three_stations, five_hospitals).
Proof. reflexivity. Qed.

Lemma negative_reachable table th :
  reachable cycle_exponential cycle_calls table th (-1) 3 three_stations
    five_hospitals negative_start.
Proof.
  pose proof (reachable_initial nat cycle_exponential cycle_calls table th (-1) 3
                three_stations five_hospitals _ 31%nat negative_generator) as H.
  by rewrite cycle_calls_first in H.
Qed.

End Fleets.

(** ** Determinism and the process-wide generators *)

Section Threads.
Context {RandomState : Type}.
Variable np_random_exponential : R -> RandomState -> R * RandomState.
Variable generate_calls : RandomState -> list Call * RandomState.

Local Abbreviation drawn k g := (hand_offs np_random_exponential k g).

Lemma hospital_insort e evs :
  length (filter hospital_call (insort e evs))
  = length (filter hospital_call (e :: evs)).
Proof. apply Permutation_length. by rewrite insort_perm. Qed.

Lemma draws_step stations hospitals table th g0 n
    (st st' : SimState RandomState) :
  (exists k, rng st = drawn k g0 /\
             k + length (filter hospital_call (events st)) <= n) ->
  loop_body np_random_exponential stations hospitals table th st = Returns st' ->
  exists k, rng st' = drawn k g0 /\
            k + length (filter hospital_call (events st')) <= n.
Proof.
  intros (k & Hk & Hn) Hstep.
  destruct (step_cases _ _ _ _ _ _ _ Hstep)
    as [[_ ->]|[(t & treat & lat & lon & hos & rest & Hev & Hc & ->)
       |[(t & treat & lat & lon & hos & rest & Hev & Hc & Hd)
        |(t & amb_id & rest & Hev & Hr)]]]; [by exists k|..];
    rewrite Hev, filter_cons in Hn.
  - exists k. split; [done|]. simpl.
    destruct (decide (hospital_call _)); simpl in Hn; lia.
  - apply dispatch_inv in Hd as (j & p & a & d1 & _ & _ & _ & Hst').
    destruct Hst' as [(Hh & hd & _ & ->)|(Hh & ->)]; simpl;
      rewrite hospital_insort, filter_cons; simpl.
    + exists (S k). split; [simpl; by rewrite <- Hk|].
      rewrite decide_True in Hn by exact Hh. simpl in Hn. lia.
    + exists k. split; [done|].
      rewrite decide_False in Hn by exact Hh. done.
  - apply release_inv in Hr as (p & a & amb' & _ & _ & _ & _ & _ & ->).
    exists k. split; [done|]. simpl in *. done.
Qed.

Lemma hospital_calls_events calls :
  length (filter hospital_call (initial_events calls))
  = length (filter needs_hospital calls).
Proof.
  rewrite (Permutation_length (filter_Permutation _ _ _ (initial_events_perm calls))).
  induction calls as [|c cs IH]; [done|].
  cbn [map]. rewrite !filter_cons.
  destruct (decide (needs_hospital c)) as [Hc|Hc].
  - rewrite decide_True by exact Hc. simpl. by rewrite IH.
  - rewrite decide_False by exact Hc. done.
Qed.

Lemma replication_draws table th AMBULANCE_NUMBER STATIONS_NUMBER g o g1 :
  replication np_random_exponential generate_calls table th
    AMBULANCE_NUMBER STATIONS_NUMBER g = Returns (o, g1) ->
  exists k, g1 = drawn k (generate_calls g).2 /\
            k <= length (filter needs_hospital (generate_calls g).1).
Proof.
  intros H.
  apply replication_inv in H as (fleet & ss & hs & st & _ & Hrun & Hdone & _ & ->).
  pose proof (run_invariant np_random_exponential ss hs table th
              (fun st => exists k, rng st = drawn k (generate_calls g).2 /\
                 k + length (filter hospital_call (events st))
                 <= length (filter needs_hospital (generate_calls g).1))
              (draws_step ss hs table th (generate_calls g).2
                 (length (filter needs_hospital (generate_calls g).1)))) as Hinv.
  apply Hinv in Hrun as [(k & Hk & Hn) _].
  2: { exists 0. split; [done|]. simpl. by rewrite hospital_calls_events. }
  exists k. split; [done|]. lia.
Qed.

Lemma replications_chain n table th AMBULANCE_NUMBER STATIONS_NUMBER :
  forall g os g',
  replications np_random_exponential generate_calls n table th
    AMBULANCE_NUMBER STATIONS_NUMBER g = Returns (os, g') ->
  exists gs,
    length gs = S n /\ gs !! 0 = Some g /\ gs !! n = Some g' /\
    length os = n /\
    forall i o, os !! i = Some o ->
      exists gi gi',
        gs !! i = Some gi /\ gs !! S i = Some gi' /\
        replication np_random_exponential generate_calls table th
          AMBULANCE_NUMBER STATIONS_NUMBER gi = Returns (o, gi').
Proof.
  induction n as [|n IH]; intros g os g' H; simpl in H.
  - injection H as <- <-. exists [g]. repeat split; try done.
  - apply bind_Returns_inv in H as ([o g1] & Hrep & H).
    apply bind_Returns_inv in H as ([os' g2] & Hreps & H).
    injection H as <- <-.
    destruct (IH _ _ _ Hreps) as (gs & Hlen & Hhead & Hlast & Hos & Hchain).
    exists (g :: gs). split; [simpl; by rewrite Hlen|].
    split; [done|]. split; [done|]. split; [simpl; by rewrite Hos|].
    intros [|i] o' Ho'; simpl in Ho'.
    + injection Ho' as <-. by exists g, g1.
    + destruct (Hchain i o' Ho') as (gi & gi' & ? & ? & ?). by exists gi, gi'.
Qed.

Variable seed : Z -> RandomState.

(** C2, as the code has it.  The result of [fitness_function] is a function
    of its arguments and of the state of the process-wide generators when it
    is entered, and that state is threaded through the replications: there
    is a chain of generator states, from the entry state to the state
    returned to the process, one link per replication; each replication
    runs from the state at its link and leaves the state after the draws of
    its call stream followed by one hand-off draw per dispatched call that
    needed hospital transport.  No replication and no call is seeded on its
    own: the second call of a process starts from the state the first one
    left. *)
Theorem generator_state_threads_through_replications primary_list th
    AMBULANCE_NUMBER STATIONS_NUMBER iterations g :
  (forall m g',
     fitness_function np_random_exponential generate_calls primary_list th
       AMBULANCE_NUMBER STATIONS_NUMBER iterations g = Returns (m, g') ->
     exists (gs : list RandomState) (os : list Observation),
       m = aggregate os /\
       length os = Z.to_nat iterations /\
       length gs = S (Z.to_nat iterations) /\
       gs !! 0 = Some g /\
       gs !! Z.to_nat iterations = Some g' /\
       forall i o, os !! i = Some o ->
         exists gi gi' k,
           gs !! i = Some gi /\ gs !! S i = Some gi' /\
           replication np_random_exponential generate_calls
             (build_table primary_list) th AMBULANCE_NUMBER STATIONS_NUMBER gi
             = Returns (o, gi') /\
           gi' = drawn k (generate_calls gi).2 /\
           k <= length (filter needs_hospital (generate_calls gi).1)) /\
  (forall m1 m2,
     first_two_calls np_random_exponential seed generate_calls primary_list th
       AMBULANCE_NUMBER STATIONS_NUMBER iterations = Returns (m1, m2) ->
     exists g1 g2,
       fitness_function np_random_exponential generate_calls primary_list th
         AMBULANCE_NUMBER STATIONS_NUMBER iterations (seed SEED)
         = Returns (m1, g1) /\
       fitness_function np_random_exponential generate_calls primary_list th
         AMBULANCE_NUMBER STATIONS_NUMBER iterations g1 = Returns (m2, g2)).
Proof.
  split.
  - unfold fitness_function. intros m g' H.
    apply bind_Returns_inv in H as ([os g2] & Hreps & H). injection H as <- <-.
    apply replications_chain in Hreps
      as (gs & Hlen & Hhead & Hlast & Hos & Hchain).
    exists gs, os. repeat (split; [done|]).
    intros i o Ho. destruct (Hchain i o Ho) as (gi & gi' & Hi & Hi' & Hrep).
    destruct (replication_draws _ _ _ _ _ _ _ Hrep) as (k & Hk & Hle).
    by exists gi, gi', k.
  - unfold first_two_calls, state_at_import. intros m1 m2 H.
    apply bind_Returns_inv in H as ([m1' g1] & Hfirst & H).
    apply bind_Returns_inv in H as ([m2' g2] & Hsecond & H).
    injection H as <- <-. by exists g1, g2.
Qed.

End Threads.

Lemma cycle_two_calls :
  first_two_calls cycle_exponential counter_seed cycle_calls [] 0 1 3 1
  = Returns (aggregate [cycle_first], aggregate [cycle_second]).
Proof.
  unfold first_two_calls, state_at_import.
  change (counter_seed SEED) with 31%nat. rewrite cycle_fitness_first.
  cbn [mbind outcome_bind]. by rewrite cycle_fitness_second.
Qed.

Lemma generator_state_threads_through_replications_witness :
  (exists (gs : list nat) (os : list Observation),
     aggregate [cycle_first; cycle_second] = aggregate os /\
     length os = Z.to_nat 2 /\
     length gs = S (Z.to_nat 2) /\
     gs !! 0 = Some 31 /\
     gs !! Z.to_nat 2 = Some 48 /\
     forall i o, os !! i = Some o ->
       exists gi gi' k,
         gs !! i = Some gi /\ gs !! S i = Some gi' /\
         replication cycle_exponential cycle_calls (build_table []) 0 1 3 gi
           = Returns (o, gi') /\
         gi' = hand_offs cycle_exponential k (cycle_calls gi).2 /\
         k <= length (filter needs_hospital (cycle_calls gi).1)) /\
  (exists g1 g2,
     fitness_function cycle_exponential cycle_calls [] 0 1 3 1
       (counter_seed SEED) = Returns (aggregate [cycle_first], g1) /\
     fitness_function cycle_exponential cycle_calls [] 0 1 3 1 g1
       = Returns (aggregate [cycle_second], g2)).
Proof.
  destruct (generator_state_threads_through_replications cycle_exponential
              cycle_calls counter_seed [] 0 1 3 2 31%nat) as [Hchain _].
  destruct (generator_state_threads_through_replications cycle_exponential
              cycle_calls counter_seed [] 0 1 3 1 31%nat) as [_ Hcalls].
  split; [exact (Hchain _ _ cycle_fitness_both)|].
  exact (Hcalls _ _ cycle_two_calls).
Defined.

(** C2, as stated, fails: on the counting generator, seeded with [SEED] as
    the module does, the first two calls of a process with the same
    arguments (one replication each, one unit, three stations) return
    different metrics.  The first call sees one call of the stream and loses
    none; the second starts from the generator state the first one left,
    sees two calls and loses one. *)
Lemma identical_calls_disagree :
  first_two_calls cycle_exponential counter_seed cycle_calls [] 0 1 3 1
    = Returns (aggregate [cycle_first], aggregate [cycle_second]) /\
  lost_calls (aggregate [cycle_first]) = Finite (0 / 1) /\
  lost_calls (aggregate [cycle_second]) = Finite (1 / 1) /\
  aggregate [cycle_first] <> aggregate [cycle_second].
Proof.
  split; [apply cycle_two_calls|]. split; [|split].
  - unfold aggregate, np_mean, mean. simpl. f_equal. lra.
  - unfold aggregate, np_mean, mean. simpl. f_equal. lra.
  - unfold aggregate, cycle_first, cycle_second, np_mean, mean.
    simpl. intros [= _ _ H]. lra.
Qed.

(** ** The claims on the scenarios *)

Lemma silent_fitness :
  fitness_function cycle_exponential silent_stream [] 0 1 3 2 31%nat
  = Returns (aggregate [{| med := 999.0; cov := 0.0; lost_count := 0 |};
                        {| med := 999.0; cov := 0.0; lost_count := 0 |}],
             31%nat).
Proof. reflexivity. Qed.

Lemma metrics_average_replications_witness :
  (exists m g',
     fitness_function cycle_exponential cycle_calls [] 0 1 3 2 31%nat
     = Returns (m, g')) /\
  (exists os : list Observation,
    replications cycle_exponential cycle_calls (Z.to_nat 2)
      (build_table []) 0 1 3 31%nat
      = Returns (os, 48%nat) /\
    length os = Z.to_nat 2 /\
    (forall o, o ∈ os ->
       exists gk fleet stations hospitals st,
         fixed_location_generator 1 3 5
           = Returns (fleet, stations, hospitals) /\
         event_loop cycle_exponential stations hospitals
           (build_table []) 0
           (queue_weight (initial_events (cycle_calls gk).1))
           (initial_state fleet 1
              (cycle_calls gk).1 (cycle_calls gk).2) = Returns st /\
         events st = [] /\
         lost_count o = lost st /\
         (travel_times st = [] -> med o = 999%R /\ cov o = 0%R) /\
         (travel_times st <> [] ->
            (exists s,
               Permutation s (travel_times st) /\ StronglySorted Rle s /\
               (Nat.even (length s) = false -> s !! (length s / 2) = Some (med o)) /\
               (Nat.even (length s) = true ->
                  exists a b, s !! (length s / 2 - 1) = Some a /\
                              s !! (length s / 2) = Some b /\
                              med o = ((a + b) / 2)%R)) /\
            cov o = (INR (length (filter (fun t => (t <= 9)%R) (travel_times st)))
                     / INR (length (travel_times st)))%R)) /\
    median_response_time (aggregate [cycle_first; cycle_second])
      = Finite (Rsum (map med os) / IZR 2) /\
    coverage (aggregate [cycle_first; cycle_second])
      = Finite (Rsum (map cov os) / IZR 2) /\
    lost_calls (aggregate [cycle_first; cycle_second])
      = Finite (Rsum (map (fun o => IZR (lost_count o)) os) / IZR 2)) /\
  fitness_function cycle_exponential silent_stream [] 0 1 3 2 31%nat
  = Returns ({| median_response_time := Finite 999;
                coverage := Finite 0;
                lost_calls := Finite 0 |}, 31%nat).
Proof.
  destruct (metrics_average_replications cycle_exponential cycle_calls
              [] 0 1 3 2 31%nat) as [Hreturns Hmeans].
  destruct (metrics_average_replications cycle_exponential silent_stream
              [] 0 1 3 2 31%nat) as [_ Hsilent].
  split; [apply Hreturns; lia|]. split.
  - destruct (Hmeans _ _ cycle_fitness_both)
      as (os & Hreps & Hlen & Hobs & _ & _ & _ & Hfinite & _).
    destruct Hfinite as (Hmed & Hcov & Hlost); [lia|].
    exists os. split; [exact Hreps|]. split; [exact Hlen|].
    split; [|by rewrite Hmed, Hcov, Hlost].
    intros o Ho.
    destruct (Hobs o Ho)
      as (gk & fleet & stations & hospitals & st & Hgen & Hrun & Hend & Hl
          & Hnone & Hsome & _).
    by exists gk, fleet, stations, hospitals, st.
  - destruct (Hsilent _ _ silent_fitness)
      as (os & _ & _ & _ & _ & _ & _ & _ & Hempty).
    rewrite silent_fitness. f_equal. f_equal. apply Hempty; [lia|done].
Defined.

Lemma dispatch_selects_nearest_witness :
  let fleet := ambulances crowd_start in
  let km (b : Amb.t) :=
    distance_km (Amb.latitude b) (Amb.longitude b) 53.35 (-113.75) in
  loop_body cycle_exponential three_stations five_hospitals [] 0 crowd_start
    = Returns crowd_sent /\
  pool fleet = [(0, scenario_unit); (2, Amb.Build 2 1 53.35 (-113.75));
                (3, Amb.Build 3 1 53.35 (-113.75))] /\
  (0 < km scenario_unit)%R /\
  exists p a,
    (p, a) ∈ pool fleet /\
    fleet !! p = Some a /\
    (forall q b, (q, b) ∈ pool fleet -> (km a <= km b)%R) /\
    (forall q b, (q, b) ∈ pool fleet -> q < p -> (km a < km b)%R) /\
    ambulances crowd_sent !! p = Some (Amb.Build (Amb.id a) 0 53.35 (-113.75)) /\
    (forall q, q <> p -> ambulances crowd_sent !! q = fleet !! q) /\
    length (ambulances crowd_sent) = length fleet /\
    current_state crowd_sent = (current_state crowd_start - 1)%Z.
Proof.
  destruct (dispatch_selects_nearest cycle_exponential three_stations
              five_hospitals [] 0 crowd_start 70000 5 53.35 (-113.75) 0
              [FreeEvent 70010 1])
    as (_ & _ & _ & Hsent).
  - reflexivity.
  - simpl. lia.
  - split; [apply crowd_dispatch|]. split; [reflexivity|].
    split; [apply home_to_scene_positive|].
    apply Hsent, crowd_dispatch.
Defined.

Lemma dispatch_schedules_one_free_witness :
  loop_body cycle_exponential three_stations five_hospitals [] 0 cycle_first_start
    = Returns cycle_first_sent /\
  exists k p a finish,
    pool (ambulances cycle_first_start) !! k = Some (p, a) /\
    let d1 := distance_km (Amb.latitude a) (Amb.longitude a) 53.35 (-113.75) in
    let to_hospital (h : Site.t) :=
      distance_km 53.35 (-113.75) (Site.latitude h) (Site.longitude h) in
    is_first_min
      (scene_distances (pool (ambulances cycle_first_start)) 53.35 (-113.75))
      k d1 /\
    (forall q b, (q, b) ∈ pool (ambulances cycle_first_start) ->
       (d1 <= distance_km (Amb.latitude b) (Amb.longitude b) 53.35 (-113.75))%R) /\
    (exists j h,
       five_hospitals !! j = Some h /\
       is_first_min (hospital_distances five_hospitals 53.35 (-113.75)) j
         (to_hospital h) /\
       (forall h', h' ∈ five_hospitals -> (to_hospital h <= to_hospital h')%R) /\
       finish = (0 + 60000 + get_travel_time_minutes d1 + 60000
                 + get_travel_time_minutes (to_hospital h)
                 + (cycle_exponential 35 (rng cycle_first_start)).1)%R) /\
    events cycle_first_sent = insort (FreeEvent finish (Amb.id a)) [] /\
    Permutation (events cycle_first_sent) [FreeEvent finish (Amb.id a)].
Proof.
  destruct (dispatch_schedules_one_free cycle_exponential three_stations
              five_hospitals [] 0 cycle_first_start (0 + 60000) 60000
              53.35 (-113.75) 1 [])
    as (_ & Hfree).
  - reflexivity.
  - simpl. lia.
  - split; [apply cycle_first_dispatch|].
    destruct (Hfree _ (cycle_first_dispatch _ _ _))
      as (k & p & a & finish & Hpa & Hmin & Hnear & _ & Hhos & Hev & Hperm).
    exists k, p, a, finish. cbv zeta.
    split; [done|]. split; [done|]. split; [done|].
    split; [by apply Hhos|]. done.
Defined.

Lemma counter_matches_available_flags_witness :
  current_state pair_sent = 1%Z /\
  filter flagged_available (ambulances pair_sent) = [pair_unit] /\
  current_state pair_sent
    = Z.of_nat (length (filter flagged_available (ambulances pair_sent))) /\
  available (ambulances pair_sent) <> [] /\
  pool (ambulances pair_sent) = available (ambulances pair_sent).
Proof.
  destruct (counter_matches_available_flags cycle_exponential cycle_calls
              three_stations five_hospitals [] 0 2 3 pair_sent)
    as [Hcount Hpool].
  - lia.
  - apply pair_reachable.
  - split; [reflexivity|]. split; [reflexivity|]. split; [exact Hcount|].
    apply Hpool. simpl. lia.
Defined.

(** C10, as stated, fails: the code accepts an ambulance count of -1 (the
    assertion only bounds it from above).  The replication then starts from
    a reachable state with an empty fleet and the counter at -1: the counter
    is not the number of units flagged available, and it is not 0 while no
    unit is flagged available, so the first call takes the fall-back to the
    whole (empty) fleet, where [np.argmin] raises [ValueError]. *)
Lemma negative_count_breaks_invariant :
  reachable cycle_exponential cycle_calls [] 0 (-1) 3 three_stations
    five_hospitals negative_start /\
  current_state negative_start = (-1)%Z /\
  filter flagged_available (ambulances negative_start) = [] /\
  current_state negative_start
    <> Z.of_nat (length (filter flagged_available (ambulances negative_start))) /\
  current_state negative_start <> 0%Z /\
  available (ambulances negative_start) = [] /\
  pool (ambulances negative_start) = enumerate (ambulances negative_start) /\
  loop_body cycle_exponential three_stations five_hospitals [] 0 negative_start
    = Raises ValueError.
Proof.
  split; [apply negative_reachable|]. repeat split; try done; simpl; lia.
Qed.


Lemma generator_advances_only_on_hand_off_witness :
  rng cycle_first_start = 36%nat /\
  rng cycle_first_sent = 37%nat /\
  rng cycle_first_sent = (cycle_exponential 35 (rng cycle_first_start)).2 /\
  rng cycle_second_lost = rng cycle_second_sent.
Proof.
  pose proof (generator_advances_only_on_hand_off cycle_exponential
                three_stations five_hospitals [] 0 cycle_first_start
                cycle_first_sent (cycle_first_dispatch _ _ _)) as [Hdraw _].
  pose proof (generator_advances_only_on_hand_off cycle_exponential
                three_stations five_hospitals [] 0 cycle_second_sent
                cycle_second_lost (cycle_second_loss _ _ _)) as [_ Hkept].
  split; [reflexivity|]. split; [reflexivity|].
  split; [apply Hdraw; [simpl; lia|reflexivity]|].
  apply Hkept. by left.
Defined.

Lemma insort_after_ties_witness :
  insort (FreeEvent 5 0)
    [CallEvent 5 1 53.5 (-113.5) 0; CallEvent 7 1 53.5 (-113.5) 0]
  = [CallEvent 5 1 53.5 (-113.5) 0; FreeEvent 5 0; CallEvent 7 1 53.5 (-113.5) 0] /\
  exists before after,
    [CallEvent 5 1 53.5 (-113.5) 0; CallEvent 7 1 53.5 (-113.5) 0]
      = before ++ after /\
    insort (FreeEvent 5 0)
      [CallEvent 5 1 53.5 (-113.5) 0; CallEvent 7 1 53.5 (-113.5) 0]
      = before ++ FreeEvent 5 0 :: after /\
    Forall (fun x => (time x <= time (FreeEvent 5 0))%R) before /\
    Forall (fun x => (time (FreeEvent 5 0) < time x)%R) after.
Proof.
  split.
  - simpl. destruct (Rlt_dec 5 5); [lra|]. destruct (Rlt_dec 5 7); [done|lra].
  - apply (insort_after_ties (FreeEvent 5 0)).
    repeat constructor. unfold not_later. simpl. lra.
Defined.

Lemma earliest_event_is_popped_witness :
  events burst_sent
  = [CallEvent (0 + 20000 + 20000) 60000 53.35 (-113.75) 0;
     CallEvent (0 + 20000 + 20000 + 60000) 60000 53.35 (-113.75) 1;
     FreeEvent (0 + 20000 + cycle_t1 + 60000 + cycle_t2 + 60000) 0] /\
  Forall (fun x =>
            (time (CallEvent (0 + 20000 + 20000) 60000 53.35 (-113.75) 0)
             <= time x)%R)
    [CallEvent (0 + 20000 + 20000 + 60000) 60000 53.35 (-113.75) 1;
     FreeEvent (0 + 20000 + cycle_t1 + 60000 + cycle_t2 + 60000) 0] /\
  StronglySorted not_later
    [CallEvent (0 + 20000 + 20000 + 60000) 60000 53.35 (-113.75) 1;
     FreeEvent (0 + 20000 + cycle_t1 + 60000 + cycle_t2 + 60000) 0].
Proof.
  split; [reflexivity|].
  apply (earliest_event_is_popped burst_exponential burst_calls [] 0 1 3
           three_stations five_hospitals burst_sent).
  - apply burst_reachable.
  - reflexivity.
Defined.

Lemma calls_in_time_order_queue_as_they_come_witness :
  initial_events tied_calls = map call_event tied_calls.
Proof.
  apply calls_in_time_order_queue_as_they_come.
  unfold tied_calls. repeat constructor; simpl; lra.
Defined.
